(** * kaskade: the consumption engine and the snapshot aggregation

    A shallow embedding of [src/kaskade/services.py]:

    - [ConsumerService.consume], the retry-bounded polling loop with its
      four filters;
    - [TopicService.all] with [_map_topics], [_get_watermarks] and
      [_map_groups_into_topics], the aggregation of topic metadata,
      watermark offsets and consumer-group state into one snapshot.

    Python integers are unbounded, so every integer of the source is a [Z].
    A [str] and a [bytes] value are both a [string] (a list of 8-bit
    characters).  [None] is [option]'s [None]. *)

From Stdlib Require Import ZArith List String Ascii Bool Lia.
From Stdlib Require Import Permutation Sorted.
From Stdlib Require OrderedTypeEx.
Import ListNotations.
Open Scope string_scope.
Open Scope list_scope.
Open Scope Z_scope.

Set Implicit Arguments.

(** ** Python helpers *)

Module Py.

(** [needle in hay] on two [str] values: the substring test. *)
Fixpoint str_in (needle hay : string) : bool :=
  String.prefix needle hay
  || match hay with
     | EmptyString => false
     | String _ rest => str_in needle rest
     end.

(** Truth value of a [str | None] used as a condition: [None] and the
    empty string are false. *)
Definition truthy (s : option string) : bool :=
  match s with
  | None => false
  | Some EmptyString => false
  | Some (String _ _) => true
  end.

(** [len(l)] as a Python integer. *)
Definition len {A : Type} (l : list A) : Z := Z.of_nat (List.length l).

(** [c.lower()] on one ASCII character. *)
Definition lower_ascii (c : ascii) : ascii :=
  let n := nat_of_ascii c in
  if (Nat.leb 65 n && Nat.leb n 90)%bool then ascii_of_nat (n + 32) else c.

(** [s.lower()] on an ASCII string. *)
Fixpoint lower (s : string) : string :=
  match s with
  | EmptyString => EmptyString
  | String c rest => String (lower_ascii c) (lower rest)
  end.

(** [needle] occurs in [hay]: what [needle in hay] decides. *)
Definition occurs_in (needle hay : string) : Prop :=
  exists before after, hay = (before ++ needle ++ after)%string.

End Py.

(** ** The surface of [confluent_kafka] that the services use *)

Module Kafka.

(** [confluent_kafka.OFFSET_INVALID], librdkafka's
    [RD_KAFKA_OFFSET_INVALID]. *)
Definition OFFSET_INVALID : Z := -1001.

(** A [KafkaError] object.  The type defines no truth value of its own,
    so every [KafkaError] object is true in a condition. *)
Module KafkaError.
Record t := { code : Z; str : string }.
End KafkaError.

Module TopicPartition.
Record t := { topic : string; partition : Z; offset : Z }.
(** [TopicPartition(topic, partition)]: the offset defaults to
    [OFFSET_INVALID]. *)
Definition new (topic : string) (partition : Z) : t :=
  {| topic := topic; partition := partition; offset := OFFSET_INVALID |}.
End TopicPartition.

(** What [Consumer.poll] hands back when it is not [None]. *)
Module Message.
Record t := {
  error : option KafkaError.t;
  partition : Z;
  offset : Z;
  key : option string;
  value : option string;
  headers : option (list (string * string));
  timestamp : Z * Z
}.
End Message.

(** [confluent_kafka.admin.PartitionMetadata] *)
Module PartitionMetadata.
Record t := { id : Z; leader : Z; replicas : list Z; isrs : list Z }.
End PartitionMetadata.

(** [confluent_kafka.admin.TopicMetadata]; [partitions] is the dict's
    [values()], in the dict's order. *)
Module TopicMetadata.
Record t := { topic : string; partitions : list PartitionMetadata.t }.
End TopicMetadata.

(** [confluent_kafka.Node], the coordinator of a described group. *)
Module NodeMetadata.
Record t := { id : Z; host : string; port : Z; rack : option string }.
End NodeMetadata.

(** [confluent_kafka.admin.MemberDescription]; [assignment] is
    [assignment.topic_partitions]. *)
Module MemberDescription.
Record t := {
  member_id : string;
  client_id : string;
  host : string;
  group_instance_id : option string;
  assignment : list TopicPartition.t
}.
End MemberDescription.

(** [confluent_kafka.admin.ConsumerGroupDescription]; [state] is
    [state.name], the name of the enumeration member. *)
Module ConsumerGroupDescription.
Record t := {
  group_id : string;
  partition_assignor : string;
  state : string;
  coordinator : NodeMetadata.t;
  members : list MemberDescription.t
}.
End ConsumerGroupDescription.

(** [confluent_kafka.cimpl.NewTopic] *)
Module NewTopic.
Record t := { topic : string; num_partitions : Z; replication_factor : Z }.
End NewTopic.

(** [confluent_kafka.cimpl.NewPartitions(topic, new_total_count)] *)
Module NewPartitions.
Record t := { topic : string; new_total_count : Z }.
End NewPartitions.

(** [confluent_kafka.admin.ResourceType] *)
Inductive ResourceType :=
| RESOURCE_UNKNOWN | RESOURCE_ANY | TOPIC | GROUP | BROKER | TRANSACTIONAL_ID.

(** [confluent_kafka.admin.ConfigSource] *)
Inductive ConfigSource :=
| UNKNOWN_CONFIG | DYNAMIC_TOPIC_CONFIG | DYNAMIC_BROKER_CONFIG
| DYNAMIC_DEFAULT_BROKER_CONFIG | STATIC_BROKER_CONFIG | DEFAULT_CONFIG
| GROUP_CONFIG.

(** [confluent_kafka.admin.AlterConfigOpType] *)
Inductive AlterConfigOpType := SET | DELETE | APPEND | SUBTRACT.

(** [confluent_kafka.admin.ConfigEntry]; a value may be [None], and an
    entry that a description returns carries no operation. *)
Module ConfigEntry.
Record t := {
  name : string;
  value : option string;
  source : ConfigSource;
  incremental_operation : option AlterConfigOpType
}.
End ConfigEntry.

(** [confluent_kafka.admin.ConfigResource] *)
Module ConfigResource.
Record t := {
  restype : ResourceType;
  name : string;
  incremental_configs : list ConfigEntry.t
}.
End ConfigResource.

(** What a call that can fail does: it returns, or it raises
    [KafkaException] or some other exception, named by [what]. *)
Inductive Exception :=
| KafkaException (e : KafkaError.t)
| OtherException (what : string).

Inductive Reply (A : Type) :=
| Returns (a : A)
| Throws (ex : Exception).
Arguments Returns {A} a.
Arguments Throws {A} ex.

End Kafka.

(** ** [ConsumerService] *)

Module ConsumerService.
Import Kafka.

(** [kaskade.models] lies outside [services.py]; what [consume] uses
    of it comes first. *)
Section Models.

(** The closed enumeration [Format] and the decoders that
    [DeserializerFactory.make_deserializer] hands out stay abstract. *)
Variables Format Deserializer : Type.

(** Modelled from the spec: the data class [Header] of [kaskade.models]
    (3. DATA MODEL: [{key, value: bytes, deserializer}]), with the fields
    that line 139 passes to its constructor. *)
Record Header := {
  header_key : string;
  header_value : string;
  header_deserializer : Deserializer
}.

(** Modelled from the spec: the data class [Record] of [kaskade.models]
    (3. DATA MODEL), with the fields that line 130 passes to its
    constructor; a key or a value is [None] or bytes. *)
Record Record_ := {
  record_topic : string;
  record_partition : Z;
  record_offset : Z;
  record_key : option string;
  record_value : option string;
  record_date : string;
  record_headers : list Header;
  record_key_format : Format;
  record_value_format : Format;
  record_key_deserializer : Deserializer;
  record_value_deserializer : Deserializer
}.

(** What [consume] calls and [services.py] does not define, taken as
    given: the member [Format.STRING], the factory's [make_deserializer],
    the display strings [Record.key_str], [Record.value_str] and
    [Header.value_str] ("supports producing a display string via the
    attached deserializer"), and the formatting of a timestamp,
    [datetime.fromtimestamp(timestamp / 1000).strftime(...)], which
    depends on the local time zone and raises ([ValueError],
    [OverflowError] or [OSError]) for a timestamp outside the years that
    a [datetime] can hold. *)
Record Models := {
  STRING : Format;
  make_deserializer : Format -> Deserializer;
  format_timestamp : Z -> Reply string;
  key_str : Record_ -> string;
  value_str : Record_ -> string;
  header_value_str : Header -> string
}.

End Models.

Section Consume.

Variables Format Deserializer : Type.
Variable models : Models Format Deserializer.

#[local] Abbreviation Header := (Header Deserializer).
#[local] Abbreviation Record_ := (Record_ Format Deserializer).

(** [_match_header(header_filter, headers)] *)
Definition _match_header (header_filter : string)
           (headers : option (list Header)) : bool :=
  match headers with
  | None => false
  | Some headers =>
      existsb (fun header => Py.str_in header_filter (header_value_str models header))
              headers
  end.

(** The fields of [self] that [consume] reads.  [consumer] is the
    subscribed consumer seen from one call: [consumer n] is what the
    [n]-th [poll] of the call returns, [None] when the poll times out
    with nothing to deliver, a message otherwise.  The consumer is open,
    so [poll] itself returns; the display strings of [kaskade.models]
    are taken to return as well. *)
Record Self := {
  self_topic : string;
  page_size : Z;
  max_retries : Z;
  key_format : Format;
  value_format : Format;
  consumer : nat -> option Message.t
}.

(** The keyword arguments of [consume]. *)
Record Filters := {
  partition_filter : option Z;
  key_filter : option string;
  value_filter : option string;
  header_filter : option string
}.

Definition no_filters : Filters :=
  {| partition_filter := None; key_filter := None;
     value_filter := None; header_filter := None |}.

Variable self : Self.
Variable filters : Filters.

(** Lines 123-128: the date of a polled message, or the exception that
    line 125 raises. *)
Definition date_of (record_metadata : Message.t) : Reply string :=
  let '(timestamp_available, timestamp) := Message.timestamp record_metadata in
  if 0 <? timestamp_available then format_timestamp models timestamp
  else Returns "".

(** The [Record] built from a polled message and its date (lines
    130-153). *)
Definition make_record (record_metadata : Message.t) (date : string) : Record_ :=
  {| record_topic := self_topic self;
     record_partition := Message.partition record_metadata;
     record_offset := Message.offset record_metadata;
     record_key := Message.key record_metadata;
     record_value := Message.value record_metadata;
     record_date := date;
     record_headers :=
       match Message.headers record_metadata with
       | Some hs =>
           map (fun kv => {| header_key := fst kv;
                             header_value := snd kv;
                             header_deserializer := make_deserializer models (STRING models) |})
               hs
       | None => []
       end;
     record_key_format := key_format self;
     record_value_format := value_format self;
     record_key_deserializer := make_deserializer models (key_format self);
     record_value_deserializer := make_deserializer models (value_format self) |}.

(** The four guards of lines 155-169; each is true when its
    [continue] is taken. *)
Definition partition_skips (record : Record_) : bool :=
  match partition_filter filters with
  | Some p => negb (record_partition record =? p)
  | None => false
  end.

Definition key_skips (record : Record_) : bool :=
  if Py.truthy (key_filter filters) then
    match key_filter filters with
    | Some f => negb (Py.str_in f (key_str models record))
    | None => false
    end
  else false.

Definition value_skips (record : Record_) : bool :=
  if Py.truthy (value_filter filters) then
    match value_filter filters with
    | Some f => negb (Py.str_in f (value_str models record))
    | None => false
    end
  else false.

Definition header_skips (record : Record_) : bool :=
  if Py.truthy (header_filter filters) then
    match header_filter filters with
    | Some f => negb (_match_header f (Some (record_headers record)))
    | None => false
    end
  else false.

(** The local variables of [consume], and the number of polls issued
    so far in the call. *)
Record Locals := {
  records : list Record_;
  retries : Z;
  polls : nat
}.

(** How one pass through the body of the [while] ends. *)
Inductive Flow :=
| Continue (next : Locals)
| Break (last : Locals)
| Raise (ex : Exception) (last : Locals).

(** Lines 108-171, one pass. *)
Definition loop_body (l : Locals) : Flow :=
  if max_retries self <=? retries l then Break l
  else
    let polled := {| records := records l; retries := retries l;
                     polls := S (polls l) |} in
    match consumer self (polls l) with
    | None =>
        Continue {| records := records l; retries := retries l + 1;
                    polls := S (polls l) |}
    | Some record_metadata =>
        match Message.error record_metadata with
        | Some e => Raise (KafkaException e) polled
        | None =>
            let skip := {| records := records l; retries := 0;
                           polls := S (polls l) |} in
            match date_of record_metadata with
            | Throws ex => Raise ex skip
            | Returns date =>
                let record := make_record record_metadata date in
                if partition_skips record then Continue skip
                else if key_skips record then Continue skip
                else if value_skips record then Continue skip
                else if header_skips record then Continue skip
                else Continue {| records := records l ++ [record];
                                 retries := 0; polls := S (polls l) |}
            end
        end
    end.

(** How a call ends: the page, or the exception that leaves the call,
    the [KafkaException] of line 119 or what line 125 raised; with it
    the number of polls the call issued. *)
Inductive Outcome :=
| Returned (page : list Record_)
| Raised (ex : Exception).

(** The [while] of line 107.  The loop need not end (a broker that
    keeps delivering records that the filters reject), so it runs on
    fuel: [None] is "not done after [fuel] passes". *)
Fixpoint while_loop (fuel : nat) (l : Locals) : option (Outcome * nat) :=
  match fuel with
  | O => None
  | S fuel =>
      if Py.len (records l) <? page_size self then
        match loop_body l with
        | Continue next => while_loop fuel next
        | Break last => Some (Returned (records last), polls last)
        | Raise ex last => Some (Raised ex, polls last)
        end
      else Some (Returned (records l), polls l)
  end.

Definition start : Locals := {| records := []; retries := 0; polls := 0%nat |}.

(** [ConsumerService.consume] *)
Definition consume (fuel : nat) : option (Outcome * nat) :=
  while_loop fuel start.

End Consume.

(** *** Vocabulary for the statements about [consume] *)

Section Vocabulary.

Variables Format Deserializer : Type.
Variable models : Models Format Deserializer.

#[local] Abbreviation Record_ := (Record_ Format Deserializer).
#[local] Abbreviation Locals := (Locals Format Deserializer).

(** A record is kept out of the page when one of the four guards takes
    its [continue]. *)
Definition skipped (filters : Filters) (record : Record_) : bool :=
  partition_skips filters record
  || key_skips models filters record
  || value_skips models filters record
  || header_skips models filters record.

(** The loop state after a poll that delivered [record_metadata], whose
    date is [date]. *)
Definition after_record (self : Self Format) (filters : Filters)
           (l : Locals) (record_metadata : Message.t) (date : string) : Locals :=
  let record := make_record models self record_metadata date in
  {| records := if skipped filters record then records l else records l ++ [record];
     retries := 0;
     polls := S (polls l) |}.

(** The loop state after a poll that returned [None]. *)
Definition after_silence (l : Locals) : Locals :=
  {| records := records l; retries := retries l + 1; polls := S (polls l) |}.

(** The ways through the body of the loop. *)
Inductive Pass (self : Self Format) (filters : Filters) (l : Locals)
  : Flow Format Deserializer -> Prop :=
| PassExhausted :
    max_retries self <= retries l ->
    Pass self filters l (Break l)
| PassSilence :
    retries l < max_retries self ->
    consumer self (polls l) = None ->
    Pass self filters l (Continue (after_silence l))
| PassError record_metadata e :
    retries l < max_retries self ->
    consumer self (polls l) = Some record_metadata ->
    Message.error record_metadata = Some e ->
    Pass self filters l
         (Raise (KafkaException e)
                {| records := records l; retries := retries l;
                   polls := S (polls l) |})
| PassDate record_metadata ex :
    retries l < max_retries self ->
    consumer self (polls l) = Some record_metadata ->
    Message.error record_metadata = None ->
    date_of models record_metadata = Throws ex ->
    Pass self filters l
         (Raise ex {| records := records l; retries := 0;
                      polls := S (polls l) |})
| PassRecord record_metadata date :
    retries l < max_retries self ->
    consumer self (polls l) = Some record_metadata ->
    Message.error record_metadata = None ->
    date_of models record_metadata = Returns date ->
    Pass self filters l
         (Continue (after_record self filters l record_metadata date)).

(** [filters] with every empty-string filter replaced by [None]. *)
Definition drop_empty (filters : Filters) : Filters :=
  let drop := fun f : option string => if Py.truthy f then f else None in
  {| partition_filter := partition_filter filters;
     key_filter := drop (key_filter filters);
     value_filter := drop (value_filter filters);
     header_filter := drop (header_filter filters) |}.

End Vocabulary.

(** *** Vocabulary for the statements about pages *)

Section Pages.

Variables Format Deserializer : Type.
Variable models : Models Format Deserializer.

#[local] Abbreviation Record_ := (Record_ Format Deserializer).

(** What one poll adds to the page: the record of a delivered message
    without error, whose date can be formatted, that no filter rejects;
    nothing otherwise. *)
Definition kept (self : Self Format) (filters : Filters)
           (polled : option Message.t) : list Record_ :=
  match polled with
  | Some record_metadata =>
      match Message.error record_metadata, date_of models record_metadata with
      | None, Returns date =>
          let record := make_record models self record_metadata date in
          if skipped models filters record then [] else [record]
      | _, _ => []
      end
  | None => []
  end.

(** What the first [n] polls of a call add to the page, in the order of
    the polls. *)
Definition page_of (self : Self Format) (filters : Filters) (n : nat)
  : list Record_ :=
  flat_map (fun i => kept self filters (consumer self i)) (seq 0 n).

(** The same service with another [page_size]. *)
Definition with_page_size (self : Self Format) (page_size : Z) : Self Format :=
  {| self_topic := self_topic self;
     page_size := page_size;
     max_retries := max_retries self;
     key_format := key_format self;
     value_format := value_format self;
     consumer := consumer self |}.

(** The same service seen from the next call, after [n] polls. *)
Definition advance (self : Self Format) (n : nat) : Self Format :=
  {| self_topic := self_topic self;
     page_size := page_size self;
     max_retries := max_retries self;
     key_format := key_format self;
     value_format := value_format self;
     consumer := fun i => consumer self (n + i) |}.

(** The outcome of a call whose page continues [page]. *)
Definition continue_page (page : list Record_)
           (outcome : Outcome Format Deserializer) : Outcome Format Deserializer :=
  match outcome with
  | Returned more => Returned (page ++ more)
  | Raised _ _ ex => Raised Format Deserializer ex
  end.

(** The locals of a running call: the page so far is what the polls so
    far have added, and the counter counts the empty polls at the end of
    them. *)
Definition tracked (self : Self Format) (filters : Filters) (l : Locals Format Deserializer) : Prop :=
  records l = page_of self filters (polls l)
  /\ 0 <= retries l <= Z.of_nat (polls l)
  /\ (forall i, Z.of_nat (polls l) - retries l <= Z.of_nat i ->
                (i < polls l)%nat -> consumer self i = None)
  /\ (retries l = 0 \/ Py.len (records l) < page_size self)
  /\ (page_size self <= Py.len (records l) -> 0 < page_size self ->
      exists k record,
        polls l = S k
        /\ kept self filters (consumer self k) = [record]
        /\ records l = page_of self filters k ++ [record]
        /\ Py.len (records l) = page_size self).

End Pages.

End ConsumerService.

(** ** The data classes of [kaskade.models] that a snapshot is made of *)

Module Models.

(** Modelled from the spec: the data class [Node] of [kaskade.models]
    (3. DATA MODEL: [{id, host, port, rack}]), as lines 270-275 construct
    it. *)
Module Node.
Record t := { id : Z; host : string; port : Z; rack : option string }.
End Node.

(** Modelled from the spec: the data class [Partition] of
    [kaskade.models] (3. DATA MODEL), as lines 355-363 construct it. *)
Module Partition.
Record t := {
  id : Z;
  topic : string;
  leader : Z;
  replicas : list Z;
  isrs : list Z;
  high : Z;
  low : Z
}.
End Partition.

(** Modelled from the spec: the data class [GroupPartition] of
    [kaskade.models] (3. DATA MODEL), as lines 312-319 construct it. *)
Module GroupPartition.
Record t := {
  id : Z;
  topic : string;
  offset : Z;
  group : string;
  high : Z;
  low : Z
}.
End GroupPartition.

(** Modelled from the spec: the data class [GroupMember] of
    [kaskade.models] (3. DATA MODEL), as lines 331-338 construct it. *)
Module GroupMember.
Record t := {
  id : string;
  group : string;
  client_id : string;
  host : string;
  instance_id : option string;
  assignment : list Z
}.
End GroupMember.

(** Modelled from the spec: the data class [Group] of [kaskade.models]
    (3. DATA MODEL), as lines 277-282 construct it; [partitions] and
    [members] start empty and are filled by [append]. *)
Module Group.
Record t := {
  id : string;
  partition_assignor : string;
  state : string;
  coordinator : Node.t;
  partitions : list GroupPartition.t;
  members : list GroupMember.t
}.
Definition new (id partition_assignor state : string) (coordinator : Node.t) : t :=
  {| id := id; partition_assignor := partition_assignor; state := state;
     coordinator := coordinator; partitions := []; members := [] |}.
(** [group.partitions.append(group_partition)] *)
Definition append_partition (group : t) (group_partition : GroupPartition.t) : t :=
  {| id := id group; partition_assignor := partition_assignor group;
     state := state group; coordinator := coordinator group;
     partitions := partitions group ++ [group_partition];
     members := members group |}.
(** [group.members.append(member)] *)
Definition append_member (group : t) (member : GroupMember.t) : t :=
  {| id := id group; partition_assignor := partition_assignor group;
     state := state group; coordinator := coordinator group;
     partitions := partitions group;
     members := members group ++ [member] |}.
End Group.

(** Modelled from the spec: the data class [Topic] of [kaskade.models]
    (3. DATA MODEL: [{name, partitions, groups}]), as line 347 constructs
    it; [partitions] and [groups] start empty and are filled by
    [append]. *)
Module Topic.
Record t := {
  name : string;
  partitions : list Partition.t;
  groups : list Group.t
}.
Definition new (name : string) : t :=
  {| name := name; partitions := []; groups := [] |}.
(** [topic.partitions.append(partition)] *)
Definition append_partition (topic : t) (partition : Partition.t) : t :=
  {| name := name topic; partitions := partitions topic ++ [partition];
     groups := groups topic |}.
(** [topic.groups.append(group)] *)
Definition append_group (topic : t) (group : Group.t) : t :=
  {| name := name topic; partitions := partitions topic;
     groups := groups topic ++ [group] |}.
End Topic.

End Models.

(** ** A Python [dict] with [str] keys

    Insertion-ordered; assigning to a key that is present replaces the
    value where the key stands. *)

Module Dict.

Definition t (V : Type) := list (string * V).

Fixpoint set {V : Type} (d : t V) (k : string) (v : V) : t V :=
  match d with
  | [] => [(k, v)]
  | (k', v') :: rest =>
      if String.eqb k' k then (k', v) :: rest else (k', v') :: set rest k v
  end.

Definition keys {V : Type} (d : t V) : list string := map fst d.

Definition values {V : Type} (d : t V) : list V := map snd d.

(** [d.get(k)] *)
Fixpoint get {V : Type} (d : t V) (k : string) : option V :=
  match d with
  | [] => None
  | (k', v) :: rest => if String.eqb k' k then Some v else get rest k
  end.

End Dict.

(** ** [TopicService] *)

Module TopicService.
Import Kafka Models.

(** A consumer handle: the [handle_id]-th [Consumer(...)] object that
    the service has constructed, with the ["group.id"] it was given. *)
Record Handle := { handle_id : nat; handle_group_id : string }.

(** What the service does to the outside, in order. *)
Inductive Event :=
| NewConsumer (h : Handle)
| Committed (h : Handle) (request : list TopicPartition.t)
            (reply : Reply (list TopicPartition.t))
| GetWatermarkOffsets (h : Handle) (tp : TopicPartition.t) (reply : Reply (Z * Z))
| LoggerException (e : KafkaError.t).

Record World := {
  trace : list Event;
  consumers : nat;
  uuids : nat
}.

Definition genesis : World := {| trace := []; consumers := 0; uuids := 0 |}.

(** The admin client's answers to the three listing calls, in a run in
    which they return.  A listing call that raises (line 411, lines
    391-393, line 400) is outside any [try] and ends [all] with its
    exception; such runs return no snapshot and are not described. *)
Record Admin := {
  list_topics : list TopicMetadata.t;
  list_consumer_groups : list string;
  describe_consumer_groups :
    list string -> list (string * ConsumerGroupDescription.t)
}.

Section Broker.

(** [uuid4 n] is the [n]-th identifier that [uuid.uuid4()] draws.  The
    broker's reply to an offset call is a function of the handle the call
    goes through and of the call's argument.  Constructing a [Consumer]
    (lines 267 and 374, outside any [try]) is taken to succeed: a run in
    which it raises returns no snapshot and is not described. *)
Variable uuid4 : nat -> string.
Variable committed_reply :
  Handle -> list TopicPartition.t -> Reply (list TopicPartition.t).
Variable watermark_reply : Handle -> TopicPartition.t -> Reply (Z * Z).

(** Computations that act on the world and may raise. *)
Definition M (A : Type) : Type := World -> Reply A * World.

Definition ret {A : Type} (a : A) : M A := fun w => (Returns a, w).

Definition bind {A B : Type} (m : M A) (k : A -> M B) : M B :=
  fun w =>
    match m w with
    | (Returns a, w') => k a w'
    | (Throws ex, w') => (Throws ex, w')
    end.

Notation "x <- m ;; k" := (bind m (fun x => k))
  (at level 61, m at next level, right associativity).
Notation "' pat <- m ;; k" := (bind m (fun x => match x with pat => k end))
  (at level 61, pat pattern, m at next level, right associativity).
Notation "m ;;; k" := (bind m (fun _ => k))
  (at level 61, right associativity).

Definition emit (ev : Event) : M unit :=
  fun w => (Returns tt, {| trace := trace w ++ [ev];
                           consumers := consumers w; uuids := uuids w |}).

(** [try: body  except KafkaException as ex: handler(ex)] *)
Definition try_except_KafkaException {A : Type} (body : M A)
           (handler : KafkaError.t -> M A) : M A :=
  fun w =>
    match body w with
    | (Throws (KafkaException e), w') => handler e w'
    | r => r
    end.

(** [for x in xs: acc = body(acc, x)] *)
Fixpoint for_each {A X : Type} (xs : list X) (body : A -> X -> M A) (acc : A) : M A :=
  match xs with
  | [] => ret acc
  | x :: rest => acc' <- body acc x ;; for_each rest body acc'
  end.

(** [for v in d.values(): body(v)], where [body] mutates [v] in place. *)
Fixpoint for_values {V : Type} (d : Dict.t V) (body : V -> M V) : M (Dict.t V) :=
  match d with
  | [] => ret []
  | (k, v) :: rest =>
      v' <- body v ;;
      rest' <- for_values rest body ;;
      ret ((k, v') :: rest')
  end.

(** [uuid.uuid4()] *)
Definition uuid_uuid4 : M string :=
  fun w => (Returns (uuid4 (uuids w)),
            {| trace := trace w; consumers := consumers w; uuids := S (uuids w) |}).

(** [Consumer(self.config | {"group.id": group_id})] *)
Definition Consumer (group_id : string) : M Handle :=
  fun w =>
    let h := {| handle_id := consumers w; handle_group_id := group_id |} in
    (Returns h, {| trace := trace w ++ [NewConsumer h];
                   consumers := S (consumers w); uuids := uuids w |}).

(** [consumer.committed(partitions, timeout=...)] *)
Definition committed (h : Handle) (request : list TopicPartition.t)
  : M (list TopicPartition.t) :=
  let reply := committed_reply h request in
  emit (Committed h request reply) ;;; fun w => (reply, w).

(** [consumer.get_watermark_offsets(tp, timeout=..., cached=False)] *)
Definition get_watermark_offsets (h : Handle) (tp : TopicPartition.t) : M (Z * Z) :=
  let reply := watermark_reply h tp in
  emit (GetWatermarkOffsets h tp reply) ;;; fun w => (reply, w).

(** [logger.exception(ex)] *)
Definition logger_exception (e : KafkaError.t) : M unit :=
  emit (LoggerException e).

(** [TopicService._get_watermarks] *)
Definition _get_watermarks (topic_metadata : TopicMetadata.t)
           (partition_metadata : PartitionMetadata.t) : M (Z * Z) :=
  let low_high := (0, 0) in
  u <- uuid_uuid4 ;;
  consumer <- Consumer ("kaskade-" ++ u)%string ;;
  try_except_KafkaException
    (get_watermark_offsets consumer
       (TopicPartition.new (TopicMetadata.topic topic_metadata)
                           (PartitionMetadata.id partition_metadata)))
    (fun ex => logger_exception ex ;;; ret low_high).

(** Lines 355-363: [Partition(...)] from the metadata of a partition and
    its [(low, high)] watermarks. *)
Definition new_partition (topic_metadata : TopicMetadata.t)
           (topic_partition_metadata : PartitionMetadata.t)
           (low_high : Z * Z) : Partition.t :=
  {| Partition.id := PartitionMetadata.id topic_partition_metadata;
     Partition.topic := TopicMetadata.topic topic_metadata;
     Partition.leader := PartitionMetadata.leader topic_partition_metadata;
     Partition.replicas := PartitionMetadata.replicas topic_partition_metadata;
     Partition.isrs := PartitionMetadata.isrs topic_partition_metadata;
     Partition.high := snd low_high;
     Partition.low := fst low_high |}.

(** [TopicService._map_topics] *)
Definition _map_topics (topics_metadata : list TopicMetadata.t) : M (Dict.t Topic.t) :=
  for_each topics_metadata
    (fun topics topic_metadata =>
       let topic := Topic.new (TopicMetadata.topic topic_metadata) in
       let topics := Dict.set topics (TopicMetadata.topic topic_metadata) topic in
       topic <- for_each (TopicMetadata.partitions topic_metadata)
         (fun topic topic_partition_metadata =>
            ' (low_topic_partition_watermark, high_topic_partition_watermark) <-
              _get_watermarks topic_metadata topic_partition_metadata ;;
            let partition :=
              new_partition topic_metadata topic_partition_metadata
                            (low_topic_partition_watermark,
                             high_topic_partition_watermark) in
            ret (Topic.append_partition topic partition))
         topic ;;
       (* the appends went to the object that the dict holds *)
       ret (Dict.set topics (TopicMetadata.topic topic_metadata) topic))
    [].

(** Lines 325-329: the partitions of [topic_name] in a member's
    assignment. *)
Definition member_partitions (topic_name : string)
           (member_metadata : MemberDescription.t) : list Z :=
  map TopicPartition.partition
      (filter (fun topic_partition =>
                 String.eqb topic_name (TopicPartition.topic topic_partition))
              (MemberDescription.assignment member_metadata)).

(** Lines 331-338: [GroupMember(...)] with the trimmed assignment. *)
Definition new_member (group_metadata : ConsumerGroupDescription.t)
           (member_metadata : MemberDescription.t)
           (member_partitions : list Z) : GroupMember.t :=
  {| GroupMember.id := MemberDescription.member_id member_metadata;
     GroupMember.group := ConsumerGroupDescription.group_id group_metadata;
     GroupMember.client_id := MemberDescription.client_id member_metadata;
     GroupMember.host := MemberDescription.host member_metadata;
     GroupMember.instance_id := MemberDescription.group_instance_id member_metadata;
     GroupMember.assignment := member_partitions |}.

(** Lines 312-319: [GroupPartition(...)] from a committed partition and
    its [(low, high)] watermarks. *)
Definition new_group_partition (group_metadata : ConsumerGroupDescription.t)
           (group_partition_metadata : TopicPartition.t)
           (low_high : Z * Z) : GroupPartition.t :=
  {| GroupPartition.id := TopicPartition.partition group_partition_metadata;
     GroupPartition.topic := TopicPartition.topic group_partition_metadata;
     GroupPartition.offset := TopicPartition.offset group_partition_metadata;
     GroupPartition.group := ConsumerGroupDescription.group_id group_metadata;
     GroupPartition.high := snd low_high;
     GroupPartition.low := fst low_high |}.

(** Lines 284-286: the partitions of [topic] that the committed offsets
    are asked for. *)
Definition request_for (topic : Topic.t) : list TopicPartition.t :=
  map (fun partition => TopicPartition.new (Topic.name topic) (Partition.id partition))
      (Topic.partitions topic).

(** Lines 324-339: the members of the group that are attached for
    [topic_name]. *)
Definition attach_members (group_metadata : ConsumerGroupDescription.t)
           (topic_name : string) (group : Group.t) : Group.t :=
  fold_left
    (fun group member_metadata =>
       let member_partitions := member_partitions topic_name member_metadata in
       if 0 <? Py.len member_partitions then
         Group.append_member group
           (new_member group_metadata member_metadata member_partitions)
       else group)
    (ConsumerGroupDescription.members group_metadata)
    group.

(** Lines 270-341: the body of the loop over [topics.values()], for one
    group and one topic. *)
Definition group_into_topic (group_metadata : ConsumerGroupDescription.t)
           (group_consumer : Handle) (topic : Topic.t) : M Topic.t :=
  let coordinator :=
    let c := ConsumerGroupDescription.coordinator group_metadata in
    {| Node.id := NodeMetadata.id c; Node.host := NodeMetadata.host c;
       Node.port := NodeMetadata.port c; Node.rack := NodeMetadata.rack c |} in
  let group :=
    Group.new (ConsumerGroupDescription.group_id group_metadata)
              (ConsumerGroupDescription.partition_assignor group_metadata)
              (Py.lower (ConsumerGroupDescription.state group_metadata))
              coordinator in
  let topic_partitions_for_this_group_metadata := request_for topic in
  committed_partitions_metadata <-
    committed group_consumer topic_partitions_for_this_group_metadata ;;
  group <- for_each committed_partitions_metadata
    (fun group group_partition_metadata =>
       if TopicPartition.offset group_partition_metadata =? OFFSET_INVALID then
         ret group
       else
         let low_high := (0, 0) in
         ' (low_group_partition_watermark, high_group_partition_watermark) <-
           try_except_KafkaException
             (get_watermark_offsets group_consumer group_partition_metadata)
             (fun ex => logger_exception ex ;;; ret low_high) ;;
         let group_partition :=
           new_group_partition group_metadata group_partition_metadata
                               (low_group_partition_watermark,
                                high_group_partition_watermark) in
         ret (Group.append_partition group group_partition))
    group ;;
  if 0 <? Py.len (Group.partitions group) then
    ret (Topic.append_group topic
           (attach_members group_metadata (Topic.name topic) group))
  else ret topic.

(** [TopicService._map_groups_into_topics]; the dict that the source
    mutates in place is handed back. *)
Definition _map_groups_into_topics
           (groups_metadata : list ConsumerGroupDescription.t)
           (topics : Dict.t Topic.t) : M (Dict.t Topic.t) :=
  for_each groups_metadata
    (fun topics group_metadata =>
       group_consumer <- Consumer (ConsumerGroupDescription.group_id group_metadata) ;;
       for_values topics (group_into_topic group_metadata group_consumer))
    topics.

(** [sorted(xs, key=key)] for a [str] key: stable, ascending. *)
Fixpoint insert_sorted {X : Type} (key : X -> string) (x : X) (sorted : list X) : list X :=
  match sorted with
  | [] => [x]
  | y :: rest =>
      if String.ltb (key x) (key y) then x :: y :: rest
      else y :: insert_sorted key x rest
  end.

Definition sorted {X : Type} (xs : list X) (key : X -> string) : list X :=
  fold_left (fun acc x => insert_sorted key x acc) xs [].

(** [TopicService._list_topics_metadata] *)
Definition _list_topics_metadata (admin : Admin) : list TopicMetadata.t :=
  let sort_by_topic_name := fun topic => Py.lower (TopicMetadata.topic topic) in
  sorted (list_topics admin) sort_by_topic_name.

(** [TopicService._list_groups_metadata] *)
Definition _list_groups_metadata (admin : Admin) : list ConsumerGroupDescription.t :=
  let group_names := list_consumer_groups admin in
  match group_names with
  | [] => []
  | _ => map snd (describe_consumer_groups admin group_names)
  end.

(** [TopicService.all] *)
Definition all (admin : Admin) : M (Dict.t Topic.t) :=
  topics <- _map_topics (_list_topics_metadata admin) ;;
  _map_groups_into_topics (_list_groups_metadata admin) topics.

(** *** Vocabulary for the statements about a snapshot *)

(** A committed offset that is not the sentinel. *)
Definition has_offset (tp : TopicPartition.t) : bool :=
  negb (TopicPartition.offset tp =? OFFSET_INVALID).

(** The watermarks that a lookup leaves in the local variables. *)
Definition or_zero (reply : Reply (Z * Z)) : Z * Z :=
  match reply with
  | Returns low_high => low_high
  | Throws _ => (0, 0)
  end.

(** The world after some more events. *)
Definition extend (w : World) (evs : list Event) : World :=
  {| trace := trace w ++ evs; consumers := consumers w; uuids := uuids w |}.

(** The handle that [_get_watermarks] creates when it starts in [w]. *)
Definition scoped_handle (w : World) : Handle :=
  {| handle_id := consumers w;
     handle_group_id := ("kaskade-" ++ uuid4 (uuids w))%string |}.

(** What a watermark lookup inside [try ... except KafkaException]
    leaves in the trace. *)
Definition lookup_events (h : Handle) (tp : TopicPartition.t) : list Event :=
  GetWatermarkOffsets h tp (watermark_reply h tp)
  :: match watermark_reply h tp with
     | Throws (KafkaException e) => [LoggerException e]
     | _ => []
     end.

(** The handles that a stretch of the trace creates, in order. *)
Definition created (evs : list Event) : list Handle :=
  flat_map (fun ev => match ev with NewConsumer h => [h] | _ => [] end) evs.

(** The handles that the offset calls of a stretch of the trace go
    through, call by call. *)
Definition lookup_handles (evs : list Event) : list Handle :=
  flat_map (fun ev => match ev with
                      | Committed h _ _ => [h]
                      | GetWatermarkOffsets h _ _ => [h]
                      | _ => []
                      end) evs.

(** The event is a fetch of committed offsets. *)
Definition is_fetch (ev : Event) : bool :=
  match ev with
  | Committed _ _ _ => true
  | _ => false
  end.

(** Every offset call of [evs] goes through a handle of its own, made
    for it. *)
Definition handle_per_lookup (evs : list Event) : Prop :=
  lookup_handles evs = created evs /\ NoDup (created evs).

(** Every offset call of [evs] goes through the handle created just for
    it, and the handles are numbered from [c] on. *)
Definition fresh_from (c : nat) (evs : list Event) : Prop :=
  lookup_handles evs = created evs
  /\ map handle_id (created evs) = seq c (List.length (created evs)).

(** [partition] is the [Partition] of [partition_metadata], with the
    watermarks of a lookup that the trace holds, or [(0, 0)] and a logged
    exception where that lookup raised [KafkaException]. *)
Definition partition_looked_up (tr : list Event) (topic_metadata : TopicMetadata.t)
           (partition_metadata : PartitionMetadata.t) (partition : Partition.t) : Prop :=
  exists h,
    let tp := TopicPartition.new (TopicMetadata.topic topic_metadata)
                                 (PartitionMetadata.id partition_metadata) in
    In (NewConsumer h) tr
    /\ In (GetWatermarkOffsets h tp (watermark_reply h tp)) tr
    /\ partition = new_partition topic_metadata partition_metadata
                                (or_zero (watermark_reply h tp))
    /\ (forall e, watermark_reply h tp = Throws (KafkaException e) ->
                  In (LoggerException e) tr).

(** [group] is the [Group] of [group_metadata] for the topic
    [topic_name], from the committed offsets [reply] fetched through
    [h]. *)
Definition group_fetched (group_metadata : ConsumerGroupDescription.t)
           (h : Handle) (topic_name : string) (reply : list TopicPartition.t)
           (group : Group.t) : Prop :=
  Group.id group = ConsumerGroupDescription.group_id group_metadata
  /\ Group.partitions group
     = map (fun tp => new_group_partition group_metadata tp
                        (or_zero (watermark_reply h tp)))
           (filter has_offset reply)
  /\ Group.members group
     = flat_map (fun member_metadata =>
                   let member_partitions := member_partitions topic_name member_metadata in
                   if 0 <? Py.len member_partitions
                   then [new_member group_metadata member_metadata member_partitions]
                   else [])
                (ConsumerGroupDescription.members group_metadata).

(** What the body of the loop over the topics leaves in the trace, for
    the handle [h] of a group and one topic: the fetch of the committed
    offsets, then a lookup for every partition with an offset. *)
Definition fetch_events (h : Handle) (topic : Topic.t) : list Event :=
  Committed h (request_for topic) (committed_reply h (request_for topic))
  :: match committed_reply h (request_for topic) with
     | Returns reply => flat_map (lookup_events h) (filter has_offset reply)
     | Throws _ => []
     end.

(** [topic'] is [topic] after that body has run for [group_metadata]:
    with one more group when the fetch held an offset, as it was
    otherwise. *)
Definition group_attached (group_metadata : ConsumerGroupDescription.t)
           (h : Handle) (topic topic' : Topic.t) : Prop :=
  Topic.name topic' = Topic.name topic
  /\ Topic.partitions topic' = Topic.partitions topic
  /\ exists reply,
      committed_reply h (request_for topic) = Returns reply
      /\ if existsb has_offset reply
         then exists group,
             Topic.groups topic' = Topic.groups topic ++ [group]
             /\ group_fetched group_metadata h (Topic.name topic) reply group
         else Topic.groups topic' = Topic.groups topic.

(** [group] stands in a topic's list because of a fetch that [evs]
    holds: the fetch went through the handle created for a group of
    [groups_metadata], it held an offset, and the lookups for its
    partitions are in [evs] too. *)
Definition group_in_trace (groups_metadata : list ConsumerGroupDescription.t)
           (evs : list Event) (topic : Topic.t) (group : Group.t) : Prop :=
  exists group_metadata h reply,
    In group_metadata groups_metadata
    /\ In h (created evs)
    /\ handle_group_id h = ConsumerGroupDescription.group_id group_metadata
    /\ In (Committed h (request_for topic) (Returns reply)) evs
    /\ existsb has_offset reply = true
    /\ group_fetched group_metadata h (Topic.name topic) reply group
    /\ (forall tp ev,
           In tp reply -> has_offset tp = true ->
           In ev (lookup_events h tp) -> In ev evs).

(** [topic] is [topic0] after the groups of [groups_metadata] have been
    mapped into it, with [evs] as the trace of that. *)
Definition topic_grown (groups_metadata : list ConsumerGroupDescription.t)
           (evs : list Event) (topic0 topic : Topic.t) : Prop :=
  Topic.name topic = Topic.name topic0
  /\ Topic.partitions topic = Topic.partitions topic0
  /\ exists groups,
      Topic.groups topic = Topic.groups topic0 ++ groups
      /\ (forall group,
             In group groups -> group_in_trace groups_metadata evs topic0 group)
      /\ (forall h reply,
             In (Committed h (request_for topic0) (Returns reply)) evs ->
             existsb has_offset reply = true ->
             exists group, In group groups /\ Group.id group = handle_group_id h).

(** The group [group_metadata] has been mapped into the topic through
    the handle [h], with [tr] as the trace: the committed offsets of the
    partitions of [topic0] were fetched through [h] and the fetch
    returned; the watermarks of every partition with an offset were looked
    up through [h]; and when the fetch held an offset, the group fetched
    stands in the list of [topic]. *)
Definition group_mapped (tr : list Event)
           (group_metadata : ConsumerGroupDescription.t) (h : Handle)
           (topic0 topic : Topic.t) : Prop :=
  exists reply,
    committed_reply h (request_for topic0) = Returns reply
    /\ In (Committed h (request_for topic0) (Returns reply)) tr
    /\ (forall tp ev,
           In tp reply -> has_offset tp = true ->
           In ev (lookup_events h tp) -> In ev tr)
    /\ (existsb has_offset reply = true ->
        exists group,
          In group (Topic.groups topic)
          /\ group_fetched group_metadata h (Topic.name topic0) reply group).

(** The intersection of a member's full assignment with the partition
    ids present in [topic.partitions]. *)
Definition assignment_within (topic : Topic.t)
           (member_metadata : MemberDescription.t) : list Z :=
  filter (fun p => existsb (Z.eqb p) (map Partition.id (Topic.partitions topic)))
         (member_partitions (Topic.name topic) member_metadata).

End Broker.

(** *** The admin operations on topics

    Each passes one request to the admin client, which hands back a
    dict of futures, and asks every future for its result. *)

(** The futures that the admin client hands back, each with the outcome
    that [future.result()] has. *)
Record AdminCalls := {
  create_topics : list NewTopic.t -> Dict.t (Reply unit);
  describe_configs :
    list ConfigResource.t -> list (ConfigResource.t * Reply (Dict.t ConfigEntry.t));
  incremental_alter_configs :
    list ConfigResource.t -> list (ConfigResource.t * Reply unit);
  create_partitions : list NewPartitions.t -> Dict.t (Reply unit);
  delete_topics : list string -> Dict.t (Reply unit)
}.

(** [for future in futures: future.result()] *)
Fixpoint results {A : Type} (futures : list (Reply A)) : Reply unit :=
  match futures with
  | [] => Returns tt
  | Returns _ :: rest => results rest
  | Throws ex :: _ => Throws ex
  end.

(** [TopicService.create] *)
Definition create (admin_client : AdminCalls) (new_topics : list NewTopic.t)
  : Reply unit :=
  let futures := create_topics admin_client new_topics in
  results (Dict.values futures).

(** [{config.name: config.value for config in configs.values()}] *)
Definition config_dict (configs : Dict.t ConfigEntry.t) : Dict.t (option string) :=
  fold_left (fun d config => Dict.set d (ConfigEntry.name config)
                                      (ConfigEntry.value config))
            (Dict.values configs) [].

(** [TopicService.get_configs] *)
Definition get_configs (admin_client : AdminCalls) (name : string)
  : Reply (Dict.t (option string)) :=
  let resource := {| ConfigResource.restype := TOPIC;
                     ConfigResource.name := name;
                     ConfigResource.incremental_configs := [] |} in
  let futures := describe_configs admin_client [resource] in
  match map snd futures with
  | [] => Returns []
  | Returns configs :: _ => Returns (config_dict configs)
  | Throws ex :: _ => Throws ex
  end.

(** Lines 230-240: the resource that [edit] sends. *)
Definition edit_resource (name : string) (config : Dict.t string) : ConfigResource.t :=
  let entries :=
    map (fun key_value =>
           {| ConfigEntry.name := fst key_value;
              ConfigEntry.value := Some (snd key_value);
              ConfigEntry.source := DYNAMIC_TOPIC_CONFIG;
              ConfigEntry.incremental_operation := Some SET |})
        config in
  {| ConfigResource.restype := TOPIC;
     ConfigResource.name := name;
     ConfigResource.incremental_configs := entries |}.

(** [TopicService.edit] *)
Definition edit (admin_client : AdminCalls) (name : string)
           (config : Dict.t string) : Reply unit :=
  let resource := edit_resource name config in
  let futures := incremental_alter_configs admin_client [resource] in
  results (map snd futures).

(** [TopicService.add_partitions] *)
Definition add_partitions (admin_client : AdminCalls) (name : string)
           (partitions : Z) : Reply unit :=
  let futures :=
    create_partitions admin_client
      [ {| NewPartitions.topic := name;
           NewPartitions.new_total_count := partitions |} ] in
  results (Dict.values futures).

(** [TopicService.delete] *)
Definition delete (admin_client : AdminCalls) (name : string) : Reply unit :=
  let futures := delete_topics admin_client [name] in
  results (Dict.values futures).

(** *** Vocabulary for the statements about the admin operations *)

(** The future returned. *)
Definition returned {A : Type} (future : Reply A) : Prop :=
  exists a, future = Returns a.

(** The last entry of [configs] with the name [name]. *)
Definition last_named (name : string) (configs : list ConfigEntry.t)
  : option ConfigEntry.t :=
  find (fun config => String.eqb (ConfigEntry.name config) name) (rev configs).

(** [ex] is what the first of [futures] that failed raised. *)
Definition first_failure {A : Type} (futures : list (Reply A)) (ex : Exception) : Prop :=
  exists before after,
    futures = before ++ Throws ex :: after /\ Forall returned before.

(** The resource that [get_configs] asks for. *)
Definition topic_resource (name : string) : ConfigResource.t :=
  {| ConfigResource.restype := TOPIC;
     ConfigResource.name := name;
     ConfigResource.incremental_configs := [] |}.

(** [topic] is [topic0] with some groups appended: at most one for each
    of the groups [done], with the id of one of them, and no id twice
    unless [done] has it twice. *)
Definition groups_appended (done : list ConsumerGroupDescription.t)
           (topic0 topic : Topic.t) : Prop :=
  Topic.name topic = Topic.name topic0
  /\ Topic.partitions topic = Topic.partitions topic0
  /\ exists groups,
      Topic.groups topic = Topic.groups topic0 ++ groups
      /\ (List.length groups <= List.length done)%nat
      /\ (forall group,
             In group groups ->
             In (Group.id group) (map ConsumerGroupDescription.group_id done))
      /\ (NoDup (map ConsumerGroupDescription.group_id done) ->
          NoDup (map Group.id groups)).

End TopicService.

(** ** Concrete brokers and services, for the scenarios *)

Module Scenario.
Import Kafka.

(** The first millisecond of the year 10000 and of the year 1, in
    UTC. *)
Definition year_10000 : Z := 253402300800000.
Definition year_1 : Z := -62135596800000.

(** A [kaskade.models] in which a key, a value and a header value
    display as the bytes they hold ([None] as the empty string), and a
    clock in UTC: every timestamp of the years 1 to 9999 is formatted, as
    one fixed string, and [datetime.fromtimestamp] raises [ValueError]
    for any other. *)
Definition plain_models : ConsumerService.Models unit unit :=
  {| ConsumerService.STRING := tt;
     ConsumerService.make_deserializer := fun _ => tt;
     ConsumerService.format_timestamp :=
       fun timestamp =>
         if (year_1 <=? timestamp) && (timestamp <? year_10000)
         then Returns "1970-01-01 00:00:00"
         else Throws (OtherException "ValueError");
     ConsumerService.key_str :=
       fun r => match ConsumerService.record_key r with Some k => k | None => "" end;
     ConsumerService.value_str :=
       fun r => match ConsumerService.record_value r with Some v => v | None => "" end;
     ConsumerService.header_value_str := fun h => ConsumerService.header_value h |}.

(** A delivered record of [partition] at [offset], without headers. *)
Definition message (partition offset : Z) (key value : string) : Message.t :=
  {| Message.error := None;
     Message.partition := partition;
     Message.offset := offset;
     Message.key := Some key;
     Message.value := Some value;
     Message.headers := None;
     Message.timestamp := (0, 0) |}.

(** A delivered record of partition 0 with the create time [timestamp],
    in milliseconds. *)
Definition stamped (offset timestamp : Z) : Message.t :=
  {| Message.error := None;
     Message.partition := 0;
     Message.offset := offset;
     Message.key := Some "k";
     Message.value := Some "v";
     Message.headers := None;
     Message.timestamp := (1, timestamp) |}.

(** A message that carries a broker-reported error. *)
Definition broken (code : Z) : Message.t :=
  {| Message.error := Some {| KafkaError.code := code; KafkaError.str := "broker" |};
     Message.partition := 0;
     Message.offset := 0;
     Message.key := None;
     Message.value := None;
     Message.headers := None;
     Message.timestamp := (0, 0) |}.

(** The consumer that delivers [polled] poll by poll and is silent
    afterwards. *)
Definition deliver (polled : list (option Message.t)) : nat -> option Message.t :=
  fun n => nth n polled None.

Definition service (page_size max_retries : Z) (polled : list (option Message.t))
  : ConsumerService.Self unit :=
  {| ConsumerService.self_topic := "orders";
     ConsumerService.page_size := page_size;
     ConsumerService.max_retries := max_retries;
     ConsumerService.key_format := tt;
     ConsumerService.value_format := tt;
     ConsumerService.consumer := deliver polled |}.

Definition only_partition (p : Z) : ConsumerService.Filters :=
  {| ConsumerService.partition_filter := Some p;
     ConsumerService.key_filter := None;
     ConsumerService.value_filter := None;
     ConsumerService.header_filter := None |}.

(** Five live records on partitions 0/1/0/1/0, then silence. *)
Definition alternating : list (option Message.t) :=
  [ Some (message 0 0 "k0" "v0"); Some (message 1 0 "k1" "v1");
    Some (message 0 1 "k2" "v2"); Some (message 1 1 "k3" "v3");
    Some (message 0 2 "k4" "v4") ].

(** A record, then a record stamped with a time in the year 11476, then
    another record; no message carries an error. *)
Definition far_future : list (option Message.t) :=
  [ Some (message 0 0 "k0" "v0"); Some (stamped 1 300000000000000);
    Some (message 0 2 "k2" "v2") ].

(** Two records, then a message with a broker-reported error. *)
Definition error_mid_page : list (option Message.t) :=
  [ Some (message 0 0 "k0" "v0"); Some (message 0 1 "k1" "v1");
    Some (broken 3); Some (message 0 2 "k2" "v2") ].

Definition consume (self : ConsumerService.Self unit)
           (filters : ConsumerService.Filters) (fuel : nat) :=
  ConsumerService.consume plain_models self filters fuel.

(** The error that [broken 3] carries. *)
Definition broker_error : KafkaError.t :=
  {| KafkaError.code := 3; KafkaError.str := "broker" |}.

(** The locals after the two records of [error_mid_page]. *)
Definition two_accumulated : ConsumerService.Locals unit unit :=
  {| ConsumerService.records :=
       [ ConsumerService.make_record plain_models (service 5 3 error_mid_page)
                                     (message 0 0 "k0" "v0") "";
         ConsumerService.make_record plain_models (service 5 3 error_mid_page)
                                     (message 0 1 "k1" "v1") "" ];
     ConsumerService.retries := 0;
     ConsumerService.polls := 2 |}.

(** The locals after the first record of [far_future]. *)
Definition one_accumulated : ConsumerService.Locals unit unit :=
  {| ConsumerService.records :=
       [ ConsumerService.make_record plain_models (service 5 3 far_future)
                                     (message 0 0 "k0" "v0") "" ];
     ConsumerService.retries := 0;
     ConsumerService.polls := 1 |}.

(** Partition 0 only, and an empty header filter. *)
Definition empty_header_filter : ConsumerService.Filters :=
  {| ConsumerService.partition_filter := Some 0;
     ConsumerService.key_filter := None;
     ConsumerService.value_filter := None;
     ConsumerService.header_filter := Some "" |}.

(** The page that a call returns, [[]] when it does not return one. *)
Definition page_returned
           (run : option (ConsumerService.Outcome unit unit * nat))
  : list (ConsumerService.Record_ unit unit) :=
  match run with
  | Some (ConsumerService.Returned page, _) => page
  | _ => []
  end.

(** The two records of partition 1 among [alternating]. *)
Definition alternating_page : list (ConsumerService.Record_ unit unit) :=
  page_returned (consume (service 5 3 alternating) (only_partition 1) 9).

(** The first two records of [alternating]. *)
Definition first_two : list (ConsumerService.Record_ unit unit) :=
  page_returned (consume (service 2 3 alternating) ConsumerService.no_filters 3).

(** The third record of [alternating]. *)
Definition third : list (ConsumerService.Record_ unit unit) :=
  page_returned
    (consume (ConsumerService.with_page_size
                (ConsumerService.advance (service 2 3 alternating) 2) 1)
             ConsumerService.no_filters 2).

End Scenario.

Module SnapshotScenario.
Import Kafka Models TopicService.

Definition partition_metadata (id : Z) : PartitionMetadata.t :=
  {| PartitionMetadata.id := id; PartitionMetadata.leader := 1;
     PartitionMetadata.replicas := [1; 2]; PartitionMetadata.isrs := [1; 2] |}.

(** The topic [orders] with the partitions 0 and 1. *)
Definition orders : TopicMetadata.t :=
  {| TopicMetadata.topic := "orders";
     TopicMetadata.partitions := [partition_metadata 0; partition_metadata 1] |}.

(** The topic [payments] with the partition 0. *)
Definition payments : TopicMetadata.t :=
  {| TopicMetadata.topic := "payments";
     TopicMetadata.partitions := [partition_metadata 0] |}.

Definition member (member_id : string) (assignment : list TopicPartition.t)
  : MemberDescription.t :=
  {| MemberDescription.member_id := member_id;
     MemberDescription.client_id := "client";
     MemberDescription.host := "10.0.0.7";
     MemberDescription.group_instance_id := None;
     MemberDescription.assignment := assignment |}.

(** [m1] is assigned partition 0 of [orders]; [m2] is assigned partition
    7 of [orders], which the metadata of the topic does not list (it was
    added after the topics were listed), and partition 0 of another
    topic. *)
Definition m1 : MemberDescription.t := member "m1" [TopicPartition.new "orders" 0].

Definition m2 : MemberDescription.t :=
  member "m2" [TopicPartition.new "orders" 7; TopicPartition.new "audit" 0].

(** The group [g1], stable, with the members [m1] and [m2]. *)
Definition g1 : ConsumerGroupDescription.t :=
  {| ConsumerGroupDescription.group_id := "g1";
     ConsumerGroupDescription.partition_assignor := "range";
     ConsumerGroupDescription.state := "STABLE";
     ConsumerGroupDescription.coordinator :=
       {| NodeMetadata.id := 1; NodeMetadata.host := "broker-1";
          NodeMetadata.port := 9092; NodeMetadata.rack := None |};
     ConsumerGroupDescription.members := [m1; m2] |}.

Definition cluster (topics : list TopicMetadata.t) : Admin :=
  {| list_topics := topics;
     list_consumer_groups := ["g1"];
     describe_consumer_groups := fun _ => [("g1", g1)] |}.

Definition uuid4 (n : nat) : string :=
  String (ascii_of_nat (Nat.add 97 n)) "".

(** Every group has committed offset 7 on partition 0 and nothing on
    the other partitions. *)
Definition committed_reply (h : Handle) (request : list TopicPartition.t)
  : Reply (list TopicPartition.t) :=
  Returns
    (map (fun tp =>
            {| TopicPartition.topic := TopicPartition.topic tp;
               TopicPartition.partition := TopicPartition.partition tp;
               TopicPartition.offset :=
                 if TopicPartition.partition tp =? 0 then 7 else OFFSET_INVALID |})
         request).

(** Watermarks [(0, 10)] on partition 0 and [(0, 5)] elsewhere. *)
Definition watermark_reply (h : Handle) (tp : TopicPartition.t) : Reply (Z * Z) :=
  if TopicPartition.partition tp =? 0 then Returns (0, 10) else Returns (0, 5).

Definition timed_out : KafkaError.t :=
  {| KafkaError.code := -185; KafkaError.str := "timed out" |}.

(** A broker that fails every watermark lookup. *)
Definition failing_watermark_reply (h : Handle) (tp : TopicPartition.t)
  : Reply (Z * Z) :=
  Throws (KafkaException timed_out).

(** The snapshot of the cluster with the topic [orders]. *)
Definition snapshot : Reply (Dict.t Topic.t) * World :=
  all uuid4 committed_reply watermark_reply (cluster [orders]) genesis.

Definition topics_of (run : Reply (Dict.t Topic.t) * World) : Dict.t Topic.t :=
  match fst run with
  | Returns topics => topics
  | Throws _ => []
  end.

(** The snapshot of the cluster with the topics [orders] and
    [payments]. *)
Definition snapshot2 : Reply (Dict.t Topic.t) * World :=
  all uuid4 committed_reply watermark_reply (cluster [payments; orders]) genesis.

(** The snapshot of the cluster with the topic [orders] when every
    watermark lookup fails. *)
Definition degraded : Reply (Dict.t Topic.t) * World :=
  all uuid4 committed_reply failing_watermark_reply (cluster [orders]) genesis.

(** The topic [orders] of [snapshot]. *)
Definition orders_topic : Topic.t :=
  snd (hd ("", Topic.new "") (topics_of snapshot)).

(** The handle that the group phase of [snapshot2] creates. *)
Definition g1_handle : Handle := {| handle_id := 3; handle_group_id := "g1" |}.

(** A cluster that lists no consumer group, though a description of
    [g1] could be had. *)
Definition quiet : Admin :=
  {| list_topics := [orders];
     list_consumer_groups := [];
     describe_consumer_groups := fun _ => [("g1", g1)] |}.

(** The snapshot of the quiet cluster. *)
Definition quiet_snapshot : Reply (Dict.t Topic.t) * World :=
  all uuid4 committed_reply watermark_reply quiet genesis.

(** The topics of the cluster with [orders] and [payments], before the
    groups are mapped into them. *)
Definition mapped : Reply (Dict.t Topic.t) * World :=
  _map_topics uuid4 watermark_reply [orders; payments] genesis.

(** The groups [g1], twice, mapped into those topics. *)
Definition mapped_twice : Reply (Dict.t Topic.t) * World :=
  _map_groups_into_topics committed_reply watermark_reply [g1; g1]
                          (topics_of mapped) (snd mapped).

End SnapshotScenario.

Module AdminScenario.
Import Kafka TopicService.

Definition entry (name value : string) : ConfigEntry.t :=
  {| ConfigEntry.name := name;
     ConfigEntry.value := Some value;
     ConfigEntry.source := DYNAMIC_TOPIC_CONFIG;
     ConfigEntry.incremental_operation := None |}.

(** The configuration that the broker describes for every topic. *)
Definition described : Dict.t ConfigEntry.t :=
  [("retention.ms", entry "retention.ms" "604800000");
   ("cleanup.policy", entry "cleanup.policy" "delete")].

Definition unknown_topic : Exception :=
  KafkaException {| KafkaError.code := 3; KafkaError.str := "unknown topic" |}.

(** An admin client that describes every resource with [described],
    creates and alters what it is asked to, and knows no topic to
    delete or to add partitions to. *)
Definition admin_client : AdminCalls :=
  {| create_topics :=
       fun new_topics => map (fun t => (NewTopic.topic t, Returns tt)) new_topics;
     describe_configs :=
       fun resources => map (fun r => (r, Returns described)) resources;
     incremental_alter_configs :=
       fun resources => map (fun r => (r, Returns tt)) resources;
     create_partitions :=
       fun new_partitions =>
         map (fun p => (NewPartitions.topic p, Throws unknown_topic)) new_partitions;
     delete_topics :=
       fun names => map (fun name => (name, Throws unknown_topic)) names |}.

End AdminScenario.

(** * Properties of [ConsumerService.consume] *)

Module ConsumeFacts.
Import Kafka ConsumerService.

Section Facts.

Variables Format Deserializer : Type.
Variable models : Models Format Deserializer.

#[local] Abbreviation Record_ := (Record_ Format Deserializer).
#[local] Abbreviation Locals := (Locals Format Deserializer).

Lemma loop_body_pass self filters l :
  Pass models self filters l (loop_body models self filters l).
Proof.
  unfold loop_body.
  destruct (max_retries self <=? retries l) eqn:Hr.
  - apply PassExhausted. lia.
  - assert (retries l < max_retries self) by lia.
    destruct (consumer self (polls l)) as [m|] eqn:Hp.
    + destruct (Message.error m) as [e|] eqn:He.
      * eapply PassError; eauto.
      * destruct (date_of models m) as [date|ex] eqn:Hdate.
        -- replace (if partition_skips filters (make_record models self m date)
                    then _ else _)
             with (Continue (after_record models self filters l m date)).
           { eapply PassRecord; eauto. }
           unfold after_record, skipped.
           destruct (partition_skips filters _); simpl; auto.
           destruct (key_skips models filters _); simpl; auto.
           destruct (value_skips models filters _); simpl; auto.
           destruct (header_skips models filters _); simpl; auto.
        -- eapply PassDate; eauto.
    + apply PassSilence; auto.
Qed.

(** Where a call that ends has stopped: in a loop state [l'] reached
    from [l] through [Continue] passes only, which keep an invariant
    [P]. *)
Lemma while_loop_stops (P : Locals -> Prop) self filters :
  (forall l next,
      P l -> Py.len (records l) < page_size self ->
      loop_body models self filters l = Continue next -> P next) ->
  forall fuel l out n,
    P l ->
    while_loop models self filters fuel l = Some (out, n) ->
    exists l',
      P l' /\ (polls l <= polls l')%nat /\
      ((page_size self <= Py.len (records l') /\
        out = Returned (records l') /\ n = polls l')
       \/ (Py.len (records l') < page_size self /\
           loop_body models self filters l' = Break l' /\
           out = Returned (records l') /\ n = polls l')
       \/ (Py.len (records l') < page_size self /\
           exists e last,
             loop_body models self filters l' = Raise e last /\
             out = Raised _ _ e /\ n = polls last)).
Proof.
  intros Hstep. induction fuel as [|fuel IH]; intros l out n HP Hrun.
  - discriminate.
  - simpl in Hrun.
    destruct (Py.len (records l) <? page_size self) eqn:Hlen.
    + apply Z.ltb_lt in Hlen.
      pose proof (loop_body_pass self filters l) as Hpass.
      destruct (loop_body models self filters l) as [next|last|e last] eqn:Hbody.
      * destruct (IH next out n (Hstep l next HP Hlen Hbody) Hrun)
          as (l' & HP' & Hle & Hend).
        exists l'. split; [exact HP'|]. split; [|exact Hend].
        inversion Hpass; subst; simpl in *; lia.
      * inversion Hpass; subst. inversion Hrun; subst.
        exists last. repeat split; auto. right. left. auto.
      * inversion Hrun; subst.
        exists l. repeat split; auto. right. right.
        split; [exact Hlen|]. exists e, last. auto.
    + apply Z.ltb_ge in Hlen. inversion Hrun; subst.
      exists l. repeat split; auto.
Qed.

(** More fuel does not change the result of a call that is done. *)
Lemma while_loop_more_fuel self filters fuel extra l r :
  while_loop models self filters fuel l = Some r ->
  while_loop models self filters (fuel + extra) l = Some r.
Proof.
  revert l. induction fuel as [|fuel IH]; intros l Hrun; [discriminate|].
  simpl in *.
  destruct (Py.len (records l) <? page_size self); [|exact Hrun].
  destruct (loop_body models self filters l); auto.
Qed.

(** Once the broker is silent, the loop is done after at most
    [max_retries - retries] further passes, and it returns. *)
Lemma while_loop_silence self filters (budget : nat) :
  forall l,
    (forall i, (polls l <= i)%nat -> consumer self i = None) ->
    max_retries self - retries l <= Z.of_nat budget ->
    exists page n,
      while_loop models self filters (S budget) l = Some (Returned page, n).
Proof.
  induction budget as [|budget IH]; intros l Hsilent Hleft.
  - simpl. destruct (Py.len (records l) <? page_size self); [|eauto].
    pose proof (loop_body_pass self filters l) as Hpass.
    inversion Hpass; try lia. eauto.
  - cbn [while_loop].
    destruct (Py.len (records l) <? page_size self); [|eauto].
    pose proof (loop_body_pass self filters l) as Hpass.
    inversion Hpass as [Hex Heq|Hlt Hnone Heq|m e Hlt Hsome He Heq
                        |m ex Hlt Hsome He Hdate Heq|m date Hlt Hsome He Hdate Heq].
    + eauto.
    + apply IH.
      * intros i Hi. apply Hsilent. simpl in Hi. lia.
      * simpl. lia.
    + rewrite Hsilent in Hsome by lia. discriminate.
    + rewrite Hsilent in Hsome by lia. discriminate.
    + rewrite Hsilent in Hsome by lia. discriminate.
Qed.

(** A call against a broker that goes silent from the [quiet]-th poll on
    ends: it returns or it raises. *)
Lemma while_loop_ends self filters (quiet : nat) :
  (forall i, (quiet <= i)%nat -> consumer self i = None) ->
  forall (ahead : nat) l,
    0 <= retries l ->
    (quiet <= polls l + ahead)%nat ->
    exists r,
      while_loop models self filters
                 (ahead + S (Z.to_nat (max_retries self))) l = Some r.
Proof.
  intros Hquiet. induction ahead as [|ahead IH]; intros l Hpos Hreach.
  - simpl Nat.add.
    destruct (while_loop_silence self filters (Z.to_nat (max_retries self)) l)
      as (page & n & Hrun).
    + intros i Hi. apply Hquiet. lia.
    + lia.
    + eauto.
  - cbn [Nat.add while_loop].
    destruct (Py.len (records l) <? page_size self); [|eauto].
    pose proof (loop_body_pass self filters l) as Hpass.
    inversion Hpass; eauto.
    + apply IH; simpl; lia.
    + apply IH; simpl; lia.
Qed.

Lemma consume_ends self filters (quiet : nat) :
  (forall i, (quiet <= i)%nat -> consumer self i = None) ->
  exists r,
    consume models self filters (quiet + S (Z.to_nat (max_retries self))) = Some r.
Proof.
  intros Hquiet. unfold consume.
  apply while_loop_ends with (quiet := quiet); simpl; auto; lia.
Qed.


(** What a pass that goes on leaves in the locals. *)
Lemma loop_body_continue self filters l next :
  loop_body models self filters l = Continue next ->
  (consumer self (polls l) = None /\ next = after_silence l)
  \/ (exists m date,
         consumer self (polls l) = Some m /\ Message.error m = None /\
         date_of models m = Returns date /\
         next = after_record models self filters l m date).
Proof.
  intros Hbody. pose proof (loop_body_pass self filters l) as Hpass.
  rewrite Hbody in Hpass.
  inversion Hpass as [|Hlt Hnone|m e Hlt Hsome He|m ex Hlt Hsome He Hdate
                      |m date Hlt Hsome He Hdate]; subst; eauto 7.
Qed.

(** The guards read an empty-string filter as an absent one. *)
Lemma loop_body_drop_empty self filters l :
  loop_body models self (drop_empty filters) l = loop_body models self filters l.
Proof.
  unfold loop_body, partition_skips, key_skips, value_skips, header_skips, drop_empty.
  simpl.
  destruct (key_filter filters) as [[|c k]|];
    destruct (value_filter filters) as [[|c' v]|];
    destruct (header_filter filters) as [[|c'' h]|]; reflexivity.
Qed.


(** In the model, a call that raises has just polled the message over
    which it raises: one that carries the error raised, or one whose
    date cannot be formatted. *)
Lemma raised_by_polled_message self filters fuel ex n :
  consume models self filters fuel = Some (Raised _ _ ex, n) ->
  exists i m,
    n = S i /\ consumer self i = Some m
    /\ ((exists e, Message.error m = Some e /\ ex = KafkaException e)
        \/ (Message.error m = None /\ date_of models m = Throws ex)).
Proof.
  intros Hrun.
  destruct (while_loop_stops (fun _ => True) self filters
              (fun _ _ _ _ _ => I) fuel _ I Hrun)
    as (l' & _ & _ & [(_ & Hout & _)|[(_ & _ & Hout & _)|(_ & e' & last & Hbody & Hout & Hn)]]);
    try discriminate.
  inversion Hout; subst e'.
  pose proof (loop_body_pass self filters l') as Hpass. rewrite Hbody in Hpass.
  inversion Hpass as [| |m e'' Hlt Hsome He|m ex' Hlt Hsome He Hdate|]; subst.
  - exists (polls l'), m. eauto 7.
  - exists (polls l'), m. auto.
Qed.

(** A call that returns a page has polled no message with an error, and
    none whose date cannot be formatted. *)
Lemma returned_after_clean_polls self filters fuel page n :
  consume models self filters fuel = Some (Returned page, n) ->
  forall i m,
    (i < n)%nat -> consumer self i = Some m ->
    Message.error m = None /\ exists date, date_of models m = Returns date.
Proof.
  intros Hrun.
  set (P := fun l : Locals =>
              forall i m, (i < polls l)%nat -> consumer self i = Some m ->
                          Message.error m = None
                          /\ exists date, date_of models m = Returns date).
  assert (Hstep : forall l next,
             P l -> Py.len (records l) < page_size self ->
             loop_body models self filters l = Continue next -> P next).
  { intros l next HP _ Hbody i m Hi Hsome.
    destruct (loop_body_continue self filters l Hbody)
      as [(Hnone & ->)|(m' & date & Hsome' & He & Hdate & ->)]; simpl in Hi.
    - destruct (Nat.eq_dec i (polls l)) as [->|Hne];
        [congruence | apply (HP i m); [lia|exact Hsome]].
    - destruct (Nat.eq_dec i (polls l)) as [->|Hne];
        [|apply (HP i m); [lia|exact Hsome]].
      assert (m' = m) by congruence. subst m'. eauto. }
  assert (HP0 : P (start Format Deserializer)).
  { intros i m Hi. simpl in Hi. lia. }
  destruct (while_loop_stops P self filters Hstep fuel _ HP0 Hrun)
    as (l' & HP' & _ & [(_ & _ & Hn)|[(_ & _ & _ & Hn)|(_ & e' & last & _ & Hout & _)]]);
    try discriminate; subst n; exact HP'.
Qed.

(** ** The claims about [consume] *)

(** C2, as amended.  A polled message that carries a broker-reported
    error makes the call raise [KafkaException] with that error, whatever
    has been accumulated: the outcome [Raised] holds no record.  It is not
    the only way a call fails: a polled message without error whose
    timestamp cannot be formatted (line 125) makes the call raise what
    the formatting raised, whatever has been accumulated.  A call that
    returns a page has polled neither. *)
Theorem consume_raises_on_broker_error self filters :
  (forall l m e fuel,
      Py.len (records l) < page_size self ->
      retries l < max_retries self ->
      consumer self (polls l) = Some m ->
      Message.error m = Some e ->
      while_loop models self filters (S fuel) l
      = Some (Raised _ _ (KafkaException e), S (polls l)))
  /\ (forall l m ex fuel,
         Py.len (records l) < page_size self ->
         retries l < max_retries self ->
         consumer self (polls l) = Some m ->
         Message.error m = None ->
         date_of models m = Throws ex ->
         while_loop models self filters (S fuel) l
         = Some (Raised _ _ ex, S (polls l)))
  /\ (forall fuel page n,
         consume models self filters fuel = Some (Returned page, n) ->
         forall i m,
           (i < n)%nat -> consumer self i = Some m ->
           Message.error m = None
           /\ exists date, date_of models m = Returns date).
Proof.
  split; [|split].
  - intros l m e fuel Hlen Hlt Hsome He. cbn [while_loop].
    apply Z.ltb_lt in Hlen. rewrite Hlen.
    unfold loop_body.
    replace (max_retries self <=? retries l) with false by lia.
    rewrite Hsome, He. reflexivity.
  - intros l m ex fuel Hlen Hlt Hsome He Hdate. cbn [while_loop].
    apply Z.ltb_lt in Hlen. rewrite Hlen.
    unfold loop_body.
    replace (max_retries self <=? retries l) with false by lia.
    rewrite Hsome, He, Hdate. reflexivity.
  - intros fuel page n. apply returned_after_clean_polls.
Qed.

(** C3.  In a pass that polls, a delivered record without error puts
    the counter of empty polls back to zero, whether or not the filters
    keep the record; a record that a filter rejects leaves the page as it
    was; a poll that returns nothing adds one to the counter, and after
    any pass that goes on the counter is either that, or zero after a
    delivered record.  No record of a returned page is one that a filter
    rejects. *)
Theorem consume_counts_only_empty_polls self filters :
  (forall l m date,
      retries l < max_retries self ->
      consumer self (polls l) = Some m ->
      Message.error m = None ->
      date_of models m = Returns date ->
      exists next,
        loop_body models self filters l = Continue next /\
        retries next = 0 /\
        records next =
          if skipped models filters (make_record models self m date)
          then records l
          else records l ++ [make_record models self m date])
  /\ (forall l,
         retries l < max_retries self ->
         consumer self (polls l) = None ->
         loop_body models self filters l =
           Continue {| records := records l; retries := retries l + 1;
                       polls := S (polls l) |})
  /\ (forall l next,
         loop_body models self filters l = Continue next ->
         (consumer self (polls l) = None /\ retries next = retries l + 1
          /\ records next = records l)
         \/ (exists m, consumer self (polls l) = Some m /\ retries next = 0))
  /\ (forall fuel page n,
         consume models self filters fuel = Some (Returned page, n) ->
         forall record, In record page -> skipped models filters record = false).
Proof.
  split; [|split; [|split]].
  - intros l m date Hlt Hsome He Hdate.
    pose proof (loop_body_pass self filters l) as Hpass.
    inversion Hpass as [Hex|Hlt' Hnone|m' e Hlt' Hsome' He'
                        |m' ex Hlt' Hsome' He' Hdate'
                        |m' date' Hlt' Hsome' He' Hdate' Heq];
      try lia; try congruence.
    assert (m' = m) by congruence. subst m'.
    assert (date' = date) by congruence. subst date'.
    eexists. split; [reflexivity|]. split; reflexivity.
  - intros l Hlt Hnone.
    pose proof (loop_body_pass self filters l) as Hpass.
    inversion Hpass; try lia; try congruence. reflexivity.
  - intros l next Hbody.
    destruct (loop_body_continue self filters l Hbody)
      as [(Hnone & ->)|(m & date & Hsome & He & Hdate & ->)];
      [left|right]; simpl; eauto.
  - intros fuel page n Hrun.
    set (P := fun l : Locals =>
                forall record, In record (records l) ->
                               skipped models filters record = false).
    assert (Hstep : forall l next,
               P l -> Py.len (records l) < page_size self ->
               loop_body models self filters l = Continue next -> P next).
    { intros l next HP _ Hbody record Hin.
      destruct (loop_body_continue self filters l Hbody)
        as [(Hnone & ->)|(m & date & Hsome & He & Hdate & ->)]; simpl in Hin.
      - apply HP; exact Hin.
      - destruct (skipped models filters (make_record models self m date)) eqn:Hsk.
        + apply HP; exact Hin.
        + apply in_app_iff in Hin. destruct Hin as [Hin|[<-|[]]]; auto. }
    assert (HP0 : P (start Format Deserializer)) by (intros r []).
    destruct (while_loop_stops P self filters Hstep fuel _ HP0 Hrun)
      as (l' & HP' & _ & [(_ & Hout & _)|[(_ & _ & Hout & _)|(_ & e' & last & _ & Hout & _)]]);
      try discriminate; inversion Hout; subst page; exact HP'.
Qed.

(** C6.  In a loop state whose counter of empty polls has reached
    [max_retries], the call polls no more and returns the records it has
    accumulated, be they none or fewer than [page_size]; and against a
    broker that delivers no error, and no timestamp that cannot be
    formatted, and goes silent, the call returns a page. *)
Theorem consume_returns_when_retries_exhausted self filters :
  (forall l fuel,
      max_retries self <= retries l ->
      while_loop models self filters (S fuel) l
      = Some (Returned (records l), polls l))
  /\ (forall quiet,
         (forall i, (quiet <= i)%nat -> consumer self i = None) ->
         (forall i m, consumer self i = Some m -> Message.error m = None) ->
         (forall i m, consumer self i = Some m ->
                      exists date, date_of models m = Returns date) ->
         exists page n,
           consume models self filters (quiet + S (Z.to_nat (max_retries self)))
           = Some (Returned page, n)).
Proof.
  split.
  - intros l fuel Hex. cbn [while_loop].
    destruct (Py.len (records l) <? page_size self); [|reflexivity].
    unfold loop_body.
    replace (max_retries self <=? retries l) with true by lia. reflexivity.
  - intros quiet Hquiet Hclean Hdates.
    destruct (consume_ends self filters Hquiet) as [[[page|ex] n] Hrun].
    + eauto.
    + destruct (raised_by_polled_message _ _ _ Hrun)
        as (i & m & _ & Hsome & [(e & He & _)|(_ & Hdate)]).
      * rewrite (Hclean i m Hsome) in He. discriminate.
      * destruct (Hdates i m Hsome) as (date & Hdate'). congruence.
Qed.


(** C7, as amended.  A returned page has at most [max(page_size, 0)]
    records: at most [page_size] when that is not negative, none when it
    is; for every stream of polls and every combination of filters. *)
Theorem consume_page_bounded self filters fuel page n :
  consume models self filters fuel = Some (Returned page, n) ->
  Py.len page <= Z.max 0 (page_size self).
Proof.
  intros Hrun.
  set (P := fun l : Locals => Py.len (records l) <= Z.max 0 (page_size self)).
  assert (Hstep : forall l next,
             P l -> Py.len (records l) < page_size self ->
             loop_body models self filters l = Continue next -> P next).
  { unfold P, Py.len. intros l next HP Hlen Hbody.
    destruct (loop_body_continue self filters l Hbody)
      as [(Hnone & ->)|(m & date & Hsome & He & Hdate & ->)]; simpl.
    - exact HP.
    - destruct (skipped models filters (make_record models self m date)).
      + exact HP.
      + rewrite length_app. simpl. lia. }
  assert (HP0 : P (start Format Deserializer)) by (unfold P, Py.len; simpl; lia).
  destruct (while_loop_stops P self filters Hstep fuel _ HP0 Hrun)
    as (l' & HP' & _ & [(_ & Hout & _)|[(_ & _ & Hout & _)|(_ & e' & last & _ & Hout & _)]]);
    try discriminate; inversion Hout; subst page; exact HP'.
Qed.

(** C9.  With [max_retries <= 0] or [page_size <= 0] the call returns the
    empty list and has polled nothing. *)
Theorem consume_without_poll self filters fuel :
  max_retries self <= 0 \/ page_size self <= 0 ->
  consume models self filters (S fuel) = Some (Returned [], 0%nat).
Proof.
  intros Hbound. unfold consume. cbn [while_loop].
  change (Py.len (records (start Format Deserializer))) with 0.
  destruct (0 <? page_size self) eqn:Hpage; [|reflexivity].
  unfold loop_body. simpl retries.
  replace (max_retries self <=? 0) with true by lia. reflexivity.
Qed.

(** C10.  An empty-string key, value or header filter takes no
    [continue], whatever the record holds, and the call runs as it does
    with the filter absent; a partition filter that is not [None] rejects
    every record of another partition, partition 0 being a filter like
    any other. *)
Theorem consume_empty_filter_is_absent self filters :
  (forall record,
      key_filter filters = Some "" -> key_skips models filters record = false)
  /\ (forall record,
         value_filter filters = Some "" -> value_skips models filters record = false)
  /\ (forall record,
         header_filter filters = Some "" ->
         header_skips models filters record = false)
  /\ (forall fuel,
         consume models self filters fuel
         = consume models self (drop_empty filters) fuel)
  /\ (forall p (record : Record_),
         partition_filter filters = Some p ->
         partition_skips filters record = negb (record_partition record =? p))
  /\ (forall record : Record_,
         partition_filter filters = None -> partition_skips filters record = false).
Proof.
  repeat split.
  - intros record Hf. unfold key_skips. rewrite Hf. reflexivity.
  - intros record Hf. unfold value_skips. rewrite Hf. reflexivity.
  - intros record Hf. unfold header_skips. rewrite Hf. reflexivity.
  - intros fuel. unfold consume. generalize (start Format Deserializer).
    induction fuel as [|fuel IH]; intros l; [reflexivity|].
    cbn [while_loop]. rewrite loop_body_drop_empty.
    destruct (Py.len (records l) <? page_size self); [|reflexivity].
    destruct (loop_body models self filters l); auto.
  - intros p record Hf. unfold partition_skips. rewrite Hf. reflexivity.
  - intros record Hf. unfold partition_skips. rewrite Hf. reflexivity.
Qed.

End Facts.

(** ** The claims at concrete calls *)

Section Scenarios.
Import Scenario.

(** With two records accumulated, the poll that delivers the error makes
    the call raise. *)
Lemma consume_raises_on_broker_error_witness :
  while_loop plain_models (service 5 3 error_mid_page) no_filters 1 two_accumulated
  = Some (Raised _ _ (KafkaException broker_error), 3%nat)
  /\ while_loop plain_models (service 5 3 far_future) no_filters 1 one_accumulated
     = Some (Raised _ _ (OtherException "ValueError"), 2%nat).
Proof.
  split.
  - apply (proj1 (consume_raises_on_broker_error
                    plain_models (service 5 3 error_mid_page) no_filters)
                 two_accumulated (broken 3) broker_error 0%nat).
    + vm_compute. reflexivity.
    + simpl. lia.
    + reflexivity.
    + reflexivity.
  - apply (proj1 (proj2 (consume_raises_on_broker_error
                           plain_models (service 5 3 far_future) no_filters))
                 one_accumulated (stamped 1 300000000000000)
                 (OtherException "ValueError") 0%nat).
    + vm_compute. reflexivity.
    + simpl. lia.
    + reflexivity.
    + reflexivity.
    + reflexivity.
Defined.

(** The whole call of that scenario: three polls, then the exception. *)
Example consume_error_mid_page :
  Scenario.consume (service 5 3 error_mid_page) no_filters 3
  = Some (Raised _ _ (KafkaException broker_error), 3%nat).
Proof. reflexivity. Qed.

(** C2 as stated fails: a broker error is not the only failure outcome.
    Of the three messages of [far_future] none carries an error, and the
    call raises [ValueError] at its second poll, over the record stamped
    with a time in the year 11476; the record of the first poll is not
    returned. *)
Lemma consume_fails_without_broker_error :
  Forall (fun polled =>
            match polled with
            | Some record_metadata => Message.error record_metadata = None
            | None => True
            end) far_future
  /\ Message.timestamp (stamped 1 300000000000000) = (1, 300000000000000)
  /\ Scenario.consume (service 5 3 far_future) no_filters 3
     = Some (Raised _ _ (OtherException "ValueError"), 2%nat).
Proof.
  split; [repeat constructor|]. split; reflexivity.
Qed.

(** A record of partition 0 under [partition_filter=1] is left out and
    the counter is back at zero. *)
Lemma consume_counts_only_empty_polls_witness :
  exists next,
    loop_body plain_models (service 5 3 alternating) (only_partition 1)
              {| records := []; retries := 2; polls := 0 |}
    = Continue next
    /\ retries next = 0
    /\ records next = [].
Proof.
  destruct (proj1 (consume_counts_only_empty_polls
                     plain_models (service 5 3 alternating) (only_partition 1))
                  {| records := []; retries := 2; polls := 0 |}
                  (message 0 0 "k0" "v0") "")
    as (next & Hbody & Hretries & Hrecords).
  - simpl. lia.
  - reflexivity.
  - reflexivity.
  - reflexivity.
  - exists next. split; [exact Hbody|]. split; [exact Hretries|exact Hrecords].
Defined.

(** The scenario of the alternating partitions: two records of partition
    1 after eight polls, the last three of them empty. *)
Example consume_alternating :
  exists r1 r3,
    Scenario.consume (service 5 3 alternating) (only_partition 1) 9
    = Some (Returned [r1; r3], 8%nat)
    /\ record_offset r1 = 0 /\ record_offset r3 = 1
    /\ record_partition r1 = 1 /\ record_partition r3 = 1.
Proof. do 2 eexists. split; [reflexivity|]. repeat split. Qed.

Lemma consume_returns_when_retries_exhausted_witness :
  while_loop plain_models (service 5 3 alternating) (only_partition 1) 1
             {| records := []; retries := 3; polls := 8 |}
  = Some (Returned [], 8%nat).
Proof.
  apply (proj1 (consume_returns_when_retries_exhausted
                  plain_models (service 5 3 alternating) (only_partition 1))
               {| records := []; retries := 3; polls := 8 |} 0%nat).
  simpl. lia.
Defined.

(** C7 as stated fails for a negative [page_size]: the call returns the
    empty list, whose length 0 is above [page_size = -1]. *)
Lemma consume_page_exceeds_negative_page_size :
  Scenario.consume (service (-1) 3 alternating) no_filters 1
  = Some (Returned [], 0%nat)
  /\ ~ (Py.len (@nil (Record_ unit unit)) <= page_size (service (-1) 3 alternating)).
Proof.
  split; [reflexivity|]. vm_compute. intros H. apply H. reflexivity.
Qed.

Lemma consume_page_bounded_witness :
  Py.len (@nil (Record_ unit unit))
  <= Z.max 0 (page_size (service (-1) 3 alternating)).
Proof.
  apply (@consume_page_bounded unit unit plain_models
           (service (-1) 3 alternating) no_filters 1 [] 0%nat).
  reflexivity.
Defined.

Lemma consume_without_poll_witness :
  Scenario.consume (service 5 0 alternating) no_filters 1
  = Some (Returned [], 0%nat)
  /\ Scenario.consume (service 0 3 alternating) no_filters 1
     = Some (Returned [], 0%nat).
Proof.
  split.
  - apply (consume_without_poll plain_models (service 5 0 alternating) no_filters 0).
    left. simpl. lia.
  - apply (consume_without_poll plain_models (service 0 3 alternating) no_filters 0).
    right. simpl. lia.
Defined.

(** A record without headers passes the empty header filter, although
    [_match_header] finds no header that holds the empty string. *)
Lemma consume_empty_filter_is_absent_witness :
  header_skips plain_models empty_header_filter
    (make_record plain_models (service 5 3 alternating) (message 0 0 "k0" "v0") "")
  = false
  /\ _match_header plain_models "" (Some []) = false.
Proof.
  split; [|reflexivity].
  apply (proj1 (proj2 (proj2 (consume_empty_filter_is_absent
                                plain_models (service 5 3 alternating)
                                empty_header_filter)))).
  reflexivity.
Defined.

End Scenarios.

End ConsumeFacts.

(** * Properties of [TopicService.all] *)

Module SnapshotFacts.
Import Kafka Models TopicService.

(** Split a goal into its conjuncts, as far as they are written out. *)
Ltac splits := repeat match goal with |- _ /\ _ => split end.

Section Facts.

Variable uuid4 : nat -> string.
Variable committed_reply :
  Handle -> list TopicPartition.t -> Reply (list TopicPartition.t).
Variable watermark_reply : Handle -> TopicPartition.t -> Reply (Z * Z).

(** ** The monad and its loops *)

Lemma bind_returns {A B : Type} (m : M A) (k : A -> M B) w b w' :
  bind m k w = (Returns b, w') ->
  exists a w1, m w = (Returns a, w1) /\ k a w1 = (Returns b, w').
Proof.
  unfold bind. destruct (m w) as [[a|ex] w1]; intros H; [eauto|discriminate].
Qed.

Lemma extend_nil w : extend w [] = w.
Proof. destruct w. unfold extend. simpl. rewrite app_nil_r. reflexivity. Qed.

Lemma extend_extend w evs1 evs2 :
  extend (extend w evs1) evs2 = extend w (evs1 ++ evs2).
Proof. unfold extend. simpl. rewrite app_assoc. reflexivity. Qed.

(** An invariant of the loop states, told the items that are done. *)
Lemma for_each_returns {A X : Type} (P : list X -> A -> World -> Prop)
      (body : A -> X -> M A) :
  forall xs done acc w r w',
    (forall before x acc w acc' w',
        P (done ++ before) acc w -> In x xs ->
        body acc x w = (Returns acc', w') ->
        P (done ++ before ++ [x]) acc' w') ->
    P done acc w ->
    for_each xs body acc w = (Returns r, w') ->
    P (done ++ xs) r w'.
Proof.
  induction xs as [|x xs IH]; intros done acc w r w' Hstep HP Hrun.
  - simpl in Hrun. inversion Hrun; subst. rewrite app_nil_r. exact HP.
  - simpl in Hrun. apply bind_returns in Hrun.
    destruct Hrun as (acc1 & w1 & Hbody & Hrest).
    replace (done ++ x :: xs) with ((done ++ [x]) ++ xs)
      by (rewrite <- app_assoc; reflexivity).
    apply IH with (acc := acc1) (w := w1).
    + intros before y acc2 w2 acc3 w3 HP2 Hin Hb.
      rewrite <- !app_assoc. simpl.
      apply (Hstep (x :: before) y acc2 w2 acc3 w3); [|right; exact Hin|exact Hb].
      rewrite <- app_assoc in HP2. exact HP2.
    + apply (Hstep [] x acc w); [rewrite app_nil_r; exact HP|left; reflexivity|exact Hbody].
    + exact Hrest.
Qed.

(** A loop whose body always returns, returns. *)
Lemma for_each_total {A X : Type} (body : A -> X -> M A) :
  forall xs acc w,
    (forall x acc w, In x xs -> exists acc' w', body acc x w = (Returns acc', w')) ->
    exists r w', for_each xs body acc w = (Returns r, w').
Proof.
  induction xs as [|x xs IH]; intros acc w Hbody.
  - simpl. unfold ret. eauto.
  - simpl. unfold bind.
    destruct (Hbody x acc w (or_introl eq_refl)) as (acc1 & w1 & ->).
    apply IH. intros y acc2 w2 Hin. apply Hbody. right. exact Hin.
Qed.

(** ** One watermark lookup *)

Lemma guarded_lookup h tp w :
  try_except_KafkaException
    (get_watermark_offsets watermark_reply h tp)
    (fun ex => bind (logger_exception ex) (fun _ => ret (0, 0))) w
  = (match watermark_reply h tp with
     | Throws (OtherException what) => Throws (OtherException what)
     | reply => Returns (or_zero reply)
     end,
     extend w (lookup_events watermark_reply h tp)).
Proof.
  unfold try_except_KafkaException, get_watermark_offsets, lookup_events,
    logger_exception, bind, emit, ret, extend.
  simpl. destruct (watermark_reply h tp) as [[low high]|[e|what]]; simpl;
    try reflexivity.
  rewrite <- app_assoc. reflexivity.
Qed.

Lemma _get_watermarks_runs topic_metadata partition_metadata w :
  let h := scoped_handle uuid4 w in
  let tp := TopicPartition.new (TopicMetadata.topic topic_metadata)
                               (PartitionMetadata.id partition_metadata) in
  _get_watermarks uuid4 watermark_reply topic_metadata partition_metadata w
  = (match watermark_reply h tp with
     | Throws (OtherException what) => Throws (OtherException what)
     | reply => Returns (or_zero reply)
     end,
     {| trace := trace w ++ NewConsumer h :: lookup_events watermark_reply h tp;
        consumers := S (consumers w);
        uuids := S (uuids w) |}).
Proof.
  intros h tp. unfold _get_watermarks.
  unfold bind at 1. unfold uuid_uuid4. unfold bind at 1. unfold Consumer.
  rewrite guarded_lookup. unfold extend. simpl.
  rewrite <- app_assoc. reflexivity.
Qed.


(** ** Stretches of the trace *)

Lemma created_app evs1 evs2 : created (evs1 ++ evs2) = created evs1 ++ created evs2.
Proof. apply flat_map_app. Qed.

Lemma lookup_handles_app evs1 evs2 :
  lookup_handles (evs1 ++ evs2) = lookup_handles evs1 ++ lookup_handles evs2.
Proof. apply flat_map_app. Qed.

Lemma created_new h evs : created (NewConsumer h :: evs) = h :: created evs.
Proof. reflexivity. Qed.

Lemma lookup_handles_new h evs :
  lookup_handles (NewConsumer h :: evs) = lookup_handles evs.
Proof. reflexivity. Qed.

Lemma created_lookup_events h tp : created (lookup_events watermark_reply h tp) = [].
Proof.
  unfold lookup_events. destruct (watermark_reply h tp) as [?|[?|?]]; reflexivity.
Qed.

Lemma lookup_handles_lookup_events h tp :
  lookup_handles (lookup_events watermark_reply h tp) = [h].
Proof.
  unfold lookup_events. destruct (watermark_reply h tp) as [?|[?|?]]; reflexivity.
Qed.

Lemma no_fetch_lookup_events h tp :
  Forall (fun ev => is_fetch ev = false) (lookup_events watermark_reply h tp).
Proof.
  unfold lookup_events.
  destruct (watermark_reply h tp) as [?|[?|?]]; repeat constructor.
Qed.

Lemma fresh_from_nil c : fresh_from c [].
Proof. split; reflexivity. Qed.

Lemma fresh_from_app c evs1 evs2 :
  fresh_from c evs1 ->
  fresh_from (c + List.length (created evs1)) evs2 ->
  fresh_from c (evs1 ++ evs2).
Proof.
  intros [Hl1 Hc1] [Hl2 Hc2]. split.
  - rewrite lookup_handles_app, created_app. congruence.
  - rewrite created_app, map_app, length_app, seq_app. congruence.
Qed.

Lemma fresh_from_NoDup c evs : fresh_from c evs -> NoDup (created evs).
Proof.
  intros [_ Hids]. apply (NoDup_map_inv handle_id). rewrite Hids. apply seq_NoDup.
Qed.

Lemma partition_looked_up_more tr tr' topic_metadata partition_metadata partition :
  (forall ev, In ev tr -> In ev tr') ->
  partition_looked_up watermark_reply tr topic_metadata partition_metadata partition ->
  partition_looked_up watermark_reply tr' topic_metadata partition_metadata partition.
Proof.
  intros Hsub (h & Hnew & Hlook & Hpart & Hlog).
  exists h. repeat split; auto.
Qed.

(** ** [Dict.set] *)

Lemma dict_set_in {V : Type} (d : Dict.t V) k0 v0 k v :
  In (k, v) (Dict.set d k0 v0) -> (k = k0 /\ v = v0) \/ In (k, v) d.
Proof.
  induction d as [|[k' v'] d IH]; simpl.
  - intros [H|[]]. inversion H; auto.
  - destruct (String.eqb_spec k' k0) as [->|Hne].
    + intros [H|H]; [inversion H; auto|auto].
    + intros [H|H]; [auto|]. destruct (IH H); auto.
Qed.

Lemma dict_set_keys {V : Type} (d : Dict.t V) k0 v0 k :
  k = k0 \/ In k (Dict.keys d) -> In k (Dict.keys (Dict.set d k0 v0)).
Proof.
  unfold Dict.keys. induction d as [|[k' v'] d IH]; simpl.
  - intros [->|[]]. auto.
  - destruct (String.eqb_spec k' k0) as [->|Hne]; simpl.
    + intros [->|[->|H]]; auto.
    + intros [->|[->|H]]; auto.
Qed.

Lemma dict_set_set {V : Type} (d : Dict.t V) k v0 v :
  Dict.set (Dict.set d k v0) k v = Dict.set d k v.
Proof.
  induction d as [|[k' v'] d IH]; simpl.
  - rewrite String.eqb_refl. reflexivity.
  - destruct (String.eqb_spec k' k) as [->|Hne]; simpl.
    + rewrite String.eqb_refl. reflexivity.
    + destruct (String.eqb_spec k' k); [contradiction|]. rewrite IH. reflexivity.
Qed.

(** ** The topics and their partitions: [_map_topics] *)

(** What the loop over the partitions of one topic has done. *)
Lemma partitions_loop topic_metadata :
  forall partitions_metadata topic0 w0 topic w,
    for_each partitions_metadata
      (fun topic topic_partition_metadata =>
         bind (_get_watermarks uuid4 watermark_reply topic_metadata
                               topic_partition_metadata)
              (fun low_high =>
                 let '(low, high) := low_high in
                 ret (Topic.append_partition topic
                        (new_partition topic_metadata topic_partition_metadata
                                       (low, high)))))
      topic0 w0 = (Returns topic, w) ->
    exists evs parts,
      trace w = trace w0 ++ evs
      /\ consumers w = (consumers w0 + List.length (created evs))%nat
      /\ fresh_from (consumers w0) evs
      /\ Forall (fun ev => is_fetch ev = false) evs
      /\ Topic.name topic = Topic.name topic0
      /\ Topic.groups topic = Topic.groups topic0
      /\ Topic.partitions topic = Topic.partitions topic0 ++ parts
      /\ Forall2 (partition_looked_up watermark_reply evs topic_metadata)
                 partitions_metadata parts.
Proof.
  intros pms topic0 w0 topic w Hrun.
  pose (P := fun (done : list PartitionMetadata.t) (topic : Topic.t) (w : World) =>
               exists evs parts,
                 trace w = trace w0 ++ evs
                 /\ consumers w = (consumers w0 + List.length (created evs))%nat
                 /\ fresh_from (consumers w0) evs
                 /\ Forall (fun ev => is_fetch ev = false) evs
                 /\ Topic.name topic = Topic.name topic0
                 /\ Topic.groups topic = Topic.groups topic0
                 /\ Topic.partitions topic = Topic.partitions topic0 ++ parts
                 /\ Forall2 (partition_looked_up watermark_reply evs topic_metadata)
                            done parts).
  change (P ([] ++ pms) topic w).
  eapply (for_each_returns P); [| |exact Hrun].
  - clear Hrun. intros before pm acc w1 acc' w1' HP _ Hbody. simpl in HP |- *.
    destruct HP as (evs & parts & Htr & Hcons & Hfresh & Hnf & Hname & Hgroups & Hparts & Hall).
    apply bind_returns in Hbody. destruct Hbody as ([low high] & w2 & Hget & Hret).
    rewrite _get_watermarks_runs in Hget.
    set (h := scoped_handle uuid4 w1) in *.
    set (tp := TopicPartition.new (TopicMetadata.topic topic_metadata)
                                  (PartitionMetadata.id pm)) in *.
    assert (Hlh : (low, high) = or_zero (watermark_reply h tp)
                  /\ w2 = {| trace := trace w1 ++ NewConsumer h
                                        :: lookup_events watermark_reply h tp;
                             consumers := S (consumers w1);
                             uuids := S (uuids w1) |}).
    { destruct (watermark_reply h tp) as [?|[?|?]]; inversion Hget; auto. }
    destruct Hlh as [Hlh ->]. clear Hget.
    unfold ret in Hret. inversion Hret; subst acc' w1'. clear Hret.
    exists (evs ++ NewConsumer h :: lookup_events watermark_reply h tp),
      (parts ++ [new_partition topic_metadata pm (low, high)]).
    cbn [trace consumers uuids Topic.name Topic.groups Topic.partitions
         Topic.append_partition].
    splits.
    + rewrite Htr, app_assoc. reflexivity.
    + rewrite created_app, created_new, created_lookup_events, length_app. simpl. lia.
    + apply fresh_from_app; [exact Hfresh|]. split.
      * rewrite lookup_handles_new, created_new, lookup_handles_lookup_events,
          created_lookup_events. reflexivity.
      * rewrite created_new, created_lookup_events. simpl. rewrite Hcons. reflexivity.
    + apply Forall_app. split; [exact Hnf|]. constructor; [reflexivity|].
      apply no_fetch_lookup_events.
    + exact Hname.
    + exact Hgroups.
    + rewrite Hparts, app_assoc. reflexivity.
    + apply Forall2_app.
      * eapply Forall2_impl; [|exact Hall]. intros a b.
        apply partition_looked_up_more. intros ev Hin. apply in_app_iff. auto.
      * constructor; [|constructor].
        exists h. fold tp. repeat split.
        -- apply in_app_iff. right. left. reflexivity.
        -- apply in_app_iff. right. right. left. reflexivity.
        -- rewrite Hlh. reflexivity.
        -- intros e He. apply in_app_iff. right. right.
           unfold lookup_events. rewrite He. right. left. reflexivity.
  - exists [], []. rewrite !app_nil_r. simpl. splits; auto using fresh_from_nil.
Qed.


(** What [_map_topics] has done when it returns: the lookups it made,
    each through a handle of its own, and a topic without groups for
    every entry of the metadata. *)
Lemma _map_topics_returns topics_metadata w0 topics w :
  _map_topics uuid4 watermark_reply topics_metadata w0 = (Returns topics, w) ->
  exists evs,
    trace w = trace w0 ++ evs
    /\ consumers w = (consumers w0 + List.length (created evs))%nat
    /\ fresh_from (consumers w0) evs
    /\ Forall (fun ev => is_fetch ev = false) evs
    /\ (forall k topic,
           In (k, topic) topics ->
           Topic.groups topic = []
           /\ exists topic_metadata,
               In topic_metadata topics_metadata
               /\ k = TopicMetadata.topic topic_metadata
               /\ Topic.name topic = TopicMetadata.topic topic_metadata
               /\ Forall2 (partition_looked_up watermark_reply evs topic_metadata)
                          (TopicMetadata.partitions topic_metadata)
                          (Topic.partitions topic))
    /\ (forall topic_metadata,
           In topic_metadata topics_metadata ->
           In (TopicMetadata.topic topic_metadata) (Dict.keys topics)).
Proof.
  intros Hrun. unfold _map_topics in Hrun.
  pose (P := fun (done : list TopicMetadata.t) (topics : Dict.t Topic.t) (w : World) =>
               exists evs,
                 trace w = trace w0 ++ evs
                 /\ consumers w = (consumers w0 + List.length (created evs))%nat
                 /\ fresh_from (consumers w0) evs
                 /\ Forall (fun ev => is_fetch ev = false) evs
                 /\ (forall k topic,
                        In (k, topic) topics ->
                        Topic.groups topic = []
                        /\ exists topic_metadata,
                            In topic_metadata done
                            /\ k = TopicMetadata.topic topic_metadata
                            /\ Topic.name topic = TopicMetadata.topic topic_metadata
                            /\ Forall2 (partition_looked_up watermark_reply evs
                                                            topic_metadata)
                                       (TopicMetadata.partitions topic_metadata)
                                       (Topic.partitions topic))
                 /\ (forall topic_metadata,
                        In topic_metadata done ->
                        In (TopicMetadata.topic topic_metadata) (Dict.keys topics))).
  change (P ([] ++ topics_metadata) topics w).
  eapply (for_each_returns P); [| |exact Hrun].
  - clear Hrun. intros before tm acc w1 acc' w1' HP _ Hbody. simpl in HP |- *.
    destruct HP as (evs & Htr & Hcons & Hfresh & Hnf & Hsound & Hkeys).
    apply bind_returns in Hbody. destruct Hbody as (topic & w2 & Hloop & Hret).
    apply partitions_loop in Hloop.
    destruct Hloop as (evs' & parts & Htr' & Hcons' & Hfresh' & Hnf' & Hname & Hgroups
                       & Hparts & Hall).
    unfold ret in Hret. inversion Hret; subst acc' w1'. clear Hret.
    rewrite dict_set_set.
    exists (evs ++ evs'). splits.
    + rewrite Htr', Htr, app_assoc. reflexivity.
    + rewrite Hcons', Hcons, created_app, length_app. lia.
    + apply fresh_from_app; [exact Hfresh|]. rewrite <- Hcons. exact Hfresh'.
    + apply Forall_app. auto.
    + intros k t Hin. apply dict_set_in in Hin. destruct Hin as [[-> ->]|Hin].
      * split; [rewrite Hgroups; reflexivity|].
        exists tm. splits; auto.
        -- apply in_app_iff. right. left. reflexivity.
        -- rewrite Hparts. simpl.
           eapply Forall2_impl; [|exact Hall]. intros a b.
           apply partition_looked_up_more. intros ev He. apply in_app_iff. auto.
      * destruct (Hsound k t Hin) as (Hg & tm' & Hin' & Hk & Hn & Hall').
        split; [exact Hg|]. exists tm'. splits; auto.
        -- apply in_app_iff. auto.
        -- eapply Forall2_impl; [|exact Hall']. intros a b.
           apply partition_looked_up_more. intros ev He. apply in_app_iff. auto.
    + intros tm' Hin. apply dict_set_keys. apply in_app_iff in Hin.
      destruct Hin as [Hin|[<-|[]]]; auto.
  - exists []. rewrite app_nil_r. simpl. splits; auto using fresh_from_nil.
    intros k t [].
Qed.

(** [_map_topics] returns unless a lookup raises something else than
    [KafkaException]. *)
Lemma _map_topics_total topics_metadata w0 :
  (forall h tp what, watermark_reply h tp <> Throws (OtherException what)) ->
  exists topics w,
    _map_topics uuid4 watermark_reply topics_metadata w0 = (Returns topics, w).
Proof.
  intros Hkafka. unfold _map_topics. apply for_each_total.
  intros tm acc w _. unfold bind at 1.
  edestruct (@for_each_total Topic.t PartitionMetadata.t) as (topic & w1 & ->).
  - intros pm t w2 _. rewrite (surjective_pairing (_ t pm w2)).
    unfold bind. rewrite _get_watermarks_runs.
    destruct (watermark_reply _ _) as [[low high]|[e|what]] eqn:Hrep.
    + simpl. unfold ret. eauto.
    + simpl. unfold ret. eauto.
    + exfalso. exact (Hkafka _ _ _ Hrep).
  - unfold ret. eauto.
Qed.


(** ** One group and one topic: [group_into_topic] *)

Lemma attach_members_spec group_metadata topic_name group :
  let attached := attach_members group_metadata topic_name group in
  Group.id attached = Group.id group
  /\ Group.partitions attached = Group.partitions group
  /\ Group.members attached
     = Group.members group
       ++ flat_map (fun member_metadata =>
                      let member_partitions :=
                        member_partitions topic_name member_metadata in
                      if 0 <? Py.len member_partitions
                      then [new_member group_metadata member_metadata
                                       member_partitions]
                      else [])
                   (ConsumerGroupDescription.members group_metadata).
Proof.
  unfold attach_members.
  generalize (ConsumerGroupDescription.members group_metadata) as members.
  intros members. revert group.
  induction members as [|member members IH]; intros group; simpl.
  - rewrite app_nil_r. auto.
  - destruct (IH (if 0 <? Py.len (member_partitions topic_name member)
                  then Group.append_member group
                         (new_member group_metadata member
                                     (member_partitions topic_name member))
                  else group)) as (Hid & Hparts & Hmembers).
    rewrite Hid, Hparts, Hmembers.
    destruct (0 <? Py.len (member_partitions topic_name member)); simpl; auto.
    rewrite <- app_assoc. auto.
Qed.

Lemma has_offset_filter (reply : list TopicPartition.t) :
  (0 <? Py.len (filter has_offset reply)) = existsb has_offset reply.
Proof.
  unfold Py.len. induction reply as [|tp reply IH]; simpl; [reflexivity|].
  destruct (has_offset tp); simpl.
  - destruct (List.length (filter has_offset reply)); reflexivity.
  - exact IH.
Qed.

(** The loop over the committed partitions appends a [GroupPartition]
    for every partition with an offset, after a lookup for it. *)
Lemma committed_loop group_metadata h :
  forall reply group w group' w',
    for_each reply
      (fun group group_partition_metadata =>
         if TopicPartition.offset group_partition_metadata =? OFFSET_INVALID
         then ret group
         else
           bind (try_except_KafkaException
                   (get_watermark_offsets watermark_reply h group_partition_metadata)
                   (fun ex => bind (logger_exception ex) (fun _ => ret (0, 0))))
                (fun low_high =>
                   let '(low, high) := low_high in
                   ret (Group.append_partition group
                          (new_group_partition group_metadata
                                               group_partition_metadata
                                               (low, high)))))
      group w = (Returns group', w') ->
    w' = extend w (flat_map (lookup_events watermark_reply h)
                            (filter has_offset reply))
    /\ Group.id group' = Group.id group
    /\ Group.members group' = Group.members group
    /\ Group.partitions group'
       = Group.partitions group
         ++ map (fun tp => new_group_partition group_metadata tp
                             (or_zero (watermark_reply h tp)))
                (filter has_offset reply).
Proof.
  induction reply as [|tp reply IH]; intros group w group' w' Hrun.
  - simpl in *. unfold ret in Hrun. inversion Hrun; subst.
    rewrite extend_nil, app_nil_r. auto.
  - cbn [for_each] in Hrun. apply bind_returns in Hrun.
    destruct Hrun as (group1 & w1 & Hbody & Hrest).
    apply IH in Hrest. destruct Hrest as (-> & Hid & Hmembers & Hparts).
    cbn [filter].
    assert (Hoff : has_offset tp
                   = negb (TopicPartition.offset tp =? OFFSET_INVALID)) by reflexivity.
    destruct (TopicPartition.offset tp =? OFFSET_INVALID); simpl in Hoff; rewrite Hoff.
    + unfold ret in Hbody. inversion Hbody; subst. auto.
    + apply bind_returns in Hbody. destruct Hbody as ([low high] & w2 & Hlook & Hret).
      rewrite guarded_lookup in Hlook.
      assert (Hlh : (low, high) = or_zero (watermark_reply h tp)
                    /\ w2 = extend w (lookup_events watermark_reply h tp)).
      { destruct (watermark_reply h tp) as [?|[?|?]]; inversion Hlook; auto. }
      destruct Hlh as [Hlh ->]. unfold ret in Hret. inversion Hret; subst group1 w1.
      cbn [flat_map map]. rewrite extend_extend. splits; auto.
      rewrite Hparts. simpl. rewrite <- app_assoc, Hlh. reflexivity.
Qed.

Lemma committed_runs h request w :
  committed committed_reply h request w
  = (committed_reply h request,
     extend w [Committed h request (committed_reply h request)]).
Proof. reflexivity. Qed.

(** What the body of the loop over the topics has done when it returns. *)
Lemma group_into_topic_returns group_metadata h topic w topic' w' :
  group_into_topic committed_reply watermark_reply group_metadata h topic w
  = (Returns topic', w') ->
  w' = extend w (fetch_events committed_reply watermark_reply h topic)
  /\ group_attached committed_reply watermark_reply group_metadata h topic topic'.
Proof.
  unfold group_into_topic. intros Hrun.
  apply bind_returns in Hrun. destruct Hrun as (reply & w1 & Hfetch & Hrun).
  rewrite committed_runs in Hfetch.
  destruct (committed_reply h (request_for topic)) as [reply'|ex] eqn:Hreply;
    inversion Hfetch; subst reply' w1. clear Hfetch.
  apply bind_returns in Hrun. destruct Hrun as (group & w2 & Hloop & Hrun).
  apply committed_loop in Hloop. destruct Hloop as (-> & Hid & Hmembers & Hparts).
  simpl in Hid, Hmembers, Hparts.
  unfold fetch_events, group_attached. rewrite Hreply.
  rewrite Hparts in Hrun.
  unfold Py.len in Hrun. rewrite length_map in Hrun.
  fold (Py.len (filter has_offset reply)) in Hrun.
  rewrite has_offset_filter in Hrun.
  destruct (existsb has_offset reply) eqn:Hany;
    unfold ret in Hrun; inversion Hrun; subst topic' w'; clear Hrun.
  - split; [rewrite extend_extend; reflexivity|].
    splits; [reflexivity|reflexivity|].
    exists reply. split; [reflexivity|]. rewrite Hany.
    eexists. split; [reflexivity|].
    destruct (attach_members_spec group_metadata (Topic.name topic) group)
      as (Hid' & Hparts' & Hmembers').
    unfold group_fetched. rewrite Hid', Hparts', Hmembers', Hid, Hparts, Hmembers.
    auto.
  - split; [rewrite extend_extend; reflexivity|].
    splits; [reflexivity|reflexivity|].
    exists reply. split; [reflexivity|]. rewrite Hany. reflexivity.
Qed.


(** ** One group and every topic: the loop over [topics.values()] *)

Lemma for_values_returns group_metadata h :
  forall topics w topics' w',
    for_values topics
      (group_into_topic committed_reply watermark_reply group_metadata h) w
    = (Returns topics', w') ->
    w' = extend w (flat_map (fetch_events committed_reply watermark_reply h)
                            (Dict.values topics))
    /\ Forall2 (fun kt kt' =>
                  fst kt' = fst kt
                  /\ group_attached committed_reply watermark_reply
                                    group_metadata h (snd kt) (snd kt'))
               topics topics'.
Proof.
  induction topics as [|[k topic] topics IH]; intros w topics' w' Hrun.
  - simpl in Hrun. unfold ret in Hrun. inversion Hrun; subst.
    simpl. rewrite extend_nil. auto.
  - cbn [for_values] in Hrun.
    apply bind_returns in Hrun. destruct Hrun as (topic' & w1 & Hbody & Hrun).
    apply bind_returns in Hrun. destruct Hrun as (rest' & w2 & Hrest & Hret).
    unfold ret in Hret. inversion Hret; subst topics' w2. clear Hret.
    apply group_into_topic_returns in Hbody. destruct Hbody as [-> Hattached].
    apply IH in Hrest. destruct Hrest as [-> Hall].
    simpl. rewrite extend_extend. split; [reflexivity|].
    constructor; auto.
Qed.

Lemma created_lookups h tps :
  created (flat_map (lookup_events watermark_reply h) tps) = [].
Proof.
  induction tps as [|tp tps IH]; [reflexivity|].
  cbn [flat_map]. rewrite created_app, created_lookup_events, IH. reflexivity.
Qed.

Lemma lookup_handles_lookups h tps h' :
  In h' (lookup_handles (flat_map (lookup_events watermark_reply h) tps)) -> h' = h.
Proof.
  induction tps as [|tp tps IH]; [intros []|].
  cbn [flat_map]. rewrite lookup_handles_app, lookup_handles_lookup_events.
  intros [Heq|Hin]; auto.
Qed.

Lemma created_fetch_events h topics :
  created (flat_map (fetch_events committed_reply watermark_reply h) topics) = [].
Proof.
  induction topics as [|topic topics IH]; [reflexivity|].
  cbn [flat_map]. rewrite created_app, IH, app_nil_r.
  unfold fetch_events.
  change (created (Committed h (request_for topic)
                             (committed_reply h (request_for topic)) :: ?evs))
    with (created evs).
  destruct (committed_reply h (request_for topic)) as [reply|ex]; [|reflexivity].
  apply created_lookups.
Qed.

Lemma lookup_handles_fetch_events h topics h' :
  In h' (lookup_handles
           (flat_map (fetch_events committed_reply watermark_reply h) topics)) ->
  h' = h.
Proof.
  induction topics as [|topic topics IH]; [intros []|].
  cbn [flat_map]. rewrite lookup_handles_app. intros Hin. apply in_app_iff in Hin.
  destruct Hin as [Hin|Hin]; [|auto].
  unfold fetch_events in Hin.
  change (lookup_handles (Committed h (request_for topic)
                                    (committed_reply h (request_for topic)) :: ?evs))
    with (h :: lookup_handles evs) in Hin.
  destruct Hin as [Heq|Hin]; [auto|].
  destruct (committed_reply h (request_for topic)) as [reply|ex]; [|destruct Hin].
  apply lookup_handles_lookups in Hin. exact Hin.
Qed.

(** A fetch among the events of a group's loop is the fetch for one of
    the topics. *)
Lemma fetch_in_fetch_events h topics h' request reply :
  In (Committed h' request reply)
     (flat_map (fetch_events committed_reply watermark_reply h) topics) ->
  h' = h
  /\ reply = committed_reply h request
  /\ exists topic, In topic topics /\ request = request_for topic.
Proof.
  intros Hin. apply in_flat_map in Hin. destruct Hin as (topic & Htopic & Hin).
  unfold fetch_events in Hin. destruct Hin as [Heq|Hin].
  - inversion Heq; subst. eauto.
  - exfalso.
    destruct (committed_reply h (request_for topic)) as [reply'|ex]; [|destruct Hin].
    apply in_flat_map in Hin. destruct Hin as (tp & _ & Hin).
    pose proof (no_fetch_lookup_events h tp) as Hnf.
    rewrite Forall_forall in Hnf. specialize (Hnf _ Hin). discriminate.
Qed.

Lemma Forall2_chain {A : Type} (R S T : A -> A -> Prop) (xs ys zs : list A) :
  Forall2 R xs ys ->
  Forall2 S ys zs ->
  (forall x y z, In y ys -> R x y -> S y z -> T x z) ->
  Forall2 T xs zs.
Proof.
  intros HR. revert zs. induction HR as [|x y xs ys Hxy HR IH]; intros zs HS Hstep.
  - inversion HS. constructor.
  - inversion HS as [|y' z ys' zs' Hyz HS']; subst. constructor.
    + apply (Hstep x y z); simpl; auto.
    + apply IH; [exact HS'|]. intros a b c Hin. apply Hstep. right. exact Hin.
Qed.

(** One more group keeps [topic_grown]. *)
Lemma topic_grown_step done evs group_metadata h topics1 topic0 topic1 topic2 :
  handle_group_id h = ConsumerGroupDescription.group_id group_metadata ->
  In topic1 topics1 ->
  topic_grown watermark_reply done evs topic0 topic1 ->
  group_attached committed_reply watermark_reply group_metadata h topic1 topic2 ->
  topic_grown watermark_reply (done ++ [group_metadata])
              (evs ++ NewConsumer h
                   :: flat_map (fetch_events committed_reply watermark_reply h)
                               topics1)
              topic0 topic2.
Proof.
  intros Hgid Hin1 (Hname & Hparts & groups & Hgroups & Hsound & Hcomplete)
         (Hname' & Hparts' & reply & Hreply & Hattach).
  assert (Hreq : request_for topic1 = request_for topic0).
  { unfold request_for. rewrite Hname, Hparts. reflexivity. }
  assert (Hold : forall group,
             In group groups ->
             group_in_trace watermark_reply (done ++ [group_metadata])
               (evs ++ NewConsumer h
                    :: flat_map (fetch_events committed_reply watermark_reply h)
                                topics1)
               topic0 group).
  { intros group Hin.
    destruct (Hsound group Hin) as (gm & h0 & reply0 & Hgm & Hh0 & Hgid0 & Hev & Hany
                                    & Hfetched & Hlook).
    exists gm, h0, reply0. splits; auto.
    - apply in_app_iff. auto.
    - rewrite created_app. apply in_app_iff. auto.
    - apply in_app_iff. auto.
    - intros tp ev Htp Hoff Hev'. apply in_app_iff. left. eauto. }
  assert (Hfetch1 : forall ev,
             In ev (fetch_events committed_reply watermark_reply h topic1) ->
             In ev (evs ++ NewConsumer h
                        :: flat_map (fetch_events committed_reply watermark_reply h)
                                    topics1)).
  { intros ev Hev. apply in_app_iff. right. right.
    apply in_flat_map. exists topic1. auto. }
  split; [congruence|]. split; [congruence|].
  destruct (existsb has_offset reply) eqn:Hany.
  - destruct Hattach as (group & Hgroups' & Hfetched).
    exists (groups ++ [group]). splits.
    + rewrite Hgroups', Hgroups, app_assoc. reflexivity.
    + intros g Hg. apply in_app_iff in Hg. destruct Hg as [Hg|[<-|[]]]; [auto|].
      exists group_metadata, h, reply. splits; auto.
      * apply in_app_iff. right. left. reflexivity.
      * rewrite created_app, created_new. apply in_app_iff. right. left. reflexivity.
      * apply Hfetch1. unfold fetch_events. rewrite <- Hreq, Hreply.
        left. reflexivity.
      * rewrite <- Hname. exact Hfetched.
      * intros tp ev Htp Hoff Hev. apply Hfetch1. unfold fetch_events.
        rewrite Hreply. right. apply in_flat_map. exists tp. split; [|exact Hev].
        apply filter_In. auto.
    + intros h' reply' Hev Hany'. apply in_app_iff in Hev.
      destruct Hev as [Hev|[Hev|Hev]].
      * destruct (Hcomplete h' reply' Hev Hany') as (g & Hg & Hid).
        exists g. split; [apply in_app_iff; auto|exact Hid].
      * discriminate.
      * exists group. split; [apply in_app_iff; right; left; reflexivity|].
        apply fetch_in_fetch_events in Hev. destruct Hev as (-> & _ & _).
        destruct Hfetched as (Hid & _). congruence.
  - exists groups. splits.
    + congruence.
    + exact Hold.
    + intros h' reply' Hev Hany'. apply in_app_iff in Hev.
      destruct Hev as [Hev|[Hev|Hev]].
      * exact (Hcomplete h' reply' Hev Hany').
      * discriminate.
      * exfalso. apply fetch_in_fetch_events in Hev.
        destruct Hev as (-> & Hrep & _).
        rewrite <- Hreq, Hreply in Hrep. inversion Hrep; subst. congruence.
Qed.


Lemma Forall2_in_left {A B : Type} (R : A -> B -> Prop) xs ys x :
  Forall2 R xs ys -> In x xs -> exists y, In y ys /\ R x y.
Proof.
  induction 1 as [|a b xs ys Hab HR IH]; intros Hin; [destruct Hin|].
  destruct Hin as [->|Hin].
  - exists b. simpl. auto.
  - destruct (IH Hin) as (y & Hy & Hxy). exists y. simpl. auto.
Qed.

Lemma Forall2_in_right {A B : Type} (R : A -> B -> Prop) xs ys y :
  Forall2 R xs ys -> In y ys -> exists x, In x xs /\ R x y.
Proof.
  induction 1 as [|a b xs ys Hab HR IH]; intros Hin; [destruct Hin|].
  destruct Hin as [->|Hin].
  - exists a. simpl. auto.
  - destruct (IH Hin) as (x & Hx & Hxy). exists x. simpl. auto.
Qed.

(** ** Every group: [_map_groups_into_topics] *)

(** What [_map_groups_into_topics] has done when it returns: one handle
    per group, created with the group's id, which every fetch and every
    lookup of the group goes through, for every topic; and the topics
    grown by the groups whose fetch held an offset. *)
Lemma _map_groups_into_topics_returns groups_metadata topics0 w0 topics w :
  _map_groups_into_topics committed_reply watermark_reply groups_metadata topics0 w0
  = (Returns topics, w) ->
  exists evs,
    trace w = trace w0 ++ evs
    /\ consumers w = (consumers w0 + List.length groups_metadata)%nat
    /\ map handle_group_id (created evs)
       = map ConsumerGroupDescription.group_id groups_metadata
    /\ map handle_id (created evs)
       = seq (consumers w0) (List.length groups_metadata)
    /\ (forall h, In h (lookup_handles evs) -> In h (created evs))
    /\ (forall h topic0,
           In h (created evs) -> In topic0 (Dict.values topics0) ->
           In (Committed h (request_for topic0)
                         (committed_reply h (request_for topic0))) evs)
    /\ Forall2 (fun kt0 kt =>
                  fst kt = fst kt0
                  /\ topic_grown watermark_reply groups_metadata evs
                                 (snd kt0) (snd kt))
               topics0 topics.
Proof.
  intros Hrun. unfold _map_groups_into_topics in Hrun.
  pose (P := fun (done : list ConsumerGroupDescription.t)
                 (topics : Dict.t Topic.t) (w : World) =>
               exists evs,
                 trace w = trace w0 ++ evs
                 /\ consumers w = (consumers w0 + List.length done)%nat
                 /\ map handle_group_id (created evs)
                    = map ConsumerGroupDescription.group_id done
                 /\ map handle_id (created evs)
                    = seq (consumers w0) (List.length done)
                 /\ (forall h, In h (lookup_handles evs) -> In h (created evs))
                 /\ (forall h topic0,
                        In h (created evs) -> In topic0 (Dict.values topics0) ->
                        In (Committed h (request_for topic0)
                                      (committed_reply h (request_for topic0))) evs)
                 /\ Forall2 (fun kt0 kt =>
                               fst kt = fst kt0
                               /\ topic_grown watermark_reply done evs
                                              (snd kt0) (snd kt))
                            topics0 topics).
  change (P ([] ++ groups_metadata) topics w).
  eapply (for_each_returns P); [| |exact Hrun].
  - clear Hrun. intros before gm topics1 w1 topics2 w2 HP _ Hbody. simpl in HP |- *.
    destruct HP as (evs & Htr & Hcons & Hgids & Hids & Hused & Hcross & Hall).
    apply bind_returns in Hbody. destruct Hbody as (h & w1' & Hnew & Hloop).
    unfold Consumer in Hnew. inversion Hnew; subst h w1'. clear Hnew.
    apply for_values_returns in Hloop. destruct Hloop as [-> Hattached].
    set (h0 := {| handle_id := consumers w1;
                  handle_group_id := ConsumerGroupDescription.group_id gm |}) in *.
    set (F := flat_map (fetch_events committed_reply watermark_reply h0)
                       (Dict.values topics1)) in *.
    assert (Hcreated : created (evs ++ NewConsumer h0 :: F) = created evs ++ [h0]).
    { rewrite created_app, created_new. unfold F. rewrite created_fetch_events.
      reflexivity. }
    exists (evs ++ NewConsumer h0 :: F). splits.
    + simpl. rewrite Htr, <- !app_assoc. reflexivity.
    + simpl. rewrite Hcons, length_app. simpl. lia.
    + rewrite Hcreated, !map_app, Hgids. reflexivity.
    + rewrite Hcreated, map_app, Hids, length_app, seq_app. simpl.
      rewrite Hcons. reflexivity.
    + intros h' Hin. rewrite Hcreated. apply in_app_iff.
      rewrite lookup_handles_app, lookup_handles_new in Hin.
      apply in_app_iff in Hin. destruct Hin as [Hin|Hin]; [auto|].
      right. left. symmetry. exact (lookup_handles_fetch_events _ _ _ Hin).
    + intros h' topic0 Hin Htopic0. rewrite Hcreated in Hin.
      apply in_app_iff. apply in_app_iff in Hin. destruct Hin as [Hin|[<-|[]]].
      * left. auto.
      * right. right.
        apply in_map_iff in Htopic0. destruct Htopic0 as ([k t0] & <- & Hkt0).
        destruct (Forall2_in_left _ Hall Hkt0) as ([k1 t1] & Hkt1 & _ & Hgrown).
        simpl in Hgrown. destruct Hgrown as (Hname & Hparts & _).
        apply in_flat_map. exists t1. split.
        -- apply in_map_iff. exists (k1, t1). auto.
        -- unfold fetch_events, request_for. simpl. rewrite Hname, Hparts.
           left. reflexivity.
    + eapply Forall2_chain; [exact Hall|exact Hattached|].
      intros [k0 t0] [k1 t1] [k2 t2] Hin [Hk Hgrown] [Hk' Hatt]. simpl in *.
      split; [congruence|].
      eapply topic_grown_step; eauto.
      apply in_map_iff. exists (k1, t1). auto.
  - exists []. rewrite app_nil_r. simpl. splits; auto; try (intros h topic0 []).
    clear. induction topics0 as [|[k t] d IH]; constructor; auto.
    split; [reflexivity|]. unfold topic_grown. simpl. splits; auto.
    exists []. rewrite app_nil_r. splits; [reflexivity|intros g []|intros h reply []].
Qed.


(** ** The whole snapshot: [all] *)

Lemma insert_sorted_in {X : Type} (key : X -> string) x y sorted :
  In y (insert_sorted key x sorted) <-> y = x \/ In y sorted.
Proof.
  induction sorted as [|z sorted IH]; simpl.
  - intuition.
  - destruct (String.ltb (key x) (key z)); simpl; [intuition|].
    rewrite IH. intuition.
Qed.

Lemma sorted_in {X : Type} (key : X -> string) xs y :
  In y (sorted xs key) <-> In y xs.
Proof.
  unfold sorted.
  assert (Hgen : forall acc,
             In y (fold_left (fun acc x => insert_sorted key x acc) xs acc)
             <-> In y acc \/ In y xs).
  { induction xs as [|x xs IH]; intros acc; simpl; [intuition|].
    rewrite IH, insert_sorted_in. intuition. }
  rewrite Hgen. simpl. intuition.
Qed.

Lemma has_offset_true tp :
  has_offset tp = true <-> TopicPartition.offset tp <> OFFSET_INVALID.
Proof.
  unfold has_offset. rewrite negb_true_iff, Z.eqb_neq. reflexivity.
Qed.

Lemma existsb_has_offset reply :
  existsb has_offset reply = true
  <-> exists tp, In tp reply /\ TopicPartition.offset tp <> OFFSET_INVALID.
Proof.
  rewrite existsb_exists. split; intros (tp & Hin & Hoff); exists tp;
    (split; [exact Hin|apply has_offset_true; exact Hoff]).
Qed.

(** A snapshot that [all] returns, in two stretches of the trace: the
    topics with their partitions, then the groups mapped into them. *)
Lemma all_returns admin topics w :
  all uuid4 committed_reply watermark_reply admin genesis = (Returns topics, w) ->
  exists topics0 topic_evs group_evs,
    trace w = topic_evs ++ group_evs
    /\ fresh_from 0 topic_evs
    /\ Forall (fun ev => is_fetch ev = false) topic_evs
    /\ (forall k topic0,
           In (k, topic0) topics0 ->
           Topic.groups topic0 = []
           /\ exists topic_metadata,
               In topic_metadata (list_topics admin)
               /\ k = TopicMetadata.topic topic_metadata
               /\ Topic.name topic0 = TopicMetadata.topic topic_metadata
               /\ Forall2 (partition_looked_up watermark_reply topic_evs
                                               topic_metadata)
                          (TopicMetadata.partitions topic_metadata)
                          (Topic.partitions topic0))
    /\ (forall topic_metadata,
           In topic_metadata (list_topics admin) ->
           In (TopicMetadata.topic topic_metadata) (Dict.keys topics0))
    /\ map handle_group_id (created group_evs)
       = map ConsumerGroupDescription.group_id (_list_groups_metadata admin)
    /\ map handle_id (created group_evs)
       = seq (List.length (created topic_evs))
             (List.length (_list_groups_metadata admin))
    /\ (forall h, In h (lookup_handles group_evs) -> In h (created group_evs))
    /\ (forall h topic0,
           In h (created group_evs) -> In topic0 (Dict.values topics0) ->
           In (Committed h (request_for topic0)
                         (committed_reply h (request_for topic0))) group_evs)
    /\ Forall2 (fun kt0 kt =>
                  fst kt = fst kt0
                  /\ topic_grown watermark_reply (_list_groups_metadata admin)
                                 group_evs (snd kt0) (snd kt))
               topics0 topics.
Proof.
  unfold all. intros Hrun.
  apply bind_returns in Hrun. destruct Hrun as (topics0 & w0 & Htopics & Hgroups).
  apply _map_topics_returns in Htopics.
  destruct Htopics as (topic_evs & Htr & Hcons & Hfresh & Hnf & Hsound & Hkeys).
  apply _map_groups_into_topics_returns in Hgroups.
  destruct Hgroups as (group_evs & Htr' & _ & Hgids & Hids & Hused & Hcross & Hall).
  simpl in Htr, Hcons, Hfresh.
  exists topics0, topic_evs, group_evs. splits; auto.
  - rewrite Htr', Htr. reflexivity.
  - intros k topic0 Hin. destruct (Hsound k topic0 Hin) as (Hg & tm & Htm & Hrest).
    split; [exact Hg|]. exists tm. split; [|exact Hrest].
    unfold _list_topics_metadata in Htm. apply sorted_in in Htm. exact Htm.
  - intros tm Htm. apply Hkeys. unfold _list_topics_metadata. apply sorted_in. exact Htm.
  - rewrite Hids, Hcons. reflexivity.
Qed.


Lemma Forall2_map_right {A B : Type} (R : A -> B -> Prop) (f : A -> B) xs :
  (forall x, In x xs -> R x (f x)) -> Forall2 R xs (map f xs).
Proof.
  induction xs as [|x xs IH]; intros HR; simpl; constructor.
  - apply HR. left. reflexivity.
  - apply IH. intros y Hy. apply HR. right. exact Hy.
Qed.

(** A topic of the snapshot, traced back: its groups are those mapped
    into it, each because of a fetch in the second stretch. *)
Lemma snapshot_topic admin topics w name topic :
  all uuid4 committed_reply watermark_reply admin genesis = (Returns topics, w) ->
  In (name, topic) topics ->
  exists topic_evs group_evs,
    trace w = topic_evs ++ group_evs
    /\ Forall (fun ev => is_fetch ev = false) topic_evs
    /\ (forall group,
           In group (Topic.groups topic) ->
           group_in_trace watermark_reply (_list_groups_metadata admin)
                          group_evs topic group)
    /\ (forall h reply,
           In (Committed h (request_for topic) (Returns reply)) group_evs ->
           existsb has_offset reply = true ->
           exists group,
             In group (Topic.groups topic) /\ Group.id group = handle_group_id h)
    /\ exists topic_metadata,
        In topic_metadata (list_topics admin)
        /\ name = TopicMetadata.topic topic_metadata
        /\ Topic.name topic = TopicMetadata.topic topic_metadata
        /\ Forall2 (partition_looked_up watermark_reply topic_evs topic_metadata)
                   (TopicMetadata.partitions topic_metadata)
                   (Topic.partitions topic).
Proof.
  intros Hrun Hin. apply all_returns in Hrun.
  destruct Hrun as (topics0 & topic_evs & group_evs & Htr & _ & Hnf & Htopics & _ & _
                    & _ & _ & _ & Hall).
  destruct (Forall2_in_right _ Hall Hin) as ([k0 topic0] & Hin0 & Hk & Hgrown).
  simpl in Hk, Hgrown. subst k0.
  destruct Hgrown as (Hname & Hparts & groups & Hgroups & Hsound & Hcomplete).
  destruct (Htopics name topic0 Hin0) as (Hnone & tm & Htm & Hkey & Hname0 & Hlooked).
  rewrite Hnone in Hgroups. simpl in Hgroups.
  assert (Hreq : request_for topic = request_for topic0).
  { unfold request_for. rewrite Hname, Hparts. reflexivity. }
  exists topic_evs, group_evs. splits; auto.
  - intros group Hg. rewrite Hgroups in Hg.
    destruct (Hsound group Hg) as (gm & h & reply & H1 & H2 & H3 & H4 & H5 & H6 & H7).
    exists gm, h, reply. rewrite Hreq, Hname. splits; auto.
  - intros h reply Hev Hany. rewrite Hgroups. rewrite Hreq in Hev. eauto.
  - exists tm. rewrite Hname, Hparts. auto.
Qed.

(** ** The claims about a snapshot *)

(** ** Every described group is mapped into every topic *)

Lemma all_phases admin topics w :
  all uuid4 committed_reply watermark_reply admin genesis = (Returns topics, w) ->
  exists topics0 w0,
    _map_topics uuid4 watermark_reply (_list_topics_metadata admin) genesis
    = (Returns topics0, w0)
    /\ _map_groups_into_topics committed_reply watermark_reply
                               (_list_groups_metadata admin) topics0 w0
       = (Returns topics, w).
Proof.
  unfold all. intros Hrun. apply bind_returns in Hrun.
  destruct Hrun as (topics0 & w0 & H1 & H2). eauto.
Qed.

Lemma combine_snoc {A B : Type} (xs : list A) (ys : list B) x y :
  List.length xs = List.length ys ->
  combine (xs ++ [x]) (ys ++ [y]) = combine xs ys ++ [(x, y)].
Proof.
  revert ys. induction xs as [|x' xs IH]; intros [|y' ys] Hlen;
    try discriminate; simpl; [reflexivity|].
  rewrite IH; [reflexivity|]. simpl in Hlen. congruence.
Qed.

Lemma combine_in_left {A B : Type} (xs : list A) (ys : list B) x :
  List.length xs = List.length ys ->
  In x xs -> exists y, In (x, y) (combine xs ys).
Proof.
  revert ys. induction xs as [|x' xs IH]; intros [|y' ys] Hlen Hin;
    try discriminate; simpl in *; [destruct Hin|].
  destruct Hin as [->|Hin]; [eauto|].
  destruct (IH ys) as (y & Hy); [congruence|exact Hin|eauto].
Qed.

Lemma request_for_same topic topic' :
  Topic.name topic' = Topic.name topic ->
  Topic.partitions topic' = Topic.partitions topic ->
  request_for topic' = request_for topic.
Proof. unfold request_for. intros -> ->. reflexivity. Qed.

Lemma group_mapped_more tr tr' group_metadata h topic0 topic topic' :
  (forall ev, In ev tr -> In ev tr') ->
  (forall group, In group (Topic.groups topic) -> In group (Topic.groups topic')) ->
  group_mapped committed_reply watermark_reply tr group_metadata h topic0 topic ->
  group_mapped committed_reply watermark_reply tr' group_metadata h topic0 topic'.
Proof.
  intros Htr Hgroups (reply & Hreply & Hev & Hlook & Hgroup).
  exists reply. splits; auto.
  - intros tp ev Htp Hoff Hin. apply Htr. eapply Hlook; eassumption.
  - intros Hany. destruct (Hgroup Hany) as (group & Hin & Hfetched).
    exists group. auto.
Qed.

Lemma group_attached_mapped group_metadata h topics1 topic0 topic1 topic2 tr :
  Topic.name topic1 = Topic.name topic0 ->
  Topic.partitions topic1 = Topic.partitions topic0 ->
  In topic1 topics1 ->
  group_attached committed_reply watermark_reply group_metadata h topic1 topic2 ->
  group_mapped committed_reply watermark_reply
               (tr ++ flat_map (fetch_events committed_reply watermark_reply h)
                               topics1)
               group_metadata h topic0 topic2.
Proof.
  intros Hname Hparts Hin (_ & _ & reply & Hreply & Hattached).
  pose proof (request_for_same _ _ Hname Hparts) as Hreq.
  assert (Hevents : forall ev,
             In ev (fetch_events committed_reply watermark_reply h topic1) ->
             In ev (tr ++ flat_map (fetch_events committed_reply watermark_reply h)
                                   topics1)).
  { intros ev Hev. apply in_app_iff. right. apply in_flat_map. eauto. }
  exists reply. rewrite <- Hreq, <- Hname. splits.
  - exact Hreply.
  - apply Hevents. unfold fetch_events. rewrite Hreply. left. reflexivity.
  - intros tp ev Htp Hoff Hev. apply Hevents. unfold fetch_events.
    rewrite Hreply. right. apply in_flat_map. exists tp. split; [|exact Hev].
    apply filter_In. auto.
  - intros Hany. rewrite Hany in Hattached.
    destruct Hattached as (group & Hgroups & Hfetched).
    exists group. split; [|exact Hfetched].
    rewrite Hgroups. apply in_app_iff. right. left. reflexivity.
Qed.

(** The group phase opens one handle for each described group, in their
    order, and maps each group through its handle into every topic. *)
Lemma group_phase_complete groups_metadata topics0 w0 topics w :
  _map_groups_into_topics committed_reply watermark_reply groups_metadata topics0 w0
  = (Returns topics, w) ->
  exists handles,
    List.length handles = List.length groups_metadata
    /\ (forall group_metadata h,
           In (group_metadata, h) (combine groups_metadata handles) ->
           handle_group_id h = ConsumerGroupDescription.group_id group_metadata
           /\ In (NewConsumer h) (trace w))
    /\ Forall2 (fun kt0 kt =>
                  fst kt = fst kt0
                  /\ Topic.name (snd kt) = Topic.name (snd kt0)
                  /\ Topic.partitions (snd kt) = Topic.partitions (snd kt0)
                  /\ forall group_metadata h,
                      In (group_metadata, h) (combine groups_metadata handles) ->
                      group_mapped committed_reply watermark_reply (trace w)
                                   group_metadata h (snd kt0) (snd kt))
               topics0 topics.
Proof.
  intros Hrun. unfold _map_groups_into_topics in Hrun.
  pose (P := fun (done : list ConsumerGroupDescription.t)
                 (topics : Dict.t Topic.t) (w : World) =>
               exists handles,
                 List.length handles = List.length done
                 /\ (forall group_metadata h,
                        In (group_metadata, h) (combine done handles) ->
                        handle_group_id h
                        = ConsumerGroupDescription.group_id group_metadata
                        /\ In (NewConsumer h) (trace w))
                 /\ Forall2 (fun kt0 kt =>
                               fst kt = fst kt0
                               /\ Topic.name (snd kt) = Topic.name (snd kt0)
                               /\ Topic.partitions (snd kt)
                                  = Topic.partitions (snd kt0)
                               /\ forall group_metadata h,
                                   In (group_metadata, h) (combine done handles) ->
                                   group_mapped committed_reply watermark_reply
                                                (trace w) group_metadata h
                                                (snd kt0) (snd kt))
                            topics0 topics).
  change (P ([] ++ groups_metadata) topics w).
  eapply (for_each_returns P); [| |exact Hrun].
  - intros before gm acc w1 acc' w1' (handles & Hlen & Hhandles & Hall) _ Hbody.
    simpl app in *.
    apply bind_returns in Hbody. destruct Hbody as (h & w2 & Hnew & Hvalues).
    unfold Consumer in Hnew. inversion Hnew; subst w2; clear Hnew.
    set (h0 := {| handle_id := consumers w1;
                  handle_group_id := ConsumerGroupDescription.group_id gm |}) in *.
    assert (h = h0) by (subst h0; congruence). subst h.
    apply for_values_returns in Hvalues. destruct Hvalues as [-> Hstep].
    assert (Hmore : forall ev, In ev (trace w1) ->
                               In ev ((trace w1 ++ [NewConsumer h0])
                                        ++ flat_map (fetch_events committed_reply
                                                                  watermark_reply h0)
                                                    (Dict.values acc))).
    { intros ev Hev. apply in_app_iff. left. apply in_app_iff. left. exact Hev. }
    exists (handles ++ [h0]). rewrite !length_app, combine_snoc by congruence.
    simpl. splits.
    + lia.
    + intros gm' h' Hin. apply in_app_iff in Hin. destruct Hin as [Hin|[Heq|[]]].
      * destruct (Hhandles gm' h' Hin) as [Hgid Hopened]. auto.
      * inversion Heq; subst gm' h'. split; [reflexivity|].
        apply in_app_iff. left. apply in_app_iff. right. left. reflexivity.
    + eapply Forall2_chain; [exact Hall|exact Hstep|].
      intros kt0 kt1 kt2 Hin1 (Hk1 & Hname1 & Hparts1 & Hmapped1) (Hk2 & Hattached).
      pose proof Hattached as (Hname2 & Hparts2 & reply & _ & Hgroups).
      splits; try congruence.
      intros gm' h' Hin. apply in_app_iff in Hin. destruct Hin as [Hin|[Heq|[]]].
      * eapply group_mapped_more; [exact Hmore| |exact (Hmapped1 gm' h' Hin)].
        intros group Hg. destruct (existsb has_offset reply).
        -- destruct Hgroups as (group' & -> & _). apply in_app_iff. auto.
        -- rewrite Hgroups. exact Hg.
      * inversion Heq; subst gm' h'.
        apply group_attached_mapped with (topic1 := snd kt1); auto.
        unfold Dict.values. apply in_map. exact Hin1.
  - exists []. simpl. splits; [reflexivity|intros gm h []|].
    clear. induction topics0 as [|kt rest IH]; constructor; [|exact IH].
    splits; try reflexivity. intros gm h [].
Qed.

(** In a snapshot, every described group has a handle with its id,
    through which it is mapped into every topic of the snapshot. *)
Lemma snapshot_groups_mapped admin topics w :
  all uuid4 committed_reply watermark_reply admin genesis = (Returns topics, w) ->
  forall group_metadata,
    In group_metadata (_list_groups_metadata admin) ->
    exists h,
      handle_group_id h = ConsumerGroupDescription.group_id group_metadata
      /\ In (NewConsumer h) (trace w)
      /\ forall name topic,
          In (name, topic) topics ->
          group_mapped committed_reply watermark_reply (trace w)
                       group_metadata h topic topic.
Proof.
  intros Hrun gm Hgm.
  destruct (all_phases admin Hrun) as (topics0 & w0 & _ & Hgroups).
  apply group_phase_complete in Hgroups.
  destruct Hgroups as (handles & Hlen & Hhandles & Hall).
  destruct (@combine_in_left _ _ (_list_groups_metadata admin) handles gm
                             (eq_sym Hlen) Hgm) as (h & Hpair).
  destruct (Hhandles gm h Hpair) as [Hgid Hopened].
  exists h. splits; auto.
  intros name topic Hin.
  destruct (Forall2_in_right _ Hall Hin) as ([k0 topic0] & _ & _ & Hname & Hparts & Hmapped).
  simpl in Hname, Hparts, Hmapped.
  destruct (Hmapped gm h Hpair) as (reply & Hreply & Hev & Hlook & Hgroup).
  exists reply. rewrite (request_for_same _ _ Hname Hparts), Hname. auto.
Qed.

(** C1.  In a snapshot that [all] returns, a group stands in a topic's
    [groups] exactly when a fetch of the committed offsets of that
    topic's partitions, through a handle with the group's id, returned a
    partition whose offset is not [OFFSET_INVALID]; no [GroupPartition]
    of the snapshot holds the sentinel, and the [GroupPartition]s of a
    group are the partitions of its fetch that hold an offset.  And the
    fetches are made: for every described group a handle with its id is
    opened, the committed offsets of the partitions of every topic of the
    snapshot are fetched through it, and where such a fetch returned a
    partition with an offset, the group stands in that topic's [groups]
    with the partitions of the fetch that hold an offset. *)
Theorem snapshot_group_iff_committed_offset admin topics w :
  all uuid4 committed_reply watermark_reply admin genesis = (Returns topics, w) ->
  (forall name topic,
    In (name, topic) topics ->
    (forall group_id,
        (exists group, In group (Topic.groups topic) /\ Group.id group = group_id)
        <-> (exists h reply tp,
                In (Committed h (request_for topic) (Returns reply)) (trace w)
                /\ handle_group_id h = group_id
                /\ In tp reply
                /\ TopicPartition.offset tp <> OFFSET_INVALID))
    /\ (forall group group_partition,
           In group (Topic.groups topic) ->
           In group_partition (Group.partitions group) ->
           GroupPartition.offset group_partition <> OFFSET_INVALID)
    /\ (forall group,
           In group (Topic.groups topic) ->
           exists h reply,
             In (Committed h (request_for topic) (Returns reply)) (trace w)
             /\ handle_group_id h = Group.id group
             /\ map (fun gp => (GroupPartition.id gp, GroupPartition.offset gp))
                    (Group.partitions group)
                = map (fun tp => (TopicPartition.partition tp,
                                  TopicPartition.offset tp))
                      (filter (fun tp => negb (TopicPartition.offset tp
                                               =? OFFSET_INVALID))
                              reply)))
  /\ (forall group_metadata,
         In group_metadata (_list_groups_metadata admin) ->
         exists h,
           handle_group_id h = ConsumerGroupDescription.group_id group_metadata
           /\ In (NewConsumer h) (trace w)
           /\ forall name topic,
               In (name, topic) topics ->
               exists reply,
                 committed_reply h (request_for topic) = Returns reply
                 /\ In (Committed h (request_for topic) (Returns reply)) (trace w)
                 /\ ((exists tp,
                         In tp reply
                         /\ TopicPartition.offset tp <> OFFSET_INVALID) ->
                     exists group,
                       In group (Topic.groups topic)
                       /\ Group.id group
                          = ConsumerGroupDescription.group_id group_metadata
                       /\ map (fun gp => (GroupPartition.id gp,
                                          GroupPartition.offset gp))
                              (Group.partitions group)
                          = map (fun tp => (TopicPartition.partition tp,
                                            TopicPartition.offset tp))
                                (filter (fun tp => negb (TopicPartition.offset tp
                                                         =? OFFSET_INVALID))
                                        reply))).
Proof.
  intros Hrun. split.
  { intros name topic Hin.
  destruct (snapshot_topic admin name topic Hrun Hin)
    as (topic_evs & group_evs & Htr & Hnf & Hsound & Hcomplete & _).
  splits.
  - intros gid. split.
    + intros (group & Hg & Hid).
      destruct (Hsound group Hg)
        as (gm & h & reply & _ & _ & Hgid & Hev & Hany & (Hid' & _) & _).
      apply existsb_has_offset in Hany. destruct Hany as (tp & Htp & Hoff).
      exists h, reply, tp. splits; auto.
      * rewrite Htr. apply in_app_iff. auto.
      * congruence.
    + intros (h & reply & tp & Hev & Hgid & Htp & Hoff).
      rewrite Htr in Hev. apply in_app_iff in Hev. destruct Hev as [Hev|Hev].
      * rewrite Forall_forall in Hnf. specialize (Hnf _ Hev). discriminate.
      * destruct (Hcomplete h reply Hev) as (group & Hg & Hid).
        { apply existsb_has_offset. eauto. }
        exists group. split; [exact Hg|congruence].
  - intros group gp Hg Hgp.
    destruct (Hsound group Hg)
      as (gm & h & reply & _ & _ & _ & _ & _ & (_ & Hparts & _) & _).
    rewrite Hparts in Hgp. apply in_map_iff in Hgp.
    destruct Hgp as (tp & <- & Htp). apply filter_In in Htp.
    simpl. apply has_offset_true. tauto.
  - intros group Hg.
    destruct (Hsound group Hg)
      as (gm & h & reply & _ & _ & Hgid & Hev & _ & (Hid & Hparts & _) & _).
    exists h, reply. splits.
    + rewrite Htr. apply in_app_iff. auto.
    + congruence.
    + rewrite Hparts, map_map. reflexivity. }
  intros gm Hgm.
  destruct (snapshot_groups_mapped admin Hrun gm Hgm) as (h & Hgid & Hopened & Hmapped).
  exists h. splits; auto.
  intros name topic Hin.
  destruct (Hmapped name topic Hin) as (reply & Hreply & Hev & _ & Hgroup).
  exists reply. splits; auto.
  intros Hany. apply existsb_has_offset in Hany.
  destruct (Hgroup Hany) as (group & Hg & Hid & Hparts & _).
  exists group. splits; auto.
  rewrite Hparts, map_map. reflexivity.
Qed.

(** C4, as amended.  A member attached to a topic's group comes from a
    member of the described group; its [assignment] holds the partitions
    of the member's full assignment whose topic is this topic, be they
    among [topic.partitions] or not, and is not empty; every member with
    such a partition is attached.  Where these partitions are all among
    the partition ids of [topic.partitions], the [assignment] is the
    intersection with them. *)
Theorem snapshot_member_assignment admin topics w :
  all uuid4 committed_reply watermark_reply admin genesis = (Returns topics, w) ->
  forall name topic group,
    In (name, topic) topics ->
    In group (Topic.groups topic) ->
    exists group_metadata,
      In group_metadata (_list_groups_metadata admin)
      /\ ConsumerGroupDescription.group_id group_metadata = Group.id group
      /\ (forall member,
             In member (Group.members group) ->
             GroupMember.assignment member <> []
             /\ exists member_metadata,
                 In member_metadata (ConsumerGroupDescription.members group_metadata)
                 /\ GroupMember.id member
                    = MemberDescription.member_id member_metadata
                 /\ GroupMember.assignment member
                    = map TopicPartition.partition
                          (filter (fun tp => String.eqb (Topic.name topic)
                                                        (TopicPartition.topic tp))
                                  (MemberDescription.assignment member_metadata))
                 /\ ((forall p,
                         In p (GroupMember.assignment member) ->
                         In p (map Partition.id (Topic.partitions topic))) ->
                     GroupMember.assignment member
                     = assignment_within topic member_metadata))
      /\ (forall member_metadata,
             In member_metadata (ConsumerGroupDescription.members group_metadata) ->
             member_partitions (Topic.name topic) member_metadata <> [] ->
             In (new_member group_metadata member_metadata
                            (member_partitions (Topic.name topic) member_metadata))
                (Group.members group)).
Proof.
  intros Hrun name topic group Hin Hg.
  destruct (snapshot_topic admin name topic Hrun Hin)
    as (topic_evs & group_evs & _ & _ & Hsound & _ & _).
  destruct (Hsound group Hg)
    as (gm & h & reply & Hgm & _ & _ & _ & _ & (Hid & _ & Hmembers) & _).
  exists gm. splits; auto.
  - intros member Hm. rewrite Hmembers in Hm. apply in_flat_map in Hm.
    destruct Hm as (mm & Hmm & Hm). cbv zeta in Hm.
    destruct (0 <? Py.len (member_partitions (Topic.name topic) mm)) eqn:Hlen;
      [|destruct Hm].
    destruct Hm as [<-|[]]. simpl. split.
    + intros Hnil. rewrite Hnil in Hlen. discriminate.
    + exists mm. splits; auto.
      intros Hinside. unfold assignment_within. symmetry.
      apply forallb_filter_id. apply forallb_forall. intros p Hp.
      apply existsb_exists. exists p. split; [|apply Z.eqb_refl].
      apply Hinside. exact Hp.
  - intros mm Hmm Hne. rewrite Hmembers. apply in_flat_map. exists mm.
    split; [exact Hmm|].
    assert (Hpos : (0 <? Py.len (member_partitions (Topic.name topic) mm)) = true).
    { apply Z.ltb_lt. unfold Py.len.
      destruct (member_partitions (Topic.name topic) mm); [contradiction|].
      simpl List.length. lia. }
    cbv zeta. rewrite Hpos. left. reflexivity.
Qed.


(** C5, as amended.  The trace of a snapshot falls into two stretches.
    In the first, every watermark lookup of a topic partition goes
    through a handle of its own, created for it.  In the second, one
    handle is created per described group, with the group's id; every
    fetch of committed offsets and every watermark lookup of that stretch
    goes through one of these handles; the handle of a group fetches the
    committed offsets of every topic, and the watermarks of the partitions
    of a group attached to a topic are looked up through the handle that
    fetched them. *)
Theorem snapshot_one_consumer_per_group admin topics w :
  all uuid4 committed_reply watermark_reply admin genesis = (Returns topics, w) ->
  exists topic_evs group_evs,
    trace w = topic_evs ++ group_evs
    /\ handle_per_lookup topic_evs
    /\ map handle_group_id (created group_evs)
       = map ConsumerGroupDescription.group_id (_list_groups_metadata admin)
    /\ NoDup (created group_evs)
    /\ (forall h, In h (lookup_handles group_evs) -> In h (created group_evs))
    /\ (forall h name topic,
           In h (created group_evs) -> In (name, topic) topics ->
           exists reply, In (Committed h (request_for topic) reply) group_evs)
    /\ (forall name topic group,
           In (name, topic) topics -> In group (Topic.groups topic) ->
           exists h reply,
             In h (created group_evs)
             /\ handle_group_id h = Group.id group
             /\ In (Committed h (request_for topic) (Returns reply)) group_evs
             /\ (forall tp,
                    In tp reply -> TopicPartition.offset tp <> OFFSET_INVALID ->
                    In (GetWatermarkOffsets h tp (watermark_reply h tp)) group_evs)).
Proof.
  intros Hrun. apply all_returns in Hrun.
  destruct Hrun as (topics0 & topic_evs & group_evs & Htr & Hfresh & Hnf & Htopics & _
                    & Hgids & Hids & Hused & Hcross & Hall).
  exists topic_evs, group_evs. splits; auto.
  - split; [apply Hfresh|]. apply (fresh_from_NoDup Hfresh).
  - apply (NoDup_map_inv handle_id). rewrite Hids. apply seq_NoDup.
  - intros h name topic Hh Hin.
    destruct (Forall2_in_right _ Hall Hin) as ([k0 topic0] & Hin0 & _ & Hgrown).
    simpl in Hgrown. destruct Hgrown as (Hname & Hparts & _).
    exists (committed_reply h (request_for topic0)).
    replace (request_for topic) with (request_for topic0)
      by (unfold request_for; rewrite Hname, Hparts; reflexivity).
    apply Hcross; [exact Hh|].
    apply in_map_iff. exists (k0, topic0). auto.
  - intros name topic group Hin Hg.
    destruct (Forall2_in_right _ Hall Hin) as ([k0 topic0] & Hin0 & Hk & Hgrown).
    simpl in Hk, Hgrown. subst k0.
    destruct Hgrown as (Hname & Hparts & groups & Hgroups & Hsound & _).
    destruct (Htopics name topic0 Hin0) as (Hnone & _).
    rewrite Hnone in Hgroups. simpl in Hgroups. rewrite Hgroups in Hg.
    destruct (Hsound group Hg)
      as (gm & h & reply & _ & Hh & Hgid & Hev & _ & (Hid & _) & Hlook).
    exists h, reply. splits; auto.
    + congruence.
    + replace (request_for topic) with (request_for topic0)
        by (unfold request_for; rewrite Hname, Hparts; reflexivity).
      exact Hev.
    + intros tp Htp Hoff. apply (Hlook tp); [exact Htp| |].
      * apply has_offset_true. exact Hoff.
      * unfold lookup_events. left. reflexivity.
Qed.

(** [all] returns unless a fetch of committed offsets raises or a lookup
    raises something else than [KafkaException]. *)
Lemma all_total admin :
  (forall h request, exists reply, committed_reply h request = Returns reply) ->
  (forall h tp what, watermark_reply h tp <> Throws (OtherException what)) ->
  exists topics w,
    all uuid4 committed_reply watermark_reply admin genesis = (Returns topics, w).
Proof.
  intros Hfetch Hkafka. unfold all, bind at 1.
  destruct (_map_topics_total (_list_topics_metadata admin) genesis Hkafka)
    as (topics0 & w0 & ->).
  unfold _map_groups_into_topics. apply for_each_total.
  intros gm topics1 w1 _. unfold bind at 1, Consumer.
  generalize {| trace := trace w1 ++
                  [NewConsumer {| handle_id := consumers w1;
                                  handle_group_id :=
                                    ConsumerGroupDescription.group_id gm |}];
                consumers := S (consumers w1); uuids := uuids w1 |} as w2.
  generalize {| handle_id := consumers w1;
                handle_group_id := ConsumerGroupDescription.group_id gm |} as h.
  intros h. induction topics1 as [|[k topic] topics1 IH]; intros w2.
  - simpl. unfold ret. eauto.
  - cbn [for_values]. unfold bind at 1.
    assert (Hbody : exists topic' w3,
               group_into_topic committed_reply watermark_reply gm h topic w2
               = (Returns topic', w3)).
    { unfold group_into_topic, bind at 1. rewrite committed_runs.
      destruct (Hfetch h (request_for topic)) as (reply & ->).
      unfold bind at 1.
      edestruct (@for_each_total Group.t TopicPartition.t) as (group & w3 & ->).
      - intros tp g w4 _. cbv beta zeta.
        destruct (TopicPartition.offset tp =? OFFSET_INVALID);
          [unfold ret; eauto|].
        unfold bind at 1. rewrite guarded_lookup.
        destruct (watermark_reply h tp) as [[low high]|[e|what]] eqn:Hrep.
        + simpl. unfold ret. eauto.
        + simpl. unfold ret. eauto.
        + exfalso. exact (Hkafka _ _ _ Hrep).
      - destruct (0 <? Py.len (Group.partitions group)); unfold ret; eauto. }
    destruct Hbody as (topic' & w3 & ->).
    unfold bind at 1. destruct (IH w3) as (rest & w4 & ->).
    unfold ret. eauto.
Qed.

(** C8.  A watermark lookup that raises [KafkaException] leaves
    [(0, 0)] and logs the exception, in [_get_watermarks] and for a group
    partition alike.  If no fetch of committed offsets raises and no
    lookup raises anything else, the snapshot is returned whatever the
    lookups do; it holds every listed topic with every partition of its
    metadata, and for every partition with a committed offset of an
    attached group a [GroupPartition]; the watermarks are those of the
    lookup or [(0, 0)] with the exception logged.  No group partition is
    lost to a failed lookup: for every described group and every topic,
    every partition for which the fetch through the group's handle
    returned an offset has its [GroupPartition] in the snapshot, in a
    group of that id, with the watermarks of its lookup or [(0, 0)] with
    the exception logged. *)
Theorem snapshot_survives_watermark_failures :
  (forall topic_metadata partition_metadata w e,
      watermark_reply (scoped_handle uuid4 w)
                      (TopicPartition.new (TopicMetadata.topic topic_metadata)
                                          (PartitionMetadata.id partition_metadata))
      = Throws (KafkaException e) ->
      exists w',
        _get_watermarks uuid4 watermark_reply topic_metadata partition_metadata w
        = (Returns (0, 0), w')
        /\ In (LoggerException e) (trace w'))
  /\ (forall admin,
         (forall h request, exists reply, committed_reply h request = Returns reply) ->
         (forall h tp what, watermark_reply h tp <> Throws (OtherException what)) ->
         exists topics w,
           all uuid4 committed_reply watermark_reply admin genesis
           = (Returns topics, w)
           /\ (forall topic_metadata,
                  In topic_metadata (list_topics admin) ->
                  In (TopicMetadata.topic topic_metadata) (Dict.keys topics))
           /\ (forall name topic,
                  In (name, topic) topics ->
                  exists topic_metadata,
                    In topic_metadata (list_topics admin)
                    /\ name = TopicMetadata.topic topic_metadata
                    /\ Forall2
                         (fun partition_metadata partition =>
                            exists h,
                              let tp :=
                                TopicPartition.new
                                  (TopicMetadata.topic topic_metadata)
                                  (PartitionMetadata.id partition_metadata) in
                              In (GetWatermarkOffsets h tp (watermark_reply h tp))
                                 (trace w)
                              /\ Partition.id partition
                                 = PartitionMetadata.id partition_metadata
                              /\ match watermark_reply h tp with
                                 | Returns (low, high) =>
                                     Partition.low partition = low
                                     /\ Partition.high partition = high
                                 | Throws (KafkaException e) =>
                                     Partition.low partition = 0
                                     /\ Partition.high partition = 0
                                     /\ In (LoggerException e) (trace w)
                                 | Throws (OtherException _) => False
                                 end)
                         (TopicMetadata.partitions topic_metadata)
                         (Topic.partitions topic))
           /\ (forall name topic group,
                  In (name, topic) topics ->
                  In group (Topic.groups topic) ->
                  exists h reply,
                    In (Committed h (request_for topic) (Returns reply)) (trace w)
                    /\ handle_group_id h = Group.id group
                    /\ Forall2
                         (fun tp group_partition =>
                            In (GetWatermarkOffsets h tp (watermark_reply h tp))
                               (trace w)
                            /\ GroupPartition.id group_partition
                               = TopicPartition.partition tp
                            /\ GroupPartition.offset group_partition
                               = TopicPartition.offset tp
                            /\ match watermark_reply h tp with
                               | Returns (low, high) =>
                                   GroupPartition.low group_partition = low
                                   /\ GroupPartition.high group_partition = high
                               | Throws (KafkaException e) =>
                                   GroupPartition.low group_partition = 0
                                   /\ GroupPartition.high group_partition = 0
                                   /\ In (LoggerException e) (trace w)
                               | Throws (OtherException _) => False
                               end)
                         (filter (fun tp => negb (TopicPartition.offset tp
                                                  =? OFFSET_INVALID))
                                 reply)
                         (Group.partitions group))
           /\ (forall group_metadata,
                  In group_metadata (_list_groups_metadata admin) ->
                  exists h,
                    handle_group_id h
                    = ConsumerGroupDescription.group_id group_metadata
                    /\ forall name topic,
                        In (name, topic) topics ->
                        exists reply,
                          committed_reply h (request_for topic) = Returns reply
                          /\ In (Committed h (request_for topic) (Returns reply))
                                (trace w)
                          /\ forall tp,
                              In tp reply ->
                              TopicPartition.offset tp <> OFFSET_INVALID ->
                              exists group group_partition,
                                In group (Topic.groups topic)
                                /\ Group.id group
                                   = ConsumerGroupDescription.group_id
                                       group_metadata
                                /\ In group_partition (Group.partitions group)
                                /\ GroupPartition.id group_partition
                                   = TopicPartition.partition tp
                                /\ GroupPartition.offset group_partition
                                   = TopicPartition.offset tp
                                /\ In (GetWatermarkOffsets h tp
                                         (watermark_reply h tp))
                                      (trace w)
                                /\ match watermark_reply h tp with
                                   | Returns (low, high) =>
                                       GroupPartition.low group_partition = low
                                       /\ GroupPartition.high group_partition
                                          = high
                                   | Throws (KafkaException e) =>
                                       GroupPartition.low group_partition = 0
                                       /\ GroupPartition.high group_partition = 0
                                       /\ In (LoggerException e) (trace w)
                                   | Throws (OtherException _) => False
                                   end)).
Proof.
  split.
  - intros tm pm w e Hrep. rewrite _get_watermarks_runs. cbv zeta. rewrite Hrep.
    eexists. split; [reflexivity|]. simpl.
    apply in_app_iff. right. right. unfold lookup_events. rewrite Hrep.
    right. left. reflexivity.
  - intros admin Hfetch Hkafka.
    destruct (all_total admin Hfetch Hkafka) as (topics & w & Hrun).
    exists topics, w. split; [exact Hrun|].
    assert (Hkeys : forall topic_metadata,
               In topic_metadata (list_topics admin) ->
               In (TopicMetadata.topic topic_metadata) (Dict.keys topics)).
    { pose proof (all_returns admin Hrun) as Hall.
      destruct Hall as (topics0 & topic_evs & group_evs & _ & _ & _ & _ & Hkeys0 & _
                        & _ & _ & _ & Hall).
      intros tm Htm. specialize (Hkeys0 tm Htm).
      unfold Dict.keys in *. apply in_map_iff in Hkeys0.
      destruct Hkeys0 as ([k0 topic0] & Hk & Hin0). simpl in Hk. subst k0.
      destruct (Forall2_in_left _ Hall Hin0) as ([k topic] & Hin & Hk & _).
      simpl in Hk. subst k. apply in_map_iff. exists (TopicMetadata.topic tm, topic).
      auto. }
    splits; [exact Hkeys| | |].
    + intros name topic Hin.
      destruct (snapshot_topic admin name topic Hrun Hin)
        as (topic_evs & group_evs & Htr & _ & _ & _ & tm & Htm & Hname & _ & Hlooked).
      exists tm. splits; auto.
      eapply Forall2_impl; [|exact Hlooked].
      intros pm p (h & _ & Hlook & -> & Hlog). exists h. cbv zeta. splits.
      * rewrite Htr. apply in_app_iff. auto.
      * reflexivity.
      * destruct (watermark_reply h _) as [[low high]|[e|what]] eqn:Hrep; simpl.
        -- auto.
        -- splits; auto. rewrite Htr. apply in_app_iff. left. apply Hlog. reflexivity.
        -- exact (Hkafka _ _ _ Hrep).
    + intros name topic group Hin Hg.
      destruct (snapshot_topic admin name topic Hrun Hin)
        as (topic_evs & group_evs & Htr & _ & Hsound & _ & _).
      destruct (Hsound group Hg)
        as (gm & h & reply & _ & _ & Hgid & Hev & _ & (Hid & Hparts & _) & Hlook).
      exists h, reply. splits.
      * rewrite Htr. apply in_app_iff. auto.
      * congruence.
      * rewrite Hparts. apply Forall2_map_right. intros tp Htp.
        apply filter_In in Htp. destruct Htp as [Htp Hoff].
        assert (Hin' : forall ev, In ev (lookup_events watermark_reply h tp) ->
                                  In ev (trace w)).
        { intros ev Hev'. rewrite Htr. apply in_app_iff. right.
          apply (Hlook tp ev Htp Hoff Hev'). }
        splits; try reflexivity.
        -- apply Hin'. left. reflexivity.
        -- unfold lookup_events in Hin'.
           destruct (watermark_reply h tp) as [[low high]|[e|what]] eqn:Hrep; simpl.
           ++ auto.
           ++ splits; auto. apply Hin'. right. left. reflexivity.
           ++ exact (Hkafka _ _ _ Hrep).
    + intros gm Hgm.
      destruct (snapshot_groups_mapped admin Hrun gm Hgm) as (h & Hgid & _ & Hmapped).
      exists h. split; [exact Hgid|].
      intros name topic Hin.
      destruct (Hmapped name topic Hin) as (reply & Hreply & Hev & Hlook & Hgroup).
      exists reply. splits; auto.
      intros tp Htp Hsome.
      assert (Hoff : has_offset tp = true) by (apply has_offset_true; exact Hsome).
      destruct Hgroup as (group & Hg & Hid & Hparts & _).
      { apply existsb_exists. eauto. }
      exists group,
             (new_group_partition gm tp (or_zero (watermark_reply h tp))).
      assert (Hin' : forall ev, In ev (lookup_events watermark_reply h tp) ->
                                In ev (trace w)).
      { intros ev Hev'. apply (Hlook tp ev Htp Hoff Hev'). }
      splits; auto.
      * rewrite Hparts.
        apply (in_map (fun tp => new_group_partition
                                   gm tp (or_zero (watermark_reply h tp)))).
        apply filter_In. auto.
      * apply Hin'. left. reflexivity.
      * unfold lookup_events in Hin'.
        destruct (watermark_reply h tp) as [[low high]|[e|what]] eqn:Hrep; simpl.
        -- auto.
        -- splits; auto. apply Hin'. right. left. reflexivity.
        -- exact (Hkafka _ _ _ Hrep).
Qed.

End Facts.

(** ** The claims at concrete snapshots *)

Section Scenarios.
Import SnapshotScenario.

(** The scenario of the topic [orders]: the group [g1] has committed
    offset 7 on partition 0 and nothing on partition 1, so it is attached
    with the one [GroupPartition] of partition 0. *)
Example snapshot_orders :
  topics_of snapshot = [("orders", orders_topic)]
  /\ exists group,
      Topic.groups orders_topic = [group]
      /\ Group.id group = "g1"
      /\ Group.partitions group
         = [ {| GroupPartition.id := 0; GroupPartition.topic := "orders";
                GroupPartition.offset := 7; GroupPartition.group := "g1";
                GroupPartition.high := 10; GroupPartition.low := 0 |} ].
Proof.
  split; [vm_compute; reflexivity|]. eexists. splits; vm_compute; reflexivity.
Qed.

Lemma snapshot_group_iff_committed_offset_witness :
  In g1 (_list_groups_metadata (cluster [orders]))
  /\ (exists h reply tp,
         In (NewConsumer h) (trace (snd snapshot))
         /\ In (Committed h (request_for orders_topic) (Returns reply))
               (trace (snd snapshot))
         /\ handle_group_id h = "g1"
         /\ In tp reply
         /\ TopicPartition.offset tp = 7)
  /\ (exists group,
         In group (Topic.groups orders_topic)
         /\ Group.id group = "g1"
         /\ map (fun gp => (GroupPartition.id gp, GroupPartition.offset gp))
                (Group.partitions group)
            = [(0, 7)]).
Proof.
  assert (Hrun : all uuid4 committed_reply watermark_reply (cluster [orders]) genesis
                 = (Returns (topics_of snapshot), snd snapshot))
    by (vm_compute; reflexivity).
  assert (Hin : In ("orders", orders_topic) (topics_of snapshot))
    by (vm_compute; left; reflexivity).
  assert (Hg1 : In g1 (_list_groups_metadata (cluster [orders])))
    by (left; reflexivity).
  destruct (@snapshot_group_iff_committed_offset
              uuid4 committed_reply watermark_reply (cluster [orders])
              (topics_of snapshot) (snd snapshot) Hrun)
    as [_ Hmade].
  destruct (Hmade g1 Hg1) as (h & Hgid & Hopened & Hfetched).
  destruct (Hfetched "orders" orders_topic Hin) as (reply & Hreply & Hev & Hgroup).
  vm_compute in Hreply. injection Hreply as Hreply. subst reply.
  split; [exact Hg1|]. split.
  - exists h. do 2 eexists. split; [exact Hopened|]. split; [exact Hev|].
    split; [exact Hgid|]. split; [left; reflexivity|reflexivity].
  - destruct Hgroup as (group & Hg & Hid & Hparts).
    + eexists. split; [left; reflexivity|]. vm_compute. discriminate.
    + exists group. split; [exact Hg|]. split; [exact Hid|exact Hparts].
Defined.

(** C4 as stated fails: the member [m2] of [g1] is assigned partition 7
    of [orders], which is not among the partitions 0 and 1 that the topic
    holds.  It is attached with the assignment [[7]], while the
    intersection of its assignment with the topic's partition ids is
    empty. *)
Lemma snapshot_member_outside_topic_partitions :
  In ("orders", orders_topic) (topics_of snapshot)
  /\ map Partition.id (Topic.partitions orders_topic) = [0; 1]
  /\ (exists group attached,
         In group (Topic.groups orders_topic)
         /\ In attached (Group.members group)
         /\ GroupMember.id attached = MemberDescription.member_id m2
         /\ GroupMember.assignment attached = [7]
         /\ GroupMember.assignment attached <> assignment_within orders_topic m2)
  /\ assignment_within orders_topic m2 = [].
Proof.
  split; [vm_compute; left; reflexivity|].
  split; [vm_compute; reflexivity|].
  split; [|vm_compute; reflexivity].
  do 2 eexists.
  split; [left; reflexivity|]. split; [right; left; reflexivity|].
  splits; try reflexivity. discriminate.
Qed.

Lemma snapshot_member_assignment_witness :
  exists group_metadata,
    In group_metadata (_list_groups_metadata (cluster [orders]))
    /\ forall name topic group attached,
        In (name, topic) (topics_of snapshot) ->
        In group (Topic.groups topic) ->
        In attached (Group.members group) ->
        GroupMember.assignment attached <> [].
Proof.
  exists g1. split; [left; reflexivity|].
  intros name topic group attached Hin Hg Hm.
  assert (Hrun : all uuid4 committed_reply watermark_reply (cluster [orders]) genesis
                 = (Returns (topics_of snapshot), snd snapshot))
    by (vm_compute; reflexivity).
  destruct (@snapshot_member_assignment
              uuid4 committed_reply watermark_reply (cluster [orders])
              (topics_of snapshot) (snd snapshot) Hrun name topic group Hin Hg)
    as (gm & _ & _ & Hmembers & _).
  exact (proj1 (Hmembers attached Hm)).
Defined.

(** C5 as stated fails: in the snapshot of [orders] and [payments] the
    second stretch of the trace (what follows the three lookups of the
    topic partitions, six events) creates the one handle of [g1], and
    both fetches and both lookups go through it. *)
Lemma snapshot_group_handle_shared :
  created (skipn 6 (trace (snd snapshot2))) = [g1_handle]
  /\ lookup_handles (skipn 6 (trace (snd snapshot2)))
     = [g1_handle; g1_handle; g1_handle; g1_handle]
  /\ ~ handle_per_lookup (skipn 6 (trace (snd snapshot2)))
  /\ ~ handle_per_lookup (trace (snd snapshot2)).
Proof.
  splits; try (vm_compute; reflexivity).
  - intros [Heq _]. vm_compute in Heq. discriminate.
  - intros [Heq _]. vm_compute in Heq. discriminate.
Qed.

Lemma snapshot_one_consumer_per_group_witness :
  exists topic_evs group_evs,
    trace (snd snapshot2) = topic_evs ++ group_evs
    /\ handle_per_lookup topic_evs
    /\ map handle_group_id (created group_evs) = ["g1"].
Proof.
  assert (Hrun : all uuid4 committed_reply watermark_reply
                     (cluster [payments; orders]) genesis
                 = (Returns (topics_of snapshot2), snd snapshot2))
    by (vm_compute; reflexivity).
  destruct (@snapshot_one_consumer_per_group
              uuid4 committed_reply watermark_reply (cluster [payments; orders])
              (topics_of snapshot2) (snd snapshot2) Hrun)
    as (topic_evs & group_evs & Htr & Hper & Hgids & _).
  exists topic_evs, group_evs. splits; auto.
Defined.

(** With every watermark lookup failing, the snapshot of [orders] is
    returned all the same, with [(0, 0)] in its three watermark pairs and
    three exceptions logged. *)
Example snapshot_degraded :
  exists topic group,
    topics_of degraded = [("orders", topic)]
    /\ map (fun p => (Partition.id p, Partition.low p, Partition.high p))
           (Topic.partitions topic)
       = [(0, 0, 0); (1, 0, 0)]
    /\ Topic.groups topic = [group]
    /\ map (fun gp => (GroupPartition.id gp, GroupPartition.offset gp,
                       GroupPartition.low gp, GroupPartition.high gp))
           (Group.partitions group)
       = [(0, 7, 0, 0)]
    /\ filter (fun ev => match ev with LoggerException _ => true | _ => false end)
              (trace (snd degraded))
       = [LoggerException timed_out; LoggerException timed_out;
          LoggerException timed_out].
Proof. do 2 eexists. splits; vm_compute; reflexivity. Qed.

Lemma snapshot_survives_watermark_failures_witness :
  exists topics w,
    all uuid4 committed_reply failing_watermark_reply (cluster [orders]) genesis
    = (Returns topics, w)
    /\ In "orders" (Dict.keys topics)
    /\ exists topic group group_partition,
        In ("orders", topic) topics
        /\ In group (Topic.groups topic)
        /\ Group.id group = "g1"
        /\ In group_partition (Group.partitions group)
        /\ GroupPartition.id group_partition = 0
        /\ GroupPartition.offset group_partition = 7
        /\ GroupPartition.low group_partition = 0
        /\ GroupPartition.high group_partition = 0
        /\ In (LoggerException timed_out) (trace w).
Proof.
  destruct (proj2 (@snapshot_survives_watermark_failures
                     uuid4 committed_reply failing_watermark_reply)
                  (cluster [orders]))
    as (topics & w & Hrun & Hkeys & Hlisted & _ & Hkept).
  - intros h request. eexists. reflexivity.
  - intros h tp what. discriminate.
  - exists topics, w. split; [exact Hrun|].
    assert (Hkey : In "orders" (Dict.keys topics))
      by (apply (Hkeys orders); left; reflexivity).
    split; [exact Hkey|].
    unfold Dict.keys in Hkey. apply in_map_iff in Hkey.
    destruct Hkey as ([name topic] & Hname & Hin). simpl in Hname. subst name.
    destruct (Hlisted "orders" topic Hin) as (tm & Htm & _ & Hpartitions).
    destruct Htm as [<-|[]].
    inversion Hpartitions as [|pm0 p0 pms ps (_ & _ & Hid0 & _) Hrest Hpms Hps].
    clear Hpartitions.
    inversion Hrest as [|pm1 p1 pms' ps' (_ & _ & Hid1 & _) Hnil Hpms' Hps'].
    inversion Hnil. subst.
    destruct (Hkept g1) as (h & Hgid & Hfetched); [left; reflexivity|].
    destruct (Hfetched "orders" topic Hin) as (reply & Hreply & _ & Hkept_partitions).
    unfold committed_reply, request_for in Hreply.
    rewrite <- Hps in Hreply. cbn [map TopicPartition.new TopicPartition.partition
                                       TopicPartition.topic] in Hreply.
    rewrite Hid0 in Hreply. cbn in Hreply.
    injection Hreply as Hreply.
    destruct (Hkept_partitions
                {| TopicPartition.topic := Topic.name topic;
                   TopicPartition.partition := 0;
                   TopicPartition.offset := 7 |})
      as (group & group_partition & Hg & Hid & Hgp & Hpid & Hoff & _ & Hlow & Hhigh & Hlog).
    + rewrite <- Hreply. left. reflexivity.
    + cbn. discriminate.
    + exists topic, group, group_partition.
      split; [exact Hin|]. split; [exact Hg|]. split; [exact Hid|].
      split; [exact Hgp|]. split; [exact Hpid|]. split; [exact Hoff|].
      split; [exact Hlow|]. split; [exact Hhigh|exact Hlog].
Defined.

End Scenarios.

End SnapshotFacts.

(** * More about [ConsumerService.consume] and [_match_header] *)

Module ConsumeMore.
Import Kafka ConsumerService ConsumeFacts.

Section Facts.

Variables Format Deserializer : Type.
Variable models : Models Format Deserializer.

#[local] Abbreviation Record_ := (Record_ Format Deserializer).
#[local] Abbreviation Locals := (Locals Format Deserializer).

(** ** The substring test *)

Lemma prefix_occurs needle hay :
  String.prefix needle hay = true <-> exists after, hay = (needle ++ after)%string.
Proof.
  revert hay. induction needle as [|c needle IH]; intros hay.
  - split; [intros _; exists hay; reflexivity|intros _; destruct hay; reflexivity].
  - destruct hay as [|d hay]; simpl.
    + split; [discriminate|intros (after & H); discriminate].
    + destruct (ascii_dec c d) as [->|Hne].
      * rewrite IH. split; intros (after & H); exists after.
        -- rewrite H. reflexivity.
        -- inversion H. reflexivity.
      * split; [discriminate|]. intros (after & H). inversion H. congruence.
Qed.

Lemma str_in_occurs needle hay :
  Py.str_in needle hay = true <-> Py.occurs_in needle hay.
Proof.
  unfold Py.occurs_in. induction hay as [|d hay IH]; cbn [Py.str_in].
  - rewrite orb_false_r, prefix_occurs. split.
    + intros (after & H). exists EmptyString, after. exact H.
    + intros (before & after & H). destruct before as [|b before]; [|discriminate].
      exists after. exact H.
  - rewrite orb_true_iff, prefix_occurs, IH. split.
    + intros [(after & H)|(before & after & H)].
      * exists EmptyString, after. exact H.
      * exists (String d before), after. simpl. rewrite H. reflexivity.
    + intros (before & after & H). destruct before as [|b before].
      * left. exists after. exact H.
      * right. inversion H. exists before, after. reflexivity.
Qed.

(** ** What a page holds *)

Lemma page_of_next self filters n :
  page_of models self filters (S n)
  = page_of models self filters n ++ kept models self filters (consumer self n).
Proof.
  unfold page_of. rewrite seq_S, flat_map_app. simpl. rewrite app_nil_r. reflexivity.
Qed.

Lemma tracked_start self filters :
  tracked models self filters (start Format Deserializer).
Proof.
  unfold tracked, Py.len. simpl. repeat split; auto; try lia.
Qed.

Lemma tracked_step self filters l next :
  tracked models self filters l ->
  Py.len (records l) < page_size self ->
  loop_body models self filters l = Continue next ->
  tracked models self filters next.
Proof.
  intros (Hpage & Hbounds & Hsilent & _ & _) Hlen Hbody.
  destruct (loop_body_continue models self filters l Hbody)
    as [(Hnone & ->)|(m & date & Hsome & He & Hdate & ->)];
    unfold tracked, after_silence, after_record; cbn [records retries polls].
  - rewrite page_of_next, Hnone. cbn [kept]. rewrite app_nil_r.
    split; [exact Hpage|]. split; [lia|]. split; [|split; [right; exact Hlen|lia]].
    intros i Hfrom Hi. destruct (Nat.eq_dec i (polls l)) as [->|Hne]; [exact Hnone|].
    apply Hsilent; lia.
  - rewrite page_of_next, Hsome. unfold kept. rewrite He, Hdate.
    set (record := make_record models self m date).
    destruct (skipped models filters record) eqn:Hskip.
    + rewrite app_nil_r. split; [exact Hpage|]. split; [lia|].
      split; [intros i Hfrom Hi; lia|]. split; [left; reflexivity|lia].
    + split; [rewrite Hpage; reflexivity|]. split; [lia|].
      split; [intros i Hfrom Hi; lia|]. split; [left; reflexivity|].
      intros Hfull Hpos. exists (polls l), record.
      rewrite Hsome, He, Hdate. fold record. rewrite Hskip, Hpage.
      repeat split; auto.
      unfold Py.len in *. rewrite <- Hpage, length_app in *. cbn [List.length] in *. lia.
Qed.

(** Where a call that returns has stopped. *)
Lemma consume_stops self filters fuel page n :
  consume models self filters fuel = Some (Returned page, n) ->
  exists l,
    tracked models self filters l
    /\ page = records l /\ n = polls l
    /\ (page_size self <= Py.len (records l)
        \/ (Py.len (records l) < page_size self
            /\ max_retries self <= retries l)).
Proof.
  intros Hrun.
  destruct (while_loop_stops models (tracked models self filters) self filters
              (fun l next HP Hlen Hbody => tracked_step HP Hlen Hbody)
              fuel _ (tracked_start self filters) Hrun)
    as (l & Htracked & _ & [(Hfull & Hout & Hn)|[(Hshort & Hbody & Hout & Hn)
                                                |(_ & e & last & _ & Hout & _)]]);
    try discriminate; inversion Hout; subst page n; exists l;
    (split; [exact Htracked|]); (split; [reflexivity|]); (split; [reflexivity|]).
  - left. exact Hfull.
  - right. split; [exact Hshort|].
    pose proof (loop_body_pass models self filters l) as Hpass.
    rewrite Hbody in Hpass. inversion Hpass. assumption.
Qed.

(** X1.  A returned page holds, in the order of the polls, exactly the
    records of the messages polled in the call that carry no error and
    that no filter rejects, each with its formatted date: nothing polled
    is lost and nothing else is returned; so a page is never longer than
    the number of polls. *)
Theorem consume_page_is_kept_records self filters fuel page n :
  consume models self filters fuel = Some (Returned page, n) ->
  page = page_of models self filters n
  /\ (forall record,
         In record page
         <-> exists i record_metadata date,
             (i < n)%nat
             /\ consumer self i = Some record_metadata
             /\ Message.error record_metadata = None
             /\ date_of models record_metadata = Returns date
             /\ record = make_record models self record_metadata date
             /\ skipped models filters record = false)
  /\ (List.length page <= n)%nat.
Proof.
  intros Hrun. destruct (consume_stops self filters fuel Hrun)
    as (l & (Hpage & _) & -> & -> & _).
  split; [exact Hpage|]. rewrite Hpage. clear. split.
  - intros record. unfold page_of. rewrite in_flat_map. split.
    + intros (i & Hi & Hin). apply in_seq in Hi. unfold kept in Hin.
      destruct (consumer self i) as [m|] eqn:Hsome; [|destruct Hin].
      destruct (Message.error m) eqn:He; [destruct Hin|].
      destruct (date_of models m) as [date|ex] eqn:Hdate; [|destruct Hin].
      destruct (skipped models filters (make_record models self m date)) eqn:Hskip;
        [destruct Hin|].
      destruct Hin as [<-|[]]. exists i, m, date. repeat split; auto. lia.
    + intros (i & m & date & Hi & Hsome & He & Hdate & -> & Hskip). exists i. split.
      * apply in_seq. lia.
      * unfold kept. rewrite Hsome, He, Hdate, Hskip. left. reflexivity.
  - induction (polls l) as [|k IH]; [simpl; lia|].
    rewrite page_of_next, length_app. unfold kept.
    destruct (consumer self k) as [m|]; [|simpl; lia].
    destruct (Message.error m); [simpl; lia|].
    destruct (date_of models m) as [date|ex]; [|simpl; lia].
    destruct (skipped models filters (make_record models self m date)); simpl; lia.
Qed.

(** X2.  A page shorter than [page_size] is returned only when the
    counter has run out: the call has made at least [max_retries] polls
    and its last [max_retries] polls were all empty. *)
Theorem consume_short_page_after_silence self filters fuel page n :
  consume models self filters fuel = Some (Returned page, n) ->
  Py.len page < page_size self ->
  max_retries self <= Z.of_nat n
  /\ (forall i,
         Z.of_nat n - max_retries self <= Z.of_nat i -> (i < n)%nat ->
         consumer self i = None).
Proof.
  intros Hrun Hshort. destruct (consume_stops self filters fuel Hrun)
    as (l & (_ & Hbounds & Hsilent & _) & -> & -> & [Hfull|(_ & Hout)]); [lia|].
  split; [lia|]. intros i Hfrom Hi. apply Hsilent; lia.
Qed.

(** X3.  With a positive [page_size], a page that is not short has
    exactly [page_size] records, and the call stopped with the poll that
    delivered the last of them: no message is polled once the page is
    full. *)
Theorem consume_stops_when_page_is_full self filters fuel page n :
  consume models self filters fuel = Some (Returned page, n) ->
  0 < page_size self ->
  page_size self <= Py.len page ->
  Py.len page = page_size self
  /\ exists k record,
      n = S k
      /\ kept models self filters (consumer self k) = [record]
      /\ page = page_of models self filters k ++ [record].
Proof.
  intros Hrun Hpos Hfull. destruct (consume_stops self filters fuel Hrun)
    as (l & (_ & _ & _ & _ & Hlast) & -> & -> & _).
  destruct (Hlast Hfull Hpos) as (k & record & Hn & Hkept & Hpage & Hlen).
  split; [exact Hlen|]. exists k, record. auto.
Qed.

(** ** One page after another *)

Lemma loop_body_with_page_size self filters page_size l :
  loop_body models (with_page_size self page_size) filters l
  = loop_body models self filters l.
Proof. reflexivity. Qed.

(** A call that fills its page of [p1] records is the beginning of a call
    for a longer page. *)
Lemma while_loop_prefix self filters p1 p page1 n1 :
  p1 <= p ->
  p1 <= Py.len page1 ->
  forall fuel l,
    Py.len (records l) < p1 ->
    while_loop models (with_page_size self p1) filters fuel l
    = Some (Returned page1, n1) ->
    forall fuel' r,
      while_loop models (with_page_size self p) filters fuel'
                 {| records := page1; retries := 0; polls := n1 |} = Some r ->
      while_loop models (with_page_size self p) filters (fuel + fuel') l = Some r.
Proof.
  intros Hp Hfull. induction fuel as [|fuel IH]; intros l Hlen Hrun fuel' r Hrest;
    [discriminate|].
  cbn [while_loop Nat.add] in *. cbn [ConsumerService.page_size with_page_size] in *.
  rewrite loop_body_with_page_size in *.
  replace (Py.len (records l) <? p1) with true in Hrun by lia.
  replace (Py.len (records l) <? p) with true by lia.
  pose proof (loop_body_pass models self filters l) as Hpass.
  destruct (loop_body models self filters l) as [next|last|e last] eqn:Hbody.
  - destruct (Z.ltb_spec (Py.len (records next)) p1) as [Hnext|Hnext].
    + exact (IH next Hnext Hrun fuel' r Hrest).
    + destruct fuel as [|fuel]; [discriminate|].
      cbn [while_loop] in Hrun. cbn [ConsumerService.page_size with_page_size] in Hrun.
      replace (Py.len (records next) <? p1) with false in Hrun by lia.
      inversion Hrun; subst page1 n1. clear Hrun.
      assert (Hzero : retries next = 0).
      { destruct (loop_body_continue models self filters l Hbody)
          as [(_ & ->)|(m & date & _ & _ & _ & ->)];
          [simpl in Hnext; lia|reflexivity]. }
      replace next with {| records := records next; retries := 0;
                           polls := polls next |}
        by (destruct next; simpl in Hzero; subst; reflexivity).
      replace (S fuel + fuel')%nat with (fuel' + S fuel)%nat by lia.
      apply while_loop_more_fuel. exact Hrest.
  - inversion Hpass; subst. inversion Hrun; subst. lia.
  - discriminate.
Qed.

(** The next call, seen from the call for the longer page. *)
Lemma loop_body_advance self filters page1 n1 p2 p l :
  match loop_body models (with_page_size (advance self n1) p2) filters l with
  | Continue next =>
      loop_body models (with_page_size self p) filters
                {| records := page1 ++ records l; retries := retries l;
                   polls := n1 + polls l |}
      = Continue {| records := page1 ++ records next; retries := retries next;
                    polls := n1 + polls next |}
  | Break last =>
      loop_body models (with_page_size self p) filters
                {| records := page1 ++ records l; retries := retries l;
                   polls := n1 + polls l |}
      = Break {| records := page1 ++ records last; retries := retries last;
                 polls := n1 + polls last |}
  | Raise e last =>
      loop_body models (with_page_size self p) filters
                {| records := page1 ++ records l; retries := retries l;
                   polls := n1 + polls l |}
      = Raise e {| records := page1 ++ records last; retries := retries last;
                   polls := n1 + polls last |}
  end.
Proof.
  unfold loop_body. cbn [max_retries consumer with_page_size advance records retries polls].
  change (make_record models (with_page_size (advance self n1) p2))
    with (make_record models self).
  change (make_record models (with_page_size self p))
    with (make_record models self).
  destruct (max_retries self <=? retries l); [reflexivity|].
  destruct (consumer self (n1 + polls l)) as [m|];
    [|cbn [records retries polls]; rewrite Nat.add_succ_r; reflexivity].
  destruct (Message.error m);
    [cbn [records retries polls]; rewrite Nat.add_succ_r; reflexivity|].
  destruct (date_of models m) as [date|ex];
    [|cbn [records retries polls]; rewrite Nat.add_succ_r; reflexivity].
  destruct (partition_skips filters (make_record models self m date));
    [cbn [records retries polls]; rewrite Nat.add_succ_r; reflexivity|].
  destruct (key_skips models filters (make_record models self m date));
    [cbn [records retries polls]; rewrite Nat.add_succ_r; reflexivity|].
  destruct (value_skips models filters (make_record models self m date));
    [cbn [records retries polls]; rewrite Nat.add_succ_r; reflexivity|].
  destruct (header_skips models filters (make_record models self m date));
    [cbn [records retries polls]; rewrite Nat.add_succ_r; reflexivity|].
  cbn [records retries polls]. rewrite Nat.add_succ_r, app_assoc. reflexivity.
Qed.

Lemma while_loop_advance self filters page1 n1 p2 :
  forall fuel l out n,
    while_loop models (with_page_size (advance self n1) p2) filters fuel l
    = Some (out, n) ->
    while_loop models (with_page_size self (Py.len page1 + p2)) filters fuel
               {| records := page1 ++ records l; retries := retries l;
                  polls := n1 + polls l |}
    = Some (continue_page page1 out, (n1 + n)%nat).
Proof.
  induction fuel as [|fuel IH]; intros l out n Hrun; [discriminate|].
  cbn [while_loop] in *. cbn [ConsumerService.page_size with_page_size advance] in *.
  cbn [records].
  replace (Py.len (page1 ++ records l) <? Py.len page1 + p2)
    with (Py.len (records l) <? p2)
    by (unfold Py.len; rewrite length_app;
        destruct (Z.ltb_spec (Z.of_nat (List.length (records l))) p2);
        symmetry; [apply Z.ltb_lt|apply Z.ltb_ge]; lia).
  destruct (Py.len (records l) <? p2).
  - pose proof (loop_body_advance self filters page1 n1 p2
                                  (Py.len page1 + p2) l) as Hbody.
    destruct (loop_body models (with_page_size (advance self n1) p2) filters l)
      as [next|last|e last]; rewrite Hbody.
    + apply IH. exact Hrun.
    + inversion Hrun; subst. reflexivity.
    + inversion Hrun; subst. reflexivity.
  - inversion Hrun; subst. reflexivity.
Qed.

(** X4.  Pages compose: a call that fills a page of [p1 > 0] records,
    followed by a call for [p2 >= 0] records on the polls that come next,
    gives what one call for [p1 + p2] records gives: the two pages one
    after the other and the polls of both, or the exception of the second
    call. *)
Theorem consume_pages_compose self filters p1 p2 fuel1 fuel2 page1 n1 out2 n2 :
  0 < p1 ->
  0 <= p2 ->
  consume models (with_page_size self p1) filters fuel1
  = Some (Returned page1, n1) ->
  Py.len page1 = p1 ->
  consume models (with_page_size (advance self n1) p2) filters fuel2
  = Some (out2, n2) ->
  consume models (with_page_size self (p1 + p2)) filters (fuel1 + fuel2)
  = Some (continue_page page1 out2, (n1 + n2)%nat).
Proof.
  intros Hpos Hp2 Hfirst Hfull Hsecond. unfold consume in *.
  apply while_loop_advance with (page1 := page1) in Hsecond.
  cbn [records retries polls start] in Hsecond.
  rewrite app_nil_r, Nat.add_0_r, Hfull in Hsecond.
  assert (Hle : p1 <= p1 + p2) by lia.
  assert (Hreached : p1 <= Py.len page1) by lia.
  apply (while_loop_prefix self filters (n1 := n1) Hle Hreached fuel1
                           (start Format Deserializer));
    [unfold Py.len; simpl; lia|exact Hfirst|exact Hsecond].
Qed.

(** ** What the filters let through *)

Lemma match_header_iff header_filter headers :
  _match_header models header_filter (Some headers) = true
  <-> exists header,
      In header headers
      /\ Py.occurs_in header_filter (header_value_str models header).
Proof.
  unfold _match_header. rewrite existsb_exists.
  split; intros (h & Hin & Hocc); exists h; (split; [exact Hin|]);
    apply str_in_occurs; exact Hocc.
Qed.

(** X5.  [_match_header] is false without headers, be it [None] or the
    empty list, whatever the filter; otherwise it is true exactly when
    the filter occurs in the display string of some header, so the empty
    filter matches every record that has a header. *)
Theorem match_header_some_header_holds_filter :
  (forall header_filter, _match_header models header_filter None = false)
  /\ (forall header_filter, _match_header models header_filter (Some []) = false)
  /\ (forall header_filter headers,
         _match_header models header_filter (Some headers) = true
         <-> exists header,
             In header headers
             /\ Py.occurs_in header_filter (header_value_str models header))
  /\ (forall headers,
         _match_header models "" (Some headers) = true <-> headers <> []).
Proof.
  split; [reflexivity|]. split; [reflexivity|].
  split; [exact match_header_iff|]. intros headers. split.
  - intros Hmatch ->. discriminate.
  - intros Hne. apply match_header_iff. destruct headers as [|h hs]; [contradiction|].
    exists h. split; [left; reflexivity|].
    exists EmptyString, (header_value_str models h). reflexivity.
Qed.

(** X6.  A record is kept exactly when every active filter holds of it:
    the partition is the one asked for, and each non-empty key, value or
    header filter occurs in the key's or the value's display string, or
    in that of one of the headers. *)
Theorem record_kept_iff_filters_hold filters (record : Record_) :
  skipped models filters record = false
  <-> (forall p, partition_filter filters = Some p -> record_partition record = p)
      /\ (forall f, key_filter filters = Some f -> f <> "" ->
                    Py.occurs_in f (key_str models record))
      /\ (forall f, value_filter filters = Some f -> f <> "" ->
                    Py.occurs_in f (value_str models record))
      /\ (forall f, header_filter filters = Some f -> f <> "" ->
                    exists header,
                      In header (record_headers record)
                      /\ Py.occurs_in f (header_value_str models header)).
Proof.
  unfold skipped, partition_skips, key_skips, value_skips, header_skips.
  rewrite !orb_false_iff.
  assert (Hstr : forall (filter : option string) (found : string -> bool)
                        (holds : string -> Prop),
             (forall f, found f = true <-> holds f) ->
             (if Py.truthy filter
              then match filter with
                   | Some f => negb (found f)
                   | None => false
                   end
              else false) = false
             <-> (forall f, filter = Some f -> f <> "" -> holds f)).
  { intros filter found holds Hfound.
    destruct filter as [[|c f]|]; simpl.
    - split; [intros _ f Hf Hne; inversion Hf; subst; contradiction|reflexivity].
    - rewrite negb_false_iff, Hfound. split.
      + intros Hholds f' Hf _. inversion Hf; subst. exact Hholds.
      + intros Hall. apply Hall; [reflexivity|discriminate].
    - split; [intros _ f Hf; discriminate|reflexivity]. }
  rewrite (Hstr (key_filter filters) (fun f => Py.str_in f (key_str models record))
                (fun f => Py.occurs_in f (key_str models record)))
    by (intros; apply str_in_occurs).
  rewrite (Hstr (value_filter filters)
                (fun f => Py.str_in f (value_str models record))
                (fun f => Py.occurs_in f (value_str models record)))
    by (intros; apply str_in_occurs).
  rewrite (Hstr (header_filter filters)
                (fun f => _match_header models f (Some (record_headers record)))
                (fun f => exists header,
                          In header (record_headers record)
                          /\ Py.occurs_in f (header_value_str models header)))
    by (intros; apply match_header_iff).
  assert (Hpart : match partition_filter filters with
                  | Some p => negb (record_partition record =? p)
                  | None => false
                  end = false
                  <-> (forall p, partition_filter filters = Some p ->
                                 record_partition record = p)).
  { destruct (partition_filter filters) as [p|].
    - rewrite negb_false_iff, Z.eqb_eq. split.
      + intros Heq p' Hp. inversion Hp; subst. reflexivity.
      + intros Hall. apply Hall. reflexivity.
    - split; [intros _ p Hp; discriminate|reflexivity]. }
  rewrite Hpart. tauto.
Qed.

End Facts.

(** ** The properties at concrete calls *)

Section Scenarios.
Import Scenario.

Lemma consume_page_is_kept_records_witness :
  alternating_page
  = page_of plain_models (service 5 3 alternating) (only_partition 1) 8
  /\ (List.length alternating_page <= 8)%nat.
Proof.
  assert (Hrun : ConsumerService.consume plain_models (service 5 3 alternating)
                                         (only_partition 1) 9
                 = Some (Returned alternating_page, 8%nat))
    by (vm_compute; reflexivity).
  destruct (consume_page_is_kept_records
              plain_models (service 5 3 alternating) (only_partition 1) 9 Hrun)
    as (Hpage & _ & Hlen).
  split; [exact Hpage|exact Hlen].
Defined.

Lemma consume_short_page_after_silence_witness :
  consumer (service 5 3 alternating) 5 = None
  /\ consumer (service 5 3 alternating) 6 = None
  /\ consumer (service 5 3 alternating) 7 = None.
Proof.
  assert (Hrun : ConsumerService.consume plain_models (service 5 3 alternating)
                                         (only_partition 1) 9
                 = Some (Returned alternating_page, 8%nat))
    by (vm_compute; reflexivity).
  assert (Hshort : Py.len alternating_page < page_size (service 5 3 alternating))
    by (vm_compute; reflexivity).
  destruct (consume_short_page_after_silence
              plain_models (service 5 3 alternating) (only_partition 1) 9
              Hrun Hshort)
    as (_ & Hsilent).
  repeat split; apply Hsilent; simpl; lia.
Defined.

Lemma consume_stops_when_page_is_full_witness :
  Py.len first_two = page_size (service 2 3 alternating)
  /\ exists k record,
      2%nat = S k
      /\ kept plain_models (service 2 3 alternating) no_filters
              (consumer (service 2 3 alternating) k) = [record]
      /\ first_two
         = page_of plain_models (service 2 3 alternating) no_filters k ++ [record].
Proof.
  assert (Hrun : ConsumerService.consume plain_models (service 2 3 alternating)
                                         no_filters 3
                 = Some (Returned first_two, 2%nat))
    by (vm_compute; reflexivity).
  apply (consume_stops_when_page_is_full
           plain_models (service 2 3 alternating) no_filters 3 Hrun).
  - simpl. lia.
  - vm_compute. discriminate.
Defined.

Lemma consume_pages_compose_witness :
  ConsumerService.consume plain_models
    (with_page_size (service 2 3 alternating) (2 + 1)) no_filters (3 + 2)
  = Some (Returned (first_two ++ third), (2 + 1)%nat).
Proof.
  assert (Hfirst : ConsumerService.consume plain_models
                     (with_page_size (service 2 3 alternating) 2) no_filters 3
                   = Some (Returned first_two, 2%nat))
    by (vm_compute; reflexivity).
  assert (Hsecond : ConsumerService.consume plain_models
                      (with_page_size (advance (service 2 3 alternating) 2) 1)
                      no_filters 2
                    = Some (Returned third, 1%nat))
    by (vm_compute; reflexivity).
  apply (@consume_pages_compose
           unit unit plain_models (service 2 3 alternating) no_filters
           2 1 3 2 first_two 2%nat (Returned third) 1%nat).
  - lia.
  - lia.
  - exact Hfirst.
  - vm_compute. reflexivity.
  - exact Hsecond.
Defined.

End Scenarios.

End ConsumeMore.

(** * More about [TopicService] *)

Module SnapshotMore.
Import Kafka Models TopicService SnapshotFacts.

(** ** The order of the topics: [sorted] *)

Lemma ltb_lt a b : String.ltb a b = true <-> OrderedTypeEx.String_as_OT.lt a b.
Proof.
  unfold String.ltb. rewrite <- OrderedTypeEx.String_as_OT.cmp_lt.
  unfold OrderedTypeEx.String_as_OT.cmp.
  destruct (String.compare a b); split; intros H; congruence.
Qed.

Lemma ltb_trans a b c :
  String.ltb a b = true -> String.ltb b c = true -> String.ltb a c = true.
Proof.
  rewrite !ltb_lt. apply OrderedTypeEx.String_as_OT.lt_trans.
Qed.

Lemma ltb_leb a b : String.ltb b a = false <-> String.leb a b = true.
Proof.
  unfold String.ltb, String.leb. rewrite (String.compare_antisym a b).
  destruct (String.compare b a); simpl; split; intros H; congruence.
Qed.

Lemma leb_ltb_trans a b c :
  String.ltb a b = true -> String.leb b c = true -> String.leb a c = true.
Proof.
  intros Hab Hbc. apply ltb_leb. apply ltb_leb in Hbc.
  destruct (String.ltb c a) eqn:Hca; [|reflexivity].
  rewrite (ltb_trans _ _ _ Hca Hab) in Hbc. discriminate.
Qed.

Section Sorted.

Variable X : Type.
Variable key : X -> string.

#[local] Abbreviation ordered := (fun a b : X => String.leb (key a) (key b) = true).

Lemma insert_sorted_ordered x acc :
  StronglySorted ordered acc ->
  StronglySorted ordered (insert_sorted key x acc).
Proof.
  induction acc as [|y acc IH]; intros Hsorted; simpl.
  - repeat constructor.
  - apply StronglySorted_inv in Hsorted. destruct Hsorted as [Hacc Hy].
    destruct (String.ltb (key x) (key y)) eqn:Hlt.
    + constructor; [constructor; assumption|].
      constructor.
      * apply ltb_leb. apply ltb_leb.
        unfold String.leb, String.ltb in *.
        rewrite (String.compare_antisym (key x) (key y)).
        destruct (String.compare (key y) (key x)) eqn:Hc; simpl in *;
          try reflexivity.
        rewrite (String.compare_antisym (key x) (key y)), Hc in Hlt. discriminate.
      * rewrite Forall_forall in *. intros z Hz.
        apply (leb_ltb_trans _ _ _ Hlt). apply Hy. exact Hz.
    + constructor; [apply IH; exact Hacc|].
      rewrite Forall_forall in *. intros z Hz.
      apply insert_sorted_in in Hz. destruct Hz as [->|Hz].
      * apply ltb_leb. exact Hlt.
      * apply Hy. exact Hz.
Qed.

Lemma insert_sorted_permutation x acc :
  Permutation (insert_sorted key x acc) (x :: acc).
Proof.
  induction acc as [|y acc IH]; simpl; [reflexivity|].
  destruct (String.ltb (key x) (key y)); [reflexivity|].
  rewrite IH. apply perm_swap.
Qed.

(** An element goes behind those with its key that are there. *)
Lemma insert_sorted_stable k x acc :
  StronglySorted ordered acc ->
  filter (fun y => String.eqb (key y) k) (insert_sorted key x acc)
  = filter (fun y => String.eqb (key y) k) acc
    ++ (if String.eqb (key x) k then [x] else []).
Proof.
  induction acc as [|y acc IH]; intros Hsorted; simpl.
  - destruct (String.eqb (key x) k); reflexivity.
  - apply StronglySorted_inv in Hsorted. destruct Hsorted as [Hacc Hy].
    destruct (String.ltb (key x) (key y)) eqn:Hlt.
    + cbn [filter].
      destruct (String.eqb_spec (key x) k) as [Hx|Hx]; [|rewrite app_nil_r; reflexivity].
      assert (Hnone : filter (fun z => String.eqb (key z) k) (y :: acc) = []).
      { assert (Hall : forall z, In z (y :: acc) -> String.eqb (key z) k = false).
        { intros z Hz. apply String.eqb_neq. intros Hk.
          assert (Hle : String.leb (key y) (key z) = true).
          { destruct Hz as [->|Hz].
            - unfold String.leb.
              rewrite (proj2 (OrderedTypeEx.String_as_OT.cmp_eq _ _) eq_refl).
              reflexivity.
            - rewrite Forall_forall in Hy. apply Hy. exact Hz. }
          apply ltb_leb in Hle. congruence. }
        induction (y :: acc) as [|z zs IHzs]; [reflexivity|].
        simpl. rewrite (Hall z (or_introl eq_refl)).
        apply IHzs. intros z' Hz'. apply Hall. right. exact Hz'. }
      cbn [filter] in Hnone. rewrite Hnone. reflexivity.
    + cbn [filter]. rewrite (IH Hacc).
      destruct (String.eqb (key y) k); reflexivity.
Qed.

Lemma sorted_fold acc xs :
  StronglySorted ordered acc ->
  let result := fold_left (fun acc x => insert_sorted key x acc) xs acc in
  StronglySorted ordered result
  /\ Permutation result (acc ++ xs)
  /\ forall k,
      filter (fun y => String.eqb (key y) k) result
      = filter (fun y => String.eqb (key y) k) acc
        ++ filter (fun y => String.eqb (key y) k) xs.
Proof.
  revert acc. induction xs as [|x xs IH]; intros acc Hsorted; simpl.
  - rewrite app_nil_r. repeat split; auto. intros k. rewrite app_nil_r. reflexivity.
  - destruct (IH (insert_sorted key x acc) (insert_sorted_ordered x Hsorted))
      as (Hs & Hp & Hf).
    split; [exact Hs|]. split.
    + rewrite Hp, insert_sorted_permutation. apply Permutation_middle.
    + intros k. rewrite Hf, (insert_sorted_stable k x Hsorted), <- app_assoc.
      destruct (String.eqb (key x) k); reflexivity.
Qed.

End Sorted.

(** X7.  [_list_topics_metadata] hands back the listed topics, each as
    often as it is listed, in ascending order of their lower-cased
    names; topics whose names differ in case only keep the order in which
    the admin client listed them. *)
Theorem list_topics_metadata_sorted admin :
  Permutation (_list_topics_metadata admin) (list_topics admin)
  /\ StronglySorted
       (fun a b => String.leb (Py.lower (TopicMetadata.topic a))
                              (Py.lower (TopicMetadata.topic b)) = true)
       (_list_topics_metadata admin)
  /\ (forall lowered,
         filter (fun topic => String.eqb (Py.lower (TopicMetadata.topic topic)) lowered)
                (_list_topics_metadata admin)
         = filter (fun topic => String.eqb (Py.lower (TopicMetadata.topic topic))
                                           lowered)
                  (list_topics admin)).
Proof.
  unfold _list_topics_metadata, sorted.
  destruct (sorted_fold (fun topic => Py.lower (TopicMetadata.topic topic))
                        (list_topics admin) (SSorted_nil _))
    as (Hs & Hp & Hf).
  split; [exact Hp|]. split; [exact Hs|exact Hf].
Qed.

(** ** The dict of a snapshot *)

Lemma dict_set_keys_known {V : Type} (d : Dict.t V) k v :
  In k (Dict.keys d) -> Dict.keys (Dict.set d k v) = Dict.keys d.
Proof.
  unfold Dict.keys. induction d as [|[k' v'] d IH]; simpl; [intros []|].
  destruct (String.eqb_spec k' k) as [->|Hne]; [reflexivity|].
  intros [Heq|Hin]; [contradiction|]. simpl. rewrite (IH Hin). reflexivity.
Qed.

Lemma dict_set_keys_new {V : Type} (d : Dict.t V) k v :
  ~ In k (Dict.keys d) -> Dict.keys (Dict.set d k v) = Dict.keys d ++ [k].
Proof.
  unfold Dict.keys. induction d as [|[k' v'] d IH]; simpl; [reflexivity|].
  intros Hnot. destruct (String.eqb_spec k' k) as [->|Hne]; [tauto|].
  simpl. rewrite IH; [reflexivity|tauto].
Qed.

Lemma dict_set_keys_nodup {V : Type} (d : Dict.t V) k v :
  NoDup (Dict.keys d) -> NoDup (Dict.keys (Dict.set d k v)).
Proof.
  intros Hnodup. destruct (in_dec string_dec k (Dict.keys d)) as [Hin|Hnot].
  - rewrite dict_set_keys_known; assumption.
  - rewrite dict_set_keys_new by assumption.
    apply NoDup_app; [exact Hnodup|repeat constructor; intros []|].
    intros x Hx [<-|[]]. contradiction.
Qed.

Lemma dict_get_in {V : Type} (d : Dict.t V) k v :
  NoDup (Dict.keys d) -> In (k, v) d -> Dict.get d k = Some v.
Proof.
  unfold Dict.keys. induction d as [|[k' v'] d IH]; simpl; [intros _ []|].
  intros Hnodup Hin. apply NoDup_cons_iff in Hnodup. destruct Hnodup as [Hnot Hnodup].
  destruct Hin as [Heq|Hin].
  - inversion Heq; subst. rewrite String.eqb_refl. reflexivity.
  - destruct (String.eqb_spec k' k) as [->|Hne]; [|auto].
    exfalso. apply Hnot. apply in_map_iff. exists (k, v). auto.
Qed.

Lemma Forall2_same_keys {V : Type} (R : V -> V -> Prop) (d d' : Dict.t V) :
  Forall2 (fun kv kv' => fst kv' = fst kv /\ R (snd kv) (snd kv')) d d' ->
  Dict.keys d' = Dict.keys d.
Proof.
  unfold Dict.keys. induction 1 as [|kv kv' d d' [Hk _] _ IH]; simpl; congruence.
Qed.

Section Facts.

Variable uuid4 : nat -> string.
Variable committed_reply :
  Handle -> list TopicPartition.t -> Reply (list TopicPartition.t).
Variable watermark_reply : Handle -> TopicPartition.t -> Reply (Z * Z).

Lemma _map_topics_keys topics_metadata w0 topics w :
  _map_topics uuid4 watermark_reply topics_metadata w0 = (Returns topics, w) ->
  NoDup (Dict.keys topics).
Proof.
  intros Hrun. unfold _map_topics in Hrun.
  pose (P := fun (_ : list TopicMetadata.t) (topics : Dict.t Topic.t) (_ : World) =>
               NoDup (Dict.keys topics)).
  change (P ([] ++ topics_metadata) topics w).
  eapply (for_each_returns P); [| |exact Hrun].
  - intros before tm acc w1 acc' w1' HP _ Hbody. unfold P in *.
    apply bind_returns in Hbody. destruct Hbody as (topic & w2 & _ & Hret).
    unfold ret in Hret. inversion Hret; subst.
    rewrite dict_set_set. apply dict_set_keys_nodup. exact HP.
  - constructor.
Qed.

(** X8.  The dict that [all] returns has one entry per listed topic name
    and no other; looking a name up gives its entry; each [Topic] is
    stored under its own name, each of its [Partition]s names that topic,
    and its partitions are those of a listed topic of that name, in the
    order of the metadata, with leader, replicas and in-sync replicas as
    listed. *)
Theorem snapshot_is_keyed_by_topic_name admin topics w :
  all uuid4 committed_reply watermark_reply admin genesis = (Returns topics, w) ->
  NoDup (Dict.keys topics)
  /\ (forall name,
         In name (Dict.keys topics)
         <-> In name (map TopicMetadata.topic (list_topics admin)))
  /\ (forall name topic,
         In (name, topic) topics ->
         Dict.get topics name = Some topic
         /\ Topic.name topic = name
         /\ (forall partition,
                In partition (Topic.partitions topic) ->
                Partition.topic partition = name)
         /\ exists topic_metadata,
             In topic_metadata (list_topics admin)
             /\ TopicMetadata.topic topic_metadata = name
             /\ map (fun p => (Partition.id p, Partition.leader p,
                               Partition.replicas p, Partition.isrs p))
                    (Topic.partitions topic)
                = map (fun p => (PartitionMetadata.id p, PartitionMetadata.leader p,
                                 PartitionMetadata.replicas p,
                                 PartitionMetadata.isrs p))
                      (TopicMetadata.partitions topic_metadata)).
Proof.
  intros Hrun.
  destruct (all_phases uuid4 committed_reply watermark_reply admin Hrun) as (topics0 & w0 & Htopics & Hgroups).
  pose proof (_map_topics_keys _ _ Htopics) as Hnodup0.
  apply _map_groups_into_topics_returns in Hgroups.
  destruct Hgroups as (group_evs & _ & _ & _ & _ & _ & _ & Hall).
  assert (Hkeys : Dict.keys topics = Dict.keys topics0).
  { apply (Forall2_same_keys
             (topic_grown watermark_reply (_list_groups_metadata admin) group_evs)).
    exact Hall. }
  assert (Hnodup : NoDup (Dict.keys topics)) by (rewrite Hkeys; exact Hnodup0).
  split; [exact Hnodup|]. split.
  - intros name. split.
    + intros Hin. unfold Dict.keys in Hin. apply in_map_iff in Hin.
      destruct Hin as ([k topic] & <- & Hin).
      destruct (snapshot_topic uuid4 committed_reply watermark_reply
                               admin k topic Hrun Hin)
        as (_ & _ & _ & _ & _ & _ & tm & Htm & Hk & _).
      apply in_map_iff. exists tm. simpl. auto.
    + intros Hin. apply in_map_iff in Hin. destruct Hin as (tm & <- & Htm).
      rewrite Hkeys.
      apply _map_topics_returns in Htopics.
      destruct Htopics as (evs & _ & _ & _ & _ & _ & Hlisted).
      apply Hlisted. unfold _list_topics_metadata. apply sorted_in. exact Htm.
  - intros name topic Hin.
    destruct (snapshot_topic uuid4 committed_reply watermark_reply
                             admin name topic Hrun Hin)
      as (topic_evs & _ & _ & _ & _ & _ & tm & Htm & Hk & Hname & Hlooked).
    split; [apply dict_get_in; assumption|].
    split; [congruence|].
    assert (Hparts : forall partition,
               In partition (Topic.partitions topic) ->
               exists pm, In pm (TopicMetadata.partitions tm)
                          /\ exists low_high, partition = new_partition tm pm low_high).
    { intros partition Hp.
      destruct (Forall2_in_right _ Hlooked Hp) as (pm & Hpm & h & _ & _ & -> & _).
      exists pm. split; [exact Hpm|]. eexists. reflexivity. }
    split.
    + intros partition Hp. destruct (Hparts partition Hp) as (pm & _ & lh & ->).
      simpl. congruence.
    + exists tm. split; [exact Htm|]. split; [congruence|].
      clear Hparts. induction Hlooked as [|pm p pms ps (h & _ & _ & -> & _) _ IH];
        [reflexivity|].
      simpl. rewrite IH. reflexivity.
Qed.

(** X9.  With no consumer group listed, whatever a description of
    groups would hold, no topic of the snapshot has a group, no committed
    offsets are fetched, and every offset call is the lookup of a topic
    partition through a handle of its own. *)
Theorem snapshot_without_groups admin topics w :
  list_consumer_groups admin = [] ->
  all uuid4 committed_reply watermark_reply admin genesis = (Returns topics, w) ->
  (forall name topic, In (name, topic) topics -> Topic.groups topic = [])
  /\ Forall (fun ev => is_fetch ev = false) (trace w)
  /\ handle_per_lookup (trace w).
Proof.
  intros Hnone Hrun.
  assert (Hgms : _list_groups_metadata admin = []).
  { unfold _list_groups_metadata. rewrite Hnone. reflexivity. }
  pose proof (all_returns uuid4 committed_reply watermark_reply admin Hrun) as Hall.
  destruct Hall as (topics0 & topic_evs & group_evs & Htr & Hfresh & Hnf & Htopics & _
                    & Hgids & _ & Hused & _ & Hall).
  rewrite Hgms in *. simpl in Hgids. apply map_eq_nil in Hgids.
  assert (Hlookups : lookup_handles group_evs = []).
  { destruct (lookup_handles group_evs) as [|h hs] eqn:Hl; [reflexivity|].
    specialize (Hused h (or_introl eq_refl)). rewrite Hgids in Hused. destruct Hused. }
  splits.
  - intros name topic Hin.
    destruct (Forall2_in_right _ Hall Hin) as ([k0 topic0] & Hin0 & Hk & Hgrown).
    simpl in Hk, Hgrown. subst k0.
    destruct Hgrown as (_ & _ & groups & Hgroups & Hsound & _).
    destruct (Htopics name topic0 Hin0) as (Hnone0 & _).
    rewrite Hgroups, Hnone0. simpl.
    destruct groups as [|group groups]; [reflexivity|].
    destruct (Hsound group (or_introl eq_refl)) as (gm & _ & _ & [] & _).
  - rewrite Htr. apply Forall_app. split; [exact Hnf|].
    apply Forall_forall. intros ev Hev.
    destruct ev as [h|h request reply|h tp reply|e]; try reflexivity.
    exfalso.
    assert (Hin : In h (lookup_handles group_evs)).
    { unfold lookup_handles. apply in_flat_map.
      exists (Committed h request reply). split; [exact Hev|left; reflexivity]. }
    rewrite Hlookups in Hin. destruct Hin.
  - rewrite Htr. split.
    + rewrite lookup_handles_app, created_app, Hlookups, Hgids.
      destruct Hfresh as [Heq _]. rewrite Heq. reflexivity.
    + rewrite created_app, Hgids, app_nil_r. apply (fresh_from_NoDup Hfresh).
Qed.

(** X10.  A group of the snapshot has at least one [GroupPartition],
    and its [GroupPartition]s and its members carry the id of the
    group. *)
Theorem snapshot_group_is_consistent admin topics w :
  all uuid4 committed_reply watermark_reply admin genesis = (Returns topics, w) ->
  forall name topic group,
    In (name, topic) topics ->
    In group (Topic.groups topic) ->
    Group.partitions group <> []
    /\ (forall group_partition,
           In group_partition (Group.partitions group) ->
           GroupPartition.group group_partition = Group.id group)
    /\ (forall member,
           In member (Group.members group) ->
           GroupMember.group member = Group.id group).
Proof.
  intros Hrun name topic group Hin Hg.
  destruct (snapshot_topic uuid4 committed_reply watermark_reply
                           admin name topic Hrun Hin)
    as (topic_evs & group_evs & _ & _ & Hsound & _).
  destruct (Hsound group Hg)
    as (gm & h & reply & _ & _ & _ & _ & Hany & (Hid & Hparts & Hmembers) & _).
  splits.
  - rewrite Hparts. apply existsb_exists in Hany. destruct Hany as (tp & Htp & Hoff).
    intros Hnil. apply map_eq_nil in Hnil.
    assert (Hin' : In tp (filter has_offset reply)) by (apply filter_In; auto).
    rewrite Hnil in Hin'. destruct Hin'.
  - intros gp Hgp. rewrite Hparts in Hgp. apply in_map_iff in Hgp.
    destruct Hgp as (tp & <- & _). simpl. congruence.
  - intros member Hm. rewrite Hmembers in Hm. apply in_flat_map in Hm.
    destruct Hm as (mm & _ & Hm). cbv zeta in Hm.
    destruct (0 <? Py.len (member_partitions (Topic.name topic) mm)); [|destruct Hm].
    destruct Hm as [<-|[]]. simpl. congruence.
Qed.

(** ** What the group phase does to a dict of topics *)

Lemma groups_appended_step done group_metadata h topic0 topic1 topic2 :
  groups_appended done topic0 topic1 ->
  group_attached committed_reply watermark_reply group_metadata h topic1 topic2 ->
  groups_appended (done ++ [group_metadata]) topic0 topic2.
Proof.
  intros (Hname & Hparts & groups & Hgroups & Hlen & Hids & Hnodup)
         (Hname' & Hparts' & reply & _ & Hattached).
  unfold groups_appended. rewrite Hname', Hparts', Hname, Hparts.
  split; [reflexivity|]. split; [reflexivity|].
  rewrite map_app, length_app. simpl.
  destruct (existsb has_offset reply).
  - destruct Hattached as (group & Hgroups' & Hid & _).
    exists (groups ++ [group]). splits.
    + rewrite Hgroups', Hgroups, app_assoc. reflexivity.
    + rewrite length_app. simpl. lia.
    + intros group' Hin. apply in_app_iff in Hin. apply in_app_iff.
      destruct Hin as [Hin|[<-|[]]]; [left; auto|right; left; congruence].
    + intros Hnd. rewrite map_app. simpl.
      apply NoDup_remove in Hnd. rewrite app_nil_r in Hnd. destruct Hnd as [Hnd Hnew].
      apply NoDup_app; [auto|repeat constructor; intros []|].
      intros id Hin [<-|[]]. apply Hnew. rewrite <- Hid.
      apply in_map_iff in Hin. destruct Hin as (group' & Heq & Hin).
      rewrite <- Heq. auto.
  - exists groups. splits.
    + congruence.
    + lia.
    + intros group' Hin. apply in_app_iff. left. auto.
    + intros Hnd. apply NoDup_remove in Hnd. rewrite app_nil_r in Hnd. tauto.
Qed.

Lemma groups_appended_refl topic : groups_appended [] topic topic.
Proof.
  split; [reflexivity|]. split; [reflexivity|]. exists []. splits.
  - rewrite app_nil_r. reflexivity.
  - simpl. lia.
  - intros group [].
  - intros _. constructor.
Qed.

Lemma Forall2_refl_on {A : Type} (R : A -> A -> Prop) (xs : list A) :
  (forall x, R x x) -> Forall2 R xs xs.
Proof. intros HR. induction xs; constructor; auto. Qed.

Lemma group_phase groups_metadata topics0 w0 topics w :
  _map_groups_into_topics committed_reply watermark_reply groups_metadata topics0 w0
  = (Returns topics, w) ->
  uuids w = uuids w0
  /\ Forall2 (fun kt0 kt =>
                fst kt = fst kt0 /\ groups_appended groups_metadata (snd kt0) (snd kt))
             topics0 topics.
Proof.
  intros Hrun. unfold _map_groups_into_topics in Hrun.
  pose (P := fun (done : list ConsumerGroupDescription.t)
                 (topics : Dict.t Topic.t) (w : World) =>
               uuids w = uuids w0
               /\ Forall2 (fun kt0 kt =>
                             fst kt = fst kt0
                             /\ groups_appended done (snd kt0) (snd kt))
                          topics0 topics).
  change (P ([] ++ groups_metadata) topics w).
  eapply (for_each_returns P); [| |exact Hrun].
  - intros before gm acc w1 acc' w1' [Hu Hall] _ Hbody.
    apply bind_returns in Hbody. destruct Hbody as (h & w2 & Hnew & Hvalues).
    unfold Consumer in Hnew. inversion Hnew; subst h w2; clear Hnew.
    apply for_values_returns in Hvalues. destruct Hvalues as [-> Hstep].
    split; [simpl; exact Hu|].
    simpl app in *.
    eapply Forall2_chain; [exact Hall|exact Hstep|].
    intros kt0 kt1 kt2 _ [Hk1 Hdone] [Hk2 Hatt].
    split; [congruence|]. eapply groups_appended_step; eassumption.
  - split; [reflexivity|]. apply Forall2_refl_on.
    intros kt. split; [reflexivity|apply groups_appended_refl].
Qed.

(** X11.  [_map_groups_into_topics] leaves the keys of the dict, and the
    name and the partitions of every topic, as they are, and takes no
    group away: it appends to each topic at most one group for each
    described group, with the id of a described group, and no id twice
    when no described group comes twice.  It creates one consumer for each
    described group and draws no [uuid4]. *)
Theorem map_groups_only_appends_groups groups_metadata topics0 w0 topics w :
  _map_groups_into_topics committed_reply watermark_reply groups_metadata topics0 w0
  = (Returns topics, w) ->
  Dict.keys topics = Dict.keys topics0
  /\ Forall2 (groups_appended groups_metadata)
             (Dict.values topics0) (Dict.values topics)
  /\ consumers w = (consumers w0 + List.length groups_metadata)%nat
  /\ uuids w = uuids w0.
Proof.
  intros Hrun. destruct (group_phase _ _ _ Hrun) as [Hu Hall].
  apply _map_groups_into_topics_returns in Hrun.
  destruct Hrun as (evs & _ & Hc & _).
  splits; auto.
  - apply (Forall2_same_keys (groups_appended groups_metadata)). exact Hall.
  - unfold Dict.values. clear - Hall.
    induction Hall as [|kt0 kt d0 d [_ H] _ IH]; simpl; constructor; auto.
Qed.

(** ** The consumers and the identifiers that a snapshot takes *)

Lemma _map_topics_counts topics_metadata w0 topics w :
  _map_topics uuid4 watermark_reply topics_metadata w0 = (Returns topics, w) ->
  let partitions := flat_map TopicMetadata.partitions topics_metadata in
  consumers w = (consumers w0 + List.length partitions)%nat
  /\ uuids w = (uuids w0 + List.length partitions)%nat.
Proof.
  intros Hrun. unfold _map_topics in Hrun.
  pose (P := fun (done : list TopicMetadata.t) (_ : Dict.t Topic.t) (w : World) =>
               consumers w
               = (consumers w0
                  + List.length (flat_map TopicMetadata.partitions done))%nat
               /\ uuids w
                  = (uuids w0
                     + List.length (flat_map TopicMetadata.partitions done))%nat).
  change (P ([] ++ topics_metadata) topics w).
  eapply (for_each_returns P); [| |exact Hrun].
  - intros before tm acc w1 acc' w1' [Hc Hu] _ Hbody. simpl app in *.
    apply bind_returns in Hbody. destruct Hbody as (topic & w2 & Hloop & Hret).
    unfold ret in Hret. inversion Hret; subst; clear Hret.
    pose (Q := fun (done : list PartitionMetadata.t) (_ : Topic.t) (w : World) =>
                 consumers w = (consumers w1 + List.length done)%nat
                 /\ uuids w = (uuids w1 + List.length done)%nat).
    assert (HQ : Q ([] ++ TopicMetadata.partitions tm) topic w1').
    { eapply (for_each_returns Q); [| |exact Hloop].
      - intros before' pm topic1 w3 topic2 w4 [Hc' Hu'] _ Hstep. simpl app in *.
        apply bind_returns in Hstep. destruct Hstep as (lh & w5 & Hget & Hret).
        rewrite _get_watermarks_runs in Hget.
        destruct lh as [low high]. unfold ret in Hret.
        inversion Hret; subst; clear Hret.
        inversion Hget; subst; clear Hget.
        unfold Q. rewrite length_app. simpl. split; lia.
      - unfold Q. simpl. split; lia. }
    destruct HQ as [Hc' Hu']. simpl app in *.
    unfold P. rewrite flat_map_app, length_app. simpl. rewrite app_nil_r.
    split; lia.
  - unfold P. simpl. split; lia.
Qed.

(** X12.  A snapshot creates one consumer for every partition of every
    listed topic and one for every described group, numbered in the order
    of their creation, and draws one [uuid4] for every partition of every
    listed topic. *)
Theorem snapshot_consumer_count admin topics w :
  all uuid4 committed_reply watermark_reply admin genesis = (Returns topics, w) ->
  let partitions := flat_map TopicMetadata.partitions (list_topics admin) in
  consumers w
  = (List.length partitions + List.length (_list_groups_metadata admin))%nat
  /\ uuids w = List.length partitions
  /\ map handle_id (created (trace w)) = seq 0 (consumers w).
Proof.
  intros Hrun partitions.
  destruct (all_phases uuid4 committed_reply watermark_reply admin Hrun) as (topics0 & w0 & Htopics & Hgroups).
  destruct (_map_topics_counts _ _ Htopics) as [Hc0 Hu0].
  destruct (group_phase _ _ _ Hgroups) as [Hu _].
  apply _map_topics_returns in Htopics.
  destruct Htopics as (evs1 & Htr1 & Hc1 & [_ Hids1] & _).
  apply _map_groups_into_topics_returns in Hgroups.
  destruct Hgroups as (evs2 & Htr2 & Hc2 & _ & Hids2 & _).
  assert (Hlen : List.length (flat_map TopicMetadata.partitions
                                       (_list_topics_metadata admin))
                 = List.length partitions).
  { apply Permutation_length. apply Permutation_flat_map.
    unfold _list_topics_metadata, sorted.
    destruct (sorted_fold (fun topic => Py.lower (TopicMetadata.topic topic))
                          (list_topics admin) (SSorted_nil _))
      as (_ & Hperm & _).
    exact Hperm. }
  simpl in Hc0, Hu0, Hc1, Htr1. rewrite Hlen in Hc0, Hu0.
  splits.
  - lia.
  - lia.
  - rewrite Htr2, Htr1, created_app, map_app, Hids1, Hids2, <- Hc1.
    rewrite Hc2. simpl. rewrite <- seq_app. reflexivity.
Qed.

End Facts.

(** ** The scenarios *)

Section Scenarios.

Import SnapshotScenario.

Lemma snapshot_is_keyed_by_topic_name_witness :
  all uuid4 committed_reply watermark_reply (cluster [payments; orders]) genesis
  = (Returns (topics_of snapshot2), snd snapshot2)
  /\ NoDup (Dict.keys (topics_of snapshot2))
  /\ (In "orders" (Dict.keys (topics_of snapshot2))
      <-> In "orders" (map TopicMetadata.topic [payments; orders])).
Proof.
  assert (Hrun : all uuid4 committed_reply watermark_reply
                     (cluster [payments; orders]) genesis
                 = (Returns (topics_of snapshot2), snd snapshot2))
    by (vm_compute; reflexivity).
  destruct (@snapshot_is_keyed_by_topic_name
              uuid4 committed_reply watermark_reply (cluster [payments; orders])
              (topics_of snapshot2) (snd snapshot2) Hrun)
    as (Hnodup & Hkeys & _).
  split; [exact Hrun|]. split; [exact Hnodup|]. apply Hkeys.
Defined.

Lemma snapshot_without_groups_witness :
  list_consumer_groups quiet = []
  /\ all uuid4 committed_reply watermark_reply quiet genesis
     = (Returns (topics_of quiet_snapshot), snd quiet_snapshot)
  /\ Forall (fun ev => is_fetch ev = false) (trace (snd quiet_snapshot))
  /\ handle_per_lookup (trace (snd quiet_snapshot)).
Proof.
  assert (Hrun : all uuid4 committed_reply watermark_reply quiet genesis
                 = (Returns (topics_of quiet_snapshot), snd quiet_snapshot))
    by (vm_compute; reflexivity).
  destruct (@snapshot_without_groups
              uuid4 committed_reply watermark_reply quiet
              (topics_of quiet_snapshot) (snd quiet_snapshot) eq_refl Hrun)
    as (_ & Hnone & Hper).
  split; [reflexivity|]. split; [exact Hrun|]. split; [exact Hnone|exact Hper].
Defined.

Lemma snapshot_group_is_consistent_witness :
  In ("orders", orders_topic) (topics_of snapshot)
  /\ Topic.groups orders_topic <> []
  /\ Forall (fun group =>
               Group.partitions group <> []
               /\ Forall (fun member => GroupMember.group member = Group.id group)
                         (Group.members group))
            (Topic.groups orders_topic).
Proof.
  assert (Hrun : all uuid4 committed_reply watermark_reply (cluster [orders]) genesis
                 = (Returns (topics_of snapshot), snd snapshot))
    by (vm_compute; reflexivity).
  assert (Hin : In ("orders", orders_topic) (topics_of snapshot))
    by (vm_compute; left; reflexivity).
  split; [exact Hin|]. split; [vm_compute; discriminate|].
  apply Forall_forall. intros group Hgroup.
  destruct (@snapshot_group_is_consistent
              uuid4 committed_reply watermark_reply (cluster [orders])
              (topics_of snapshot) (snd snapshot) Hrun
              "orders" orders_topic group Hin Hgroup)
    as (Hsome & _ & Hmembers).
  split; [exact Hsome|]. apply Forall_forall. exact Hmembers.
Defined.

Lemma map_groups_only_appends_groups_witness :
  _map_groups_into_topics committed_reply watermark_reply [g1; g1]
                          (topics_of mapped) (snd mapped)
  = (Returns (topics_of mapped_twice), snd mapped_twice)
  /\ Dict.keys (topics_of mapped_twice) = Dict.keys (topics_of mapped)
  /\ Forall2 (groups_appended [g1; g1])
             (Dict.values (topics_of mapped)) (Dict.values (topics_of mapped_twice)).
Proof.
  assert (Hrun : _map_groups_into_topics committed_reply watermark_reply [g1; g1]
                                         (topics_of mapped) (snd mapped)
                 = (Returns (topics_of mapped_twice), snd mapped_twice))
    by (vm_compute; reflexivity).
  destruct (@map_groups_only_appends_groups
              committed_reply watermark_reply [g1; g1]
              (topics_of mapped) (snd mapped)
              (topics_of mapped_twice) (snd mapped_twice) Hrun)
    as (Hkeys & Hall & _).
  split; [exact Hrun|]. split; [exact Hkeys|exact Hall].
Defined.

Lemma snapshot_consumer_count_witness :
  all uuid4 committed_reply watermark_reply (cluster [payments; orders]) genesis
  = (Returns (topics_of snapshot2), snd snapshot2)
  /\ consumers (snd snapshot2) = 4%nat
  /\ uuids (snd snapshot2) = 3%nat.
Proof.
  assert (Hrun : all uuid4 committed_reply watermark_reply
                     (cluster [payments; orders]) genesis
                 = (Returns (topics_of snapshot2), snd snapshot2))
    by (vm_compute; reflexivity).
  destruct (@snapshot_consumer_count
              uuid4 committed_reply watermark_reply (cluster [payments; orders])
              (topics_of snapshot2) (snd snapshot2) Hrun)
    as (Hconsumers & Huuids & _).
  split; [exact Hrun|]. split; [exact Hconsumers|exact Huuids].
Defined.

End Scenarios.

End SnapshotMore.
(** * The admin operations of [TopicService] *)

Module AdminMore.
Import Kafka TopicService SnapshotMore.

Lemma results_returns {A : Type} (futures : list (Reply A)) :
  results futures = Returns tt <-> Forall returned futures.
Proof.
  induction futures as [|[a|ex] futures IH]; simpl.
  - split; [constructor|reflexivity].
  - rewrite IH. split.
    + intros H. constructor; [exists a; reflexivity|exact H].
    + intros H. inversion H; assumption.
  - split; [discriminate|].
    intros H. inversion H as [|? ? [a Ha] ?]. discriminate.
Qed.

Lemma results_throws {A : Type} (futures : list (Reply A)) ex :
  results futures = Throws ex <-> first_failure futures ex.
Proof.
  induction futures as [|[a|ex'] futures IH]; simpl.
  - split; [discriminate|]. intros (before & after & Heq & _).
    destruct before; discriminate.
  - rewrite IH. split.
    + intros (before & after & -> & Hall).
      exists (Returns a :: before), after. split; [reflexivity|].
      constructor; [exists a; reflexivity|exact Hall].
    + intros (before & after & Heq & Hall).
      destruct before as [|first before]; [discriminate|].
      inversion Heq; subst. inversion Hall; subst.
      exists before, after. split; [reflexivity|assumption].
  - split.
    + intros H. inversion H; subst. exists [], futures. split; [reflexivity|constructor].
    + intros (before & after & Heq & Hall).
      destruct before as [|first before].
      * inversion Heq. reflexivity.
      * inversion Heq; subst. inversion Hall as [|? ? [a Ha] ?]. discriminate.
Qed.

(** X14.  [create], [edit], [add_partitions] and [delete] return when
    every future of the request returned, and raise what the first future
    that failed raised; the futures behind it are not asked for their
    result. *)
Theorem admin_operations_raise_first_failure admin_client :
  (forall new_topics,
      let futures := Dict.values (create_topics admin_client new_topics) in
      (create admin_client new_topics = Returns tt <-> Forall returned futures)
      /\ (forall ex, create admin_client new_topics = Throws ex
                     <-> first_failure futures ex))
  /\ (forall name config,
         let futures :=
           map snd (incremental_alter_configs admin_client
                      [edit_resource name config]) in
         (edit admin_client name config = Returns tt <-> Forall returned futures)
         /\ (forall ex, edit admin_client name config = Throws ex
                        <-> first_failure futures ex))
  /\ (forall name partitions,
         let futures :=
           Dict.values (create_partitions admin_client
                          [ {| NewPartitions.topic := name;
                               NewPartitions.new_total_count := partitions |} ]) in
         (add_partitions admin_client name partitions = Returns tt
          <-> Forall returned futures)
         /\ (forall ex, add_partitions admin_client name partitions = Throws ex
                        <-> first_failure futures ex))
  /\ (forall name,
         let futures := Dict.values (delete_topics admin_client [name]) in
         (delete admin_client name = Returns tt <-> Forall returned futures)
         /\ (forall ex, delete admin_client name = Throws ex
                        <-> first_failure futures ex)).
Proof.
  unfold create, edit, add_partitions, delete.
  repeat split; try apply results_returns; try apply results_throws;
    intros H; try (apply results_returns; exact H);
    try (apply results_throws; exact H).
Qed.

(** ** [get_configs] *)

Lemma dict_get_set {V : Type} (d : Dict.t V) k v k' :
  Dict.get (Dict.set d k v) k'
  = if String.eqb k k' then Some v else Dict.get d k'.
Proof.
  induction d as [|[k0 v0] d IH]; simpl.
  - reflexivity.
  - destruct (String.eqb_spec k0 k) as [->|Hne]; simpl.
    + destruct (String.eqb k k'); reflexivity.
    + rewrite IH. destruct (String.eqb_spec k0 k') as [->|Hne'].
      * destruct (String.eqb_spec k k') as [->|_]; [contradiction|reflexivity].
      * reflexivity.
Qed.

Lemma find_last {X : Type} (f : X -> bool) xs x :
  find f (xs ++ [x])
  = match find f xs with
    | Some y => Some y
    | None => if f x then Some x else None
    end.
Proof.
  induction xs as [|y xs IH]; simpl; [reflexivity|].
  destruct (f y); [reflexivity|exact IH].
Qed.

Lemma config_fold configs :
  forall acc,
    let d := fold_left (fun d config => Dict.set d (ConfigEntry.name config)
                                                 (ConfigEntry.value config))
                       configs acc in
    (NoDup (Dict.keys acc) -> NoDup (Dict.keys d))
    /\ (forall key,
           Dict.get d key
           = match last_named key configs with
             | Some config => Some (ConfigEntry.value config)
             | None => Dict.get acc key
             end)
    /\ (forall key,
           In key (Dict.keys d)
           <-> In key (Dict.keys acc) \/ In key (map ConfigEntry.name configs)).
Proof.
  induction configs as [|config configs IH]; intros acc; simpl.
  - split; [auto|]. split; [reflexivity|]. intros key. tauto.
  - destruct (IH (Dict.set acc (ConfigEntry.name config) (ConfigEntry.value config)))
      as (Hnodup & Hget & Hkeys).
    split; [|split].
    + intros Hacc. apply Hnodup. apply dict_set_keys_nodup. exact Hacc.
    + intros key. rewrite Hget. unfold last_named. simpl. rewrite find_last.
      destruct (find _ (rev configs)); [reflexivity|].
      rewrite dict_get_set.
      destruct (String.eqb (ConfigEntry.name config) key); reflexivity.
    + intros key. rewrite Hkeys. split.
      * intros [Hin|Hin]; [|auto].
        destruct (in_dec string_dec (ConfigEntry.name config) (Dict.keys acc)) as [Hk|Hk].
        -- rewrite dict_set_keys_known in Hin by exact Hk. auto.
        -- rewrite dict_set_keys_new in Hin by exact Hk.
           apply in_app_iff in Hin. destruct Hin as [Hin|[<-|[]]]; auto.
      * intros [Hin|[<-|Hin]]; [| |auto]; left.
        -- apply SnapshotFacts.dict_set_keys. right. exact Hin.
        -- apply SnapshotFacts.dict_set_keys. left. reflexivity.
Qed.

(** X15.  [get_configs] asks for the one topic and reads the first future
    only.  When that future returned the entries [configs], the dict it
    hands back has the names of the entries as its keys, each once, and
    under each name the value of the last entry of that name; when the
    future failed, [get_configs] raises what it raised; with no future at
    all the dict is empty. *)
Theorem get_configs_reads_first_future admin_client name :
  (describe_configs admin_client [topic_resource name] = [] ->
   get_configs admin_client name = Returns [])
  /\ (forall resource ex others,
         describe_configs admin_client [topic_resource name]
         = (resource, Throws ex) :: others ->
         get_configs admin_client name = Throws ex)
  /\ (forall resource configs others,
         describe_configs admin_client [topic_resource name]
         = (resource, Returns configs) :: others ->
         exists d,
           get_configs admin_client name = Returns d
           /\ NoDup (Dict.keys d)
           /\ (forall key,
                  In key (Dict.keys d)
                  <-> In key (map ConfigEntry.name (Dict.values configs)))
           /\ (forall key,
                  Dict.get d key
                  = option_map ConfigEntry.value
                               (last_named key (Dict.values configs)))).
Proof.
  unfold get_configs. fold (topic_resource name).
  split; [|split].
  - intros ->. reflexivity.
  - intros resource ex others ->. reflexivity.
  - intros resource configs others ->. simpl.
    exists (config_dict configs). split; [reflexivity|].
    unfold config_dict.
    destruct (config_fold (Dict.values configs) []) as (Hnodup & Hget & Hkeys).
    split; [apply Hnodup; constructor|]. split.
    + intros key. rewrite Hkeys. simpl. tauto.
    + intros key. rewrite Hget.
      destruct (last_named key (Dict.values configs)); reflexivity.
Qed.

(** ** The scenarios *)

Section Scenarios.

Import AdminScenario.

Lemma get_configs_reads_first_future_witness :
  describe_configs admin_client [topic_resource "orders"]
  = [(topic_resource "orders", Returns described)]
  /\ exists d,
      get_configs admin_client "orders" = Returns d
      /\ Dict.get d "retention.ms" = Some (Some "604800000")
      /\ Dict.get d "segment.bytes" = None.
Proof.
  split; [reflexivity|].
  destruct (proj2 (proj2 (@get_configs_reads_first_future admin_client "orders"))
                  (topic_resource "orders") described [] eq_refl)
    as (d & Hd & _ & _ & Hget).
  exists d. split; [exact Hd|]. split; rewrite Hget; reflexivity.
Defined.

(** Adding partitions to a topic that the broker does not know raises
    what the future raised; creating two topics returns. *)
Example admin_operations_scenario :
  add_partitions admin_client "orders" 6 = Throws unknown_topic
  /\ delete admin_client "orders" = Throws unknown_topic
  /\ create admin_client
            [ {| NewTopic.topic := "a"; NewTopic.num_partitions := 1;
                 NewTopic.replication_factor := 1 |};
              {| NewTopic.topic := "b"; NewTopic.num_partitions := 1;
                 NewTopic.replication_factor := 1 |} ] = Returns tt
  /\ edit admin_client "orders" [("retention.ms", "1000")] = Returns tt.
Proof. repeat split. Qed.

End Scenarios.

End AdminMore.
